(** * StyleMorph: the orchestration core of [App.tsx] and [geminiService.ts]

    A shallow embedding of the input undo/redo history, the bounded run
    history and its persisted copy, the template catalog handlers and the
    gallery that calls them, the stylesheet validator and the
    [processFiles] pipeline, followed by the properties proved about
    them. *)

From Stdlib Require Import String Ascii ZArith DecimalString.
From Stdlib Require SpecFloat.
From stdpp Require Import base numbers list option.

Local Open Scope Z_scope.

(** ** JavaScript strings

    A JavaScript string is a sequence of UTF-16 code units; [trim] and the
    regular expression class [\s] are defined on code units, so the
    embedding keeps that representation. *)

Abbreviation jstr := (list N).

Definition lit (s : string) : jstr :=
  (λ a, N_of_ascii a) <$> list_ascii_of_string s.
Arguments lit s%_string : simpl never.

(** [String(n)] / template-literal rendering of an integer-valued number
    (exact below 1e21, far above any string length). *)
Definition Number_toString (n : Z) : jstr :=
  lit (NilZero.string_of_int (Z.to_int n)).

(** ** JavaScript numbers

    A like count is a [number], an IEEE 754 double. The counts the
    handlers work on are integers, so a count is kept as the integer it
    denotes and [+] rounds the exact sum to the nearest double, ties to
    even: every integer below [2^53] in magnitude is a double, above that
    only the multiples of a power of two are ([e] below is the exponent of
    the last place of a 53-bit significand). Counts stay below [2^1024],
    where a sum would become [Infinity]. *)
Definition roundToDouble (z : Z) : Z :=
  let a := Z.abs z in
  if a <? 2 ^ 53 then z
  else
    let e := Z.log2 a - 52 in
    let q := Z.shiftr a e in
    let r := Z.land a (Z.ones e) in
    let half := Z.shiftl 1 (e - 1) in
    let q' :=
      if r <? half then q
      else if half <? r then q + 1
      else if Z.even q then q else q + 1 in
    Z.sgn z * Z.shiftl q' e.

Definition Number_add (a b : Z) : Z := roundToDouble (a + b).
Definition Number_sub (a b : Z) : Z := roundToDouble (a - b).

(** The same sum by the IEEE 754 operations of the standard library, on
    the binary64 format, to compare [Number_add] with. *)
Definition toBinary64 (z : Z) : SpecFloat.spec_float :=
  SpecFloat.binary_normalize 53 1024 z 0 false.
Definition ofBinary64 (x : SpecFloat.spec_float) : Z :=
  match x with
  | SpecFloat.S754_finite s m e => (if s then -1 else 1) * Z.shiftl (Zpos m) e
  | _ => 0
  end.
Definition binary64_add (a b : Z) : Z :=
  ofBinary64 (SpecFloat.SFadd 53 1024 (toBinary64 a) (toBinary64 b)).

(** [Number.isSafeInteger]. *)
Definition isSafeInteger (z : Z) : Prop := - 2 ^ 53 < z < 2 ^ 53.

(** ECMAScript WhiteSpace and LineTerminator code points: what [trim]
    strips and what [\s] matches. All of them are in the BMP. *)
Definition isWhiteSpace (c : N) : bool :=
  ((9 <=? c) && (c <=? 13) || (c =? 32) || (c =? 160) || (c =? 5760)
   || (8192 <=? c) && (c <=? 8202) || (c =? 8232) || (c =? 8233)
   || (c =? 8239) || (c =? 8287) || (c =? 12288) || (c =? 65279))%N.

Fixpoint trimStart (s : jstr) : jstr :=
  match s with
  | c :: s' => if isWhiteSpace c then trimStart s' else s
  | [] => []
  end.

Definition trimEnd (s : jstr) : jstr := reverse (trimStart (reverse s)).

Definition trim (s : jstr) : jstr := trimEnd (trimStart s).

(** [a.join(sep)] on an array of strings. *)
Fixpoint join (sep : jstr) (parts : list jstr) : jstr :=
  match parts with
  | [] => []
  | [p] => p
  | p :: rest => p ++ sep ++ join sep rest
  end.

(** ** geminiService.ts: [validateCss] *)

Definition extraBraceMsg : jstr := lit "Found extra closing brace '}'.".
Definition missingBraceMsg (openBraces : Z) : jstr :=
  lit "Missing " ++ Number_toString openBraces ++ lit " closing brace(s) '}'.".
Definition emptyCssMsg : jstr := lit "Generated CSS is empty.".

(** One iteration of the [for] loop: the state is [(openBraces, errors)]. *)
Definition validateStep (st : Z * list jstr) (c : N) : Z * list jstr :=
  let openBraces := if (c =? 123)%N then st.1 + 1 else st.1 in
  let openBraces := if (c =? 125)%N then openBraces - 1 else openBraces in
  if openBraces <? 0 then (0, st.2 ++ [extraBraceMsg])
  else (openBraces, st.2).

Definition validateScan (css : jstr) : Z * list jstr :=
  foldl validateStep (0, []) css.

Definition validateCss (css : jstr) : list jstr :=
  let '(openBraces, errors) := validateScan css in
  let errors :=
    if 0 <? openBraces then errors ++ [missingBraceMsg openBraces] else errors in
  if bool_decide (css = []) || (length (trim css) =? 0)%nat
  then errors ++ [emptyCssMsg] else errors.

(** ** geminiService.ts: [cleanCodeResponse]

    The pattern is [^```(?:html|css)?\s*([\s\S]*?)\s*```$] with flag [i],
    matched against the trimmed text. It matches exactly when the text
    starts with a fence and, after the optional language tag, still ends
    with a fence; the lazy group then holds what lies between, without
    the white space next to either fence. *)

Definition fence : jstr := lit "```".

Fixpoint stripPrefix (p s : jstr) : option jstr :=
  match p, s with
  | [], _ => Some s
  | a :: p', b :: s' => if (a =? b)%N then stripPrefix p' s' else None
  | _ :: _, [] => None
  end.

Definition stripSuffix (p s : jstr) : option jstr :=
  reverse <$> stripPrefix (reverse p) (reverse s).

(** Flag [i] without flag [u]: only ASCII letters fold onto ASCII letters. *)
Definition asciiLower (c : N) : N :=
  if ((65 <=? c) && (c <=? 90))%N then (c + 32)%N else c.

Definition stripLanguageTag (s : jstr) : jstr :=
  match stripPrefix (lit "html") (asciiLower <$> take 4 s) with
  | Some _ => drop 4 s
  | None =>
      match stripPrefix (lit "css") (asciiLower <$> take 3 s) with
      | Some _ => drop 3 s
      | None => s
      end
  end.

Definition cleanCodeResponse (text : jstr) : jstr :=
  let cleaned := trim text in
  match stripPrefix fence cleaned with
  | Some rest =>
      match stripSuffix fence (stripLanguageTag rest) with
      | Some body => trim body
      | None => cleaned
      end
  | None => cleaned
  end.

(** ** types.ts: the data model *)

Module UploadedFile.
Record t := mk { id : jstr; name : jstr; content : jstr }.
End UploadedFile.

Inductive FileType := html | css.

Module ProcessedFile.
Record t := mk { fileName : jstr; content : jstr; type : FileType }.
End ProcessedFile.

Inductive ProcessingStatus :=
  IDLE | ANALYZING | GENERATING_CSS | REWRITING_HTML | COMPLETED | ERROR.

Module HistoryItem.
Record t := mk {
  id : jstr; timestamp : Z; prompt : jstr; results : list ProcessedFile.t }.
End HistoryItem.

Inductive Provider := google | ollama.

Module AIModel.
Record t := mk { id : jstr; name : jstr; provider : Provider }.
End AIModel.

(** [isCustom?: boolean]: [None] is the absent property. *)
Module StyleTemplate.
Record t := mk {
  id : jstr; name : jstr; prompt : jstr;
  likes : Z; isLiked : bool; isCustom : option bool }.
End StyleTemplate.

(** An entry of [inputHistory]. *)
Module Snapshot.
Record t := mk { files : list UploadedFile.t; prompt : jstr }.
End Snapshot.

(** The two [localStorage] keys the app reads and writes.

    A key holds no text (or the empty text, which [if (saved)] treats
    alike), a text that [JSON.parse] rejects, or the JSON of a value; the
    app itself only ever writes the [JSON.stringify] of a list of records,
    which is kept as the list it serialises, and a text that parses is
    taken to be the JSON of such a list.

    [setItem] throws when the browser refuses the write (quota exceeded,
    storage disabled). Which calls are refused is up to the browser:
    [setItemError k] is the message of the exception thrown by the [k]-th
    call, [None] when that call returns; [setItemCalls] counts the calls
    made so far. *)
Module Storage.
Inductive item (A : Type) :=
| Absent
| Unparsable
| Holds (value : A).
Arguments Absent {A}.
Arguments Unparsable {A}.
Arguments Holds {A} value.

Record t := mk {
  stylemorph_history : item (list HistoryItem.t);
  stylemorph_templates : item (list StyleTemplate.t);
  setItemError : nat → option jstr;
  setItemCalls : nat }.

(** A store in which every write is accepted. *)
Definition holding (runs : item (list HistoryItem.t))
    (catalog : item (list StyleTemplate.t)) : t :=
  mk runs catalog (λ _, None) 0%nat.

(** The value a key holds, [d] when it holds none. *)
Definition valueOr {A} (d : A) (i : item A) : A :=
  match i with Holds v => v | _ => d end.

(** What the next [setItem] call throws, if it throws. *)
Definition nextError (store : t) : option jstr :=
  setItemError store (setItemCalls store).

(** The store after a call that was refused, and after one that put
    [runs] under [stylemorph_history] or [catalog] under
    [stylemorph_templates]. *)
Definition refused (store : t) : t :=
  mk (stylemorph_history store) (stylemorph_templates store)
    (setItemError store) (S (setItemCalls store)).
Definition putHistory (runs : list HistoryItem.t) (store : t) : t :=
  mk (Holds runs) (stylemorph_templates store)
    (setItemError store) (S (setItemCalls store)).
Definition putTemplates (catalog : list StyleTemplate.t) (store : t) : t :=
  mk (stylemorph_history store) (Holds catalog)
    (setItemError store) (S (setItemCalls store)).
End Storage.

(** ** App.tsx: component state

    One field per [useState]/[useRef] cell the handlers below touch, plus
    the browser's [localStorage]. [debounceTimer] holds what the pending
    [setTimeout] callback of [handlePromptChange] captured: the
    [historyIndex] and [files] of the render that scheduled it, and the
    new prompt; [None] when no callback is pending. *)

Record AppState := mkApp {
  selectedModel : AIModel.t;
  files : list UploadedFile.t;
  prompt : jstr;
  templates : list StyleTemplate.t;
  inputHistory : list Snapshot.t;
  historyIndex : nat;
  isUndoing : bool;
  status : ProcessingStatus;
  statusMessage : jstr;
  results : list ProcessedFile.t;
  error : option jstr;
  history : list HistoryItem.t;
  showHistory : bool;
  debounceTimer : option (nat * list UploadedFile.t * jstr);
  localStorage : Storage.t }.

Definition DEFAULT_TEMPLATES : list StyleTemplate.t :=
  [ StyleTemplate.mk (lit "t1") (lit "Dark Mode Minimal")
      (lit "Modern dark mode with sleek typography, high contrast, slate background, and subtle blue accents.")
      124 false None;
    StyleTemplate.mk (lit "t2") (lit "Corporate Clean")
      (lit "Professional, trustworthy corporate style with navy blue header, white background, and clean sans-serif fonts.")
      89 false None;
    StyleTemplate.mk (lit "t3") (lit "Neon Cyberpunk")
      (lit "Futuristic cyberpunk aesthetic with neon pink and cyan text, black background, and glitch effects on hover.")
      256 false None;
    StyleTemplate.mk (lit "t4") (lit "Playful & Brutalist")
      (lit "Bold neo-brutalism with thick black borders, vivid pastel colors, large typography, and offset shadows.")
      54 false None ].

(** The [useState] and [useRef] initialisers: the state of the first
    render, before the mount effect has run. *)
Definition firstRender (store : Storage.t) : AppState :=
  {| selectedModel :=
       AIModel.mk (lit "gemini-2.5-flash") (lit "Gemini 2.5 Flash") google;
     files := []; prompt := [];
     templates := DEFAULT_TEMPLATES;
     inputHistory := [Snapshot.mk [] []]; historyIndex := 0%nat;
     isUndoing := false;
     status := IDLE; statusMessage := []; results := []; error := None;
     history := [];
     showHistory := false;
     debounceTimer := None;
     localStorage := store |}.

(** State setters (one per [set...] callback or ref assignment). *)
Definition withFiles v (s : AppState) :=
  mkApp (selectedModel s) v (prompt s) (templates s) (inputHistory s)
    (historyIndex s) (isUndoing s) (status s) (statusMessage s) (results s)
    (error s) (history s) (showHistory s) (debounceTimer s) (localStorage s).
Definition withPrompt v (s : AppState) :=
  mkApp (selectedModel s) (files s) v (templates s) (inputHistory s)
    (historyIndex s) (isUndoing s) (status s) (statusMessage s) (results s)
    (error s) (history s) (showHistory s) (debounceTimer s) (localStorage s).
Definition withTemplates v (s : AppState) :=
  mkApp (selectedModel s) (files s) (prompt s) v (inputHistory s)
    (historyIndex s) (isUndoing s) (status s) (statusMessage s) (results s)
    (error s) (history s) (showHistory s) (debounceTimer s) (localStorage s).
Definition withInputHistory v (s : AppState) :=
  mkApp (selectedModel s) (files s) (prompt s) (templates s) v
    (historyIndex s) (isUndoing s) (status s) (statusMessage s) (results s)
    (error s) (history s) (showHistory s) (debounceTimer s) (localStorage s).
Definition withHistoryIndex v (s : AppState) :=
  mkApp (selectedModel s) (files s) (prompt s) (templates s) (inputHistory s)
    v (isUndoing s) (status s) (statusMessage s) (results s)
    (error s) (history s) (showHistory s) (debounceTimer s) (localStorage s).
Definition withIsUndoing v (s : AppState) :=
  mkApp (selectedModel s) (files s) (prompt s) (templates s) (inputHistory s)
    (historyIndex s) v (status s) (statusMessage s) (results s)
    (error s) (history s) (showHistory s) (debounceTimer s) (localStorage s).
Definition withStatus v (s : AppState) :=
  mkApp (selectedModel s) (files s) (prompt s) (templates s) (inputHistory s)
    (historyIndex s) (isUndoing s) v (statusMessage s) (results s)
    (error s) (history s) (showHistory s) (debounceTimer s) (localStorage s).
Definition withStatusMessage v (s : AppState) :=
  mkApp (selectedModel s) (files s) (prompt s) (templates s) (inputHistory s)
    (historyIndex s) (isUndoing s) (status s) v (results s)
    (error s) (history s) (showHistory s) (debounceTimer s) (localStorage s).
Definition withResults v (s : AppState) :=
  mkApp (selectedModel s) (files s) (prompt s) (templates s) (inputHistory s)
    (historyIndex s) (isUndoing s) (status s) (statusMessage s) v
    (error s) (history s) (showHistory s) (debounceTimer s) (localStorage s).
Definition withError v (s : AppState) :=
  mkApp (selectedModel s) (files s) (prompt s) (templates s) (inputHistory s)
    (historyIndex s) (isUndoing s) (status s) (statusMessage s) (results s)
    v (history s) (showHistory s) (debounceTimer s) (localStorage s).
Definition withHistory v (s : AppState) :=
  mkApp (selectedModel s) (files s) (prompt s) (templates s) (inputHistory s)
    (historyIndex s) (isUndoing s) (status s) (statusMessage s) (results s)
    (error s) v (showHistory s) (debounceTimer s) (localStorage s).
Definition withShowHistory v (s : AppState) :=
  mkApp (selectedModel s) (files s) (prompt s) (templates s) (inputHistory s)
    (historyIndex s) (isUndoing s) (status s) (statusMessage s) (results s)
    (error s) (history s) v (debounceTimer s) (localStorage s).
Definition withDebounceTimer v (s : AppState) :=
  mkApp (selectedModel s) (files s) (prompt s) (templates s) (inputHistory s)
    (historyIndex s) (isUndoing s) (status s) (statusMessage s) (results s)
    (error s) (history s) (showHistory s) v (localStorage s).
Definition withLocalStorage v (s : AppState) :=
  mkApp (selectedModel s) (files s) (prompt s) (templates s) (inputHistory s)
    (historyIndex s) (isUndoing s) (status s) (statusMessage s) (results s)
    (error s) (history s) (showHistory s) (debounceTimer s) v.

(** ** Handlers as computations

    A handler runs against the values its render captured (its closure,
    an [AppState]) and against the live cells it updates. A computation
    threads the live state, the requests dispatched so far and the log of
    observable effects; it completes normally or throws an [Error] with a
    message. *)

Inductive Request :=
| CssRequest (files : list UploadedFile.t) (userPrompt : jstr)
| HtmlRequest (file : UploadedFile.t) (globalCss userPrompt : jstr).

Inductive Effect :=
| EStatus (s : ProcessingStatus)
| EGateway (n : nat) (model : AIModel.t) (req : Request)
| EStorage (store : Storage.t)
| EConsoleError.

Inductive Completion (A : Type) :=
| Normal (a : A)
| Throw (message : jstr).
Arguments Normal {A} a.
Arguments Throw {A} message.

Record World := mkWorld { app : AppState; trace : list Effect; calls : nat }.

Definition M (A : Type) : Type := World → Completion A * World.

#[local] Instance M_ret : MRet M := λ A a w, (Normal a, w).
#[local] Instance M_bind : MBind M := λ A B f m w,
  match m w with
  | (Normal a, w') => f a w'
  | (Throw e, w') => (Throw e, w')
  end.

Definition throw {A} (message : jstr) : M A := λ w, (Throw message, w).

(** [try { body } catch (err) { handler(err.message) }] *)
Definition tryCatch {A} (body : M A) (handler : jstr → M A) : M A := λ w,
  match body w with
  | (Normal a, w') => (Normal a, w')
  | (Throw e, w') => handler e w'
  end.

Definition modify (f : AppState → AppState) : M unit := λ w,
  (Normal tt, mkWorld (f (app w)) (trace w) (calls w)).

Definition gets {A} (f : AppState → A) : M A := λ w, (Normal (f (app w)), w).

Definition emit (e : Effect) : M unit := λ w,
  (Normal tt, mkWorld (app w) (trace w ++ [e]) (calls w)).

Definition setFiles v : M unit := modify (withFiles v).
Definition setPrompt v : M unit := modify (withPrompt v).
Definition setTemplates v : M unit := modify (withTemplates v).
Definition setHistoryIndex v : M unit := modify (withHistoryIndex v).
Definition setStatus v : M unit := emit (EStatus v) ;; modify (withStatus v).
Definition setStatusMessage v : M unit := modify (withStatusMessage v).
Definition setResults v : M unit := modify (withResults v).
Definition setError v : M unit := modify (withError v).
Definition setHistory v : M unit := modify (withHistory v).
Definition console_error : M unit := emit EConsoleError.

(** [localStorage.setItem(key, JSON.stringify(value))]: the call is
    counted; it throws what the browser throws, or stores the value. *)
Definition setItem (put : Storage.t → Storage.t) : M unit :=
  store ← gets localStorage;
  match Storage.nextError store with
  | Some message =>
      modify (withLocalStorage (Storage.refused store)) ;;
      throw message
  | None =>
      modify (withLocalStorage (put store)) ;;
      emit (EStorage (put store))
  end.

Definition storeHistory (v : list HistoryItem.t) : M unit :=
  setItem (Storage.putHistory v).
Definition storeTemplates (v : list StyleTemplate.t) : M unit :=
  setItem (Storage.putTemplates v).

(** A handler created by the render of [closure], running when the live
    cells hold [live]. Invoked from the current render, the two agree. *)
Definition exec {A} (handler : AppState → M A) (closure live : AppState)
  : Completion A * World :=
  handler closure (mkWorld live [] 0%nat).
Definition run {A} (handler : AppState → M A) (s : AppState) := exec handler s s.
Definition invoke {A} (handler : AppState → M A) (s : AppState) : AppState :=
  app (run handler s).2.

(** ** App.tsx: the mount effect

    [JSON.parse] of a text that is not JSON throws a [SyntaxError]; both
    keys are read inside one [try] block, the run history first, so a
    history that does not parse leaves the saved templates unread. *)

Definition SyntaxError : jstr := lit "SyntaxError".

(** [const saved = localStorage.getItem(key); if (saved) set(JSON.parse(saved));] *)
Definition loadItem {A} (saved : Storage.item A) (set : A → M unit) : M unit :=
  match saved with
  | Storage.Absent => mret tt
  | Storage.Unparsable => throw SyntaxError
  | Storage.Holds v => set v
  end.

Definition loadSaved (_ : AppState) : M unit :=
  tryCatch
    (store ← gets localStorage;
     loadItem (Storage.stylemorph_history store) setHistory ;;
     loadItem (Storage.stylemorph_templates store) setTemplates)
    (λ _, console_error).

(** The state after mounting: the first render, then the effect that
    loads the saved run history and templates. *)
Definition initialState (store : Storage.t) : AppState :=
  invoke loadSaved (firstRender store).

(** ** App.tsx: input undo/redo history *)

(** Reading a property of [undefined]. *)
Definition TypeError : jstr := lit "TypeError".

(** [capturedIndex] is the [historyIndex] the callback closed over; the
    [prev =>] updaters see the live cells. *)
Definition addToHistoryStack (capturedIndex : nat)
    (newFiles : list UploadedFile.t) (newPrompt : jstr) : M unit :=
  modify (λ prev, withInputHistory
    (take (capturedIndex + 1) (inputHistory prev) ++ [Snapshot.mk newFiles newPrompt])
    prev) ;;
  modify (λ prev, withHistoryIndex (historyIndex prev + 1)%nat prev).

(** The [setTimeout(..., 50)] callback of [handleUndo]/[handleRedo]. *)
Definition replayTimerFires (_ : AppState) : M unit :=
  modify (withIsUndoing false).

Definition handleUndo (c : AppState) : M unit :=
  if bool_decide (0 < historyIndex c)%nat then
    modify (withIsUndoing true) ;;
    let prevIndex := (historyIndex c - 1)%nat in
    match inputHistory c !! prevIndex with
    | Some prevState =>
        setFiles (Snapshot.files prevState) ;;
        setPrompt (Snapshot.prompt prevState) ;;
        setHistoryIndex prevIndex
    | None => throw TypeError
    end
  else mret tt.

Definition handleRedo (c : AppState) : M unit :=
  if bool_decide (historyIndex c < length (inputHistory c) - 1)%nat then
    modify (withIsUndoing true) ;;
    let nextIndex := (historyIndex c + 1)%nat in
    match inputHistory c !! nextIndex with
    | Some nextState =>
        setFiles (Snapshot.files nextState) ;;
        setPrompt (Snapshot.prompt nextState) ;;
        setHistoryIndex nextIndex
    | None => throw TypeError
    end
  else mret tt.

Definition handleFilesSelected (newFiles : list UploadedFile.t) (c : AppState)
  : M unit :=
  let updatedFiles := files c ++ newFiles in
  setFiles updatedFiles ;;
  setError None ;;
  u ← gets isUndoing;
  if negb u then addToHistoryStack (historyIndex c) updatedFiles (prompt c)
  else mret tt.

Definition handleRemoveFile (id : jstr) (c : AppState) : M unit :=
  let updatedFiles := filter (λ f, UploadedFile.id f ≠ id) (files c) in
  setFiles updatedFiles ;;
  u ← gets isUndoing;
  if negb u then addToHistoryStack (historyIndex c) updatedFiles (prompt c)
  else mret tt.

(** [clearTimeout] then [setTimeout(..., 1000)]: the pending callback is
    replaced by one that captures this render. *)
Definition handlePromptChange (newPrompt : jstr) (c : AppState) : M unit :=
  setPrompt newPrompt ;;
  u ← gets isUndoing;
  if negb u
  then modify (withDebounceTimer (Some (historyIndex c, files c, newPrompt)))
  else mret tt.

(** The debounce callback runs: [addToHistoryStack(files, newPrompt)] with
    the values it captured. *)
Definition debounceTimerFires (_ : AppState) : M unit :=
  pending ← gets debounceTimer;
  match pending with
  | Some (capturedIndex, capturedFiles, newPrompt) =>
      modify (withDebounceTimer None) ;;
      addToHistoryStack capturedIndex capturedFiles newPrompt
  | None => mret tt
  end.

(** [addToHistoryStack] as the render of [c] memoises it
    ([useCallback] on [historyIndex]): a commit issued from that render. *)
Definition commitSnapshot (newFiles : list UploadedFile.t) (newPrompt : jstr)
    (c : AppState) : M unit :=
  addToHistoryStack (historyIndex c) newFiles newPrompt.

(** ** App.tsx: template handlers *)

Definition updateTemplates (newTemplates : list StyleTemplate.t) : M unit :=
  setTemplates newTemplates ;;
  storeTemplates newTemplates.

Definition handleSelectTemplate (template : StyleTemplate.t) (c : AppState)
  : M unit :=
  setPrompt (StyleTemplate.prompt template) ;;
  u ← gets isUndoing;
  if negb u
  then addToHistoryStack (historyIndex c) (files c) (StyleTemplate.prompt template)
  else mret tt.

Definition handleDeleteTemplate (id : jstr) (c : AppState) : M unit :=
  let newTemplates := filter (λ t, StyleTemplate.id t ≠ id) (templates c) in
  updateTemplates newTemplates.

Definition renamed (id newName : jstr) (t : StyleTemplate.t) : StyleTemplate.t :=
  if bool_decide (StyleTemplate.id t = id)
  then StyleTemplate.mk (StyleTemplate.id t) newName (StyleTemplate.prompt t)
         (StyleTemplate.likes t) (StyleTemplate.isLiked t) (StyleTemplate.isCustom t)
  else t.

Definition handleRenameTemplate (id newName : jstr) (c : AppState) : M unit :=
  let newTemplates := renamed id newName <$> templates c in
  updateTemplates newTemplates.

(** ** TemplateGallery.tsx: the controls a template card renders

    [editingId] is the gallery's own state. The card itself selects the
    template; the like button is always there; the edit and delete
    buttons are inside [template.isCustom && editingId !== template.id];
    the name input with its save and cancel buttons replaces the name
    when [editingId === template.id]. *)

Inductive Control :=
| SelectCard | LikeButton | EditButton | DeleteButton
| EditNameInput | SaveEditButton | CancelEditButton.

Definition truthy (b : option bool) : bool := default false b.

Definition isEditing (editingId : option jstr) (template : StyleTemplate.t) : bool :=
  bool_decide (editingId = Some (StyleTemplate.id template)).

Definition cardControls (editingId : option jstr) (template : StyleTemplate.t)
  : list Control :=
  [SelectCard]
  ++ (if isEditing editingId template
      then [EditNameInput; SaveEditButton; CancelEditButton] else [])
  ++ [LikeButton]
  ++ (if truthy (StyleTemplate.isCustom template)
         && negb (isEditing editingId template)
      then [EditButton; DeleteButton] else []).

(** ** geminiService.ts: the generation gateway

    The text sent to the model is a function of the arguments of
    [generateGlobalCss] and [rewriteHtmlFile], so the provider (Gemini
    SDK or Ollama over [fetch]) is a function of those arguments; it is
    also indexed by the number of requests made before, since the same
    request need not get the same answer twice. Any failure inside the
    [try] block is a [Throw]. *)

Section Gateway.

Variable transport : nat → AIModel.t → Request → Completion jstr.

Definition callModel (model : AIModel.t) (req : Request) : M jstr := λ w,
  (transport (calls w) model req,
   mkWorld (app w) (trace w ++ [EGateway (calls w) model req]) (S (calls w))).

Definition cssFailureMsg (model : AIModel.t) : jstr :=
  lit "Failed to generate global CSS using " ++ AIModel.name model ++ lit ".".
Definition htmlFailureMsg (file : UploadedFile.t) : jstr :=
  lit "Failed to rewrite HTML for " ++ UploadedFile.name file.

Definition generateGlobalCss (files : list UploadedFile.t) (userPrompt : jstr)
    (model : AIModel.t) : M jstr :=
  tryCatch
    (responseText ← callModel model (CssRequest files userPrompt);
     mret (cleanCodeResponse responseText))
    (λ _, console_error ;; throw (cssFailureMsg model)).

Definition rewriteHtmlFile (file : UploadedFile.t) (globalCss userPrompt : jstr)
    (model : AIModel.t) : M jstr :=
  tryCatch
    (responseText ← callModel model (HtmlRequest file globalCss userPrompt);
     mret (cleanCodeResponse responseText))
    (λ _, console_error ;; throw (htmlFailureMsg file)).

(** ** App.tsx: run history and the pipeline *)

Definition HISTORY_LIMIT : nat := 20.

(** [crypto.randomUUID()] and [Date.now()] are inputs. *)
Definition saveToHistory (uuid : jstr) (now : Z)
    (newResults : list ProcessedFile.t) (userPrompt : jstr) (c : AppState)
  : M unit :=
  let newItem := HistoryItem.mk uuid now userPrompt newResults in
  let updatedHistory := take HISTORY_LIMIT (newItem :: history c) in
  setHistory updatedHistory ;;
  storeHistory updatedHistory.

Definition promptRequiredMsg : jstr :=
  lit "Please describe how you want to restyle the website.".
Definition processingFailedMsg : jstr :=
  lit "An error occurred during processing.".
Definition generatingMsg (model : AIModel.t) : jstr :=
  lit "Generating theme with " ++ AIModel.name model ++ lit "...".
Definition validationWarningMsg (validationErrors : list jstr) : jstr :=
  lit "CSS Validation warning: " ++ default (lit "undefined") (head validationErrors)
  ++ lit " Attempting to proceed...".
Definition rewritingMsg (file : UploadedFile.t) (i total : nat) : jstr :=
  lit "Rewriting " ++ UploadedFile.name file ++ lit " ("
  ++ Number_toString (Z.of_nat (i + 1)) ++ lit "/"
  ++ Number_toString (Z.of_nat total) ++ lit ")...".
Definition validationIssuesMsg (validationErrors : list jstr) : jstr :=
  lit "Processing complete, but CSS validation found issues: "
  ++ join (lit ", ") validationErrors.

(** The [for] loop over [files], from index [i] on; [acc] is
    [processedHtmlFiles]. *)
Fixpoint rewriteLoop (total : nat) (cssContent userPrompt : jstr)
    (model : AIModel.t) (i : nat) (remaining : list UploadedFile.t)
    (acc : list ProcessedFile.t) : M (list ProcessedFile.t) :=
  match remaining with
  | [] => mret acc
  | file :: remaining' =>
      setStatusMessage (rewritingMsg file i total) ;;
      newHtml ← rewriteHtmlFile file cssContent userPrompt model;
      rewriteLoop total cssContent userPrompt model (S i) remaining'
        (acc ++ [ProcessedFile.mk (UploadedFile.name file) newHtml html])
  end.

Definition processFiles (uuid : jstr) (now : Z) (c : AppState) : M unit :=
  if bool_decide (length (files c) = 0%nat) then mret tt
  else if bool_decide (trim (prompt c) = []) then setError (Some promptRequiredMsg)
  else
    tryCatch
      (setError None ;;
       setStatus ANALYZING ;;
       setStatus GENERATING_CSS ;;
       setStatusMessage (generatingMsg (selectedModel c)) ;;
       cssContent ← generateGlobalCss (files c) (prompt c) (selectedModel c);
       let validationErrors := validateCss cssContent in
       (if bool_decide (0 < length validationErrors)%nat
        then setStatusMessage (validationWarningMsg validationErrors)
        else mret tt) ;;
       let cssFile := ProcessedFile.mk (lit "style.css") cssContent css in
       setStatus REWRITING_HTML ;;
       processedHtmlFiles ←
         rewriteLoop (length (files c)) cssContent (prompt c) (selectedModel c)
           0%nat (files c) [];
       let finalResults := cssFile :: processedHtmlFiles in
       setResults finalResults ;;
       setStatus COMPLETED ;;
       if bool_decide (0 < length validationErrors)%nat
       then setError (Some (validationIssuesMsg validationErrors))
       else saveToHistory uuid now finalResults (prompt c) c)
      (λ message,
         console_error ;;
         setError (Some (if bool_decide (message = []) then processingFailedMsg
                         else message)) ;;
         setStatus ERROR).

(** *** What a run asks of the gateway

    A run started from the render of [s] with no request made before:
    request 0 is the stylesheet, request [1 + k] the rewrite of
    [files[k]] against that stylesheet. *)

Definition cssCall (s : AppState) : Completion jstr :=
  transport 0%nat (selectedModel s) (CssRequest (files s) (prompt s)).

Definition rewriteCall (s : AppState) (cssContent : jstr) (k : nat)
    (file : UploadedFile.t) : Completion jstr :=
  transport (1 + k)%nat (selectedModel s) (HtmlRequest file cssContent (prompt s)).

(** Every request of the run is answered: [raw] for the stylesheet,
    [rawHtml k] for the [k]-th file. *)
Definition allGatewayCallsSucceed (s : AppState) (raw : jstr)
    (rawHtml : nat → jstr) : Prop :=
  cssCall s = Normal raw
  ∧ ∀ k file, files s !! k = Some file →
      rewriteCall s (cleanCodeResponse raw) k file = Normal (rawHtml k).

(** The stylesheet request fails, or it is answered and the rewrite of
    some file fails. *)
Definition someGatewayCallFails (s : AppState) : Prop :=
  (∃ e, cssCall s = Throw e)
  ∨ (∃ raw k file e,
       cssCall s = Normal raw ∧ files s !! k = Some file
       ∧ rewriteCall s (cleanCodeResponse raw) k file = Throw e).

(** The first request that fails, with the message its service function
    throws. *)
Inductive firstGatewayFailure (s : AppState) : jstr → Prop :=
| css_call_fails e :
    cssCall s = Throw e →
    firstGatewayFailure s (cssFailureMsg (selectedModel s))
| rewrite_call_fails raw k file e :
    cssCall s = Normal raw →
    files s !! k = Some file →
    (∀ j g, (j < k)%nat → files s !! j = Some g →
       ∃ r, rewriteCall s (cleanCodeResponse raw) j g = Normal r) →
    rewriteCall s (cleanCodeResponse raw) k file = Throw e →
    firstGatewayFailure s (htmlFailureMsg file).

End Gateway.

(** The artifact sequence of a run: the stylesheet, then one rewritten
    document per input file, in the order of the input files. *)
Definition stylesheetArtifact (raw : jstr) : ProcessedFile.t :=
  ProcessedFile.mk (lit "style.css") (cleanCodeResponse raw) css.

Definition rewrittenArtifact (rawHtml : nat → jstr) (k : nat)
    (file : UploadedFile.t) : ProcessedFile.t :=
  ProcessedFile.mk (UploadedFile.name file) (cleanCodeResponse (rawHtml k)) html.

Definition runArtifacts (s : AppState) (raw : jstr) (rawHtml : nat → jstr)
  : list ProcessedFile.t :=
  stylesheetArtifact raw :: imap (rewrittenArtifact rawHtml) (files s).

(** The live state differs from [a] in the status message at most. *)
Definition sameButMessage (a a' : AppState) : Prop :=
  ∃ msg, a' = withStatusMessage msg a.

(** Effects that write the persisted store. *)
Definition isStorageWrite (e : Effect) : bool :=
  match e with EStorage _ => true | _ => false end.

(** ** Sequences of handler invocations *)

(** One record to append: the fresh id, the time, the artifacts and the
    prompt handed to [saveToHistory]. *)
Definition RunArgs : Type := jstr * Z * list ProcessedFile.t * jstr.

Definition recordOf (r : RunArgs) : HistoryItem.t :=
  let '(uuid, now, newResults, userPrompt) := r in
  HistoryItem.mk uuid now userPrompt newResults.

Definition appendRun (s : AppState) (r : RunArgs) : AppState :=
  let '(uuid, now, newResults, userPrompt) := r in
  invoke (saveToHistory uuid now newResults userPrompt) s.

(** Editing sessions in which no debounced commit is overtaken: a
    commit is issued from the current render, directly or by one of the
    committing handlers, and the debounce callback of a prompt edit fires
    before anything else happens. Undo, redo and the end of a replay
    window are steps too. A callback that fires later, with the cursor
    it captured, is a step of [uiStep] below and not of this relation. *)
Inductive editStep : AppState → AppState → Prop :=
| step_commit newFiles newPrompt s :
    editStep s (invoke (commitSnapshot newFiles newPrompt) s)
| step_files newFiles s :
    editStep s (invoke (handleFilesSelected newFiles) s)
| step_remove id s :
    editStep s (invoke (handleRemoveFile id) s)
| step_template template s :
    editStep s (invoke (handleSelectTemplate template) s)
| step_prompt newPrompt s :
    editStep s (invoke debounceTimerFires (invoke (handlePromptChange newPrompt) s))
| step_undo s : editStep s (invoke handleUndo s)
| step_redo s : editStep s (invoke handleRedo s)
| step_replay_over s : editStep s (invoke replayTimerFires s).

Inductive Reachable : AppState → Prop :=
| reach_mount store : Reachable (initialState store)
| reach_step s s' : Reachable s → editStep s s' → Reachable s'.

(** The cursor is a valid index and no debounce callback is pending. *)
Definition cursorValid (s : AppState) : Prop :=
  (historyIndex s < length (inputHistory s))%nat ∧ debounceTimer s = None.

(** ** Sample inputs *)

Definition store0 : Storage.t := Storage.holding Storage.Absent Storage.Absent.
Definition file0 : UploadedFile.t :=
  UploadedFile.mk (lit "f-1") (lit "index.html") (lit "<p>hi</p>").
Definition file1 : UploadedFile.t :=
  UploadedFile.mk (lit "f-2") (lit "about.html") (lit "<p>us</p>").
Definition template0 : StyleTemplate.t :=
  StyleTemplate.mk (lit "t3") (lit "Neon Cyberpunk") (lit "neon pink on black")
    256 false None.

(** Two files and a prompt, entered through the handlers. *)
Definition twoFiles : AppState :=
  invoke (handleSelectTemplate template0)
    (invoke (handleFilesSelected [file0; file1]) (initialState store0)).

(** The same, in a browser that refuses every write to storage. *)
Definition storeNoQuota : Storage.t :=
  Storage.mk Storage.Absent Storage.Absent (λ _, Some (lit "QuotaExceededError")) 0.
Definition twoFilesNoQuota : AppState :=
  invoke (handleSelectTemplate template0)
    (invoke (handleFilesSelected [file0; file1]) (initialState storeNoQuota)).

(** No file, but a prompt. *)
Definition noFiles : AppState :=
  invoke (handleSelectTemplate template0) (initialState store0).

(** Files, but a prompt of white space only. *)
Definition blankPrompt : AppState :=
  invoke (handlePromptChange (lit "   "))
    (invoke (handleFilesSelected [file0]) (initialState store0)).

(** Gateways: one answering every request, with a balanced stylesheet;
    one whose stylesheet misses a closing brace; one failing the third
    request (the rewrite of the second file). *)
Definition answerHtml (n : nat) : jstr := lit "<p>" ++ Number_toString (Z.of_nat n).
Definition rawHtmlSample (k : nat) : jstr := answerHtml (1 + k).
Definition transportOk (n : nat) (_ : AIModel.t) (req : Request) : Completion jstr :=
  match req with
  | CssRequest _ _ => Normal (lit "a{b}")
  | HtmlRequest _ _ _ => Normal (answerHtml n)
  end.
Definition transportWarn (n : nat) (_ : AIModel.t) (req : Request) : Completion jstr :=
  match req with
  | CssRequest _ _ => Normal (lit "a{b{c}")
  | HtmlRequest _ _ _ => Normal (answerHtml n)
  end.
Definition transportFailThird (n : nat) (m : AIModel.t) (req : Request)
  : Completion jstr :=
  if bool_decide (n = 2%nat) then Throw (lit "503") else transportOk n m req.

(** A store that already holds 20 runs, loaded at mount; one file and a
    prompt on top. *)
Definition runs20 : list RunArgs :=
  (λ n, (lit "run-" ++ Number_toString (Z.of_nat n), Z.of_nat n, [], lit "dark"))
    <$> seq 0 20.
Definition store20 : Storage.t :=
  Storage.holding (Storage.Holds (recordOf <$> runs20)) Storage.Absent.
Definition fullStore : AppState :=
  invoke (handleSelectTemplate template0)
    (invoke (handleFilesSelected [file0])
       (initialState store20)).

Definition runs25 : list RunArgs :=
  (λ n, (lit "run", Z.of_nat n, [], lit "dark")) <$> seq 0 25.

(** ** Counting braces *)

(** How often the code unit [c] occurs in [s]. *)
Definition occurrences (c : N) (s : jstr) : nat := length (filter (λ x, x = c) s).

(** Opening braces minus closing braces. *)
Definition braceBalance (s : jstr) : Z :=
  Z.of_nat (occurrences 123 s) - Z.of_nat (occurrences 125 s).

(** ** App.tsx: the remaining handlers *)

Definition likeToggled (id : jstr) (t : StyleTemplate.t) : StyleTemplate.t :=
  if bool_decide (StyleTemplate.id t = id)
  then StyleTemplate.mk (StyleTemplate.id t) (StyleTemplate.name t)
         (StyleTemplate.prompt t)
         (if StyleTemplate.isLiked t then Number_sub (StyleTemplate.likes t) 1
          else Number_add (StyleTemplate.likes t) 1)
         (negb (StyleTemplate.isLiked t)) (StyleTemplate.isCustom t)
  else t.

Definition handleLikeTemplate (id : jstr) (c : AppState) : M unit :=
  let newTemplates := likeToggled id <$> templates c in
  updateTemplates newTemplates.

(** [uuid] is what [crypto.randomUUID()] returns. *)
Definition handleSaveCurrentAsTemplate (uuid name : jstr) (c : AppState) : M unit :=
  let newTemplate := StyleTemplate.mk uuid name (prompt c) 0 false (Some true) in
  updateTemplates (templates c ++ [newTemplate]).

Definition loadHistoryItem (item : HistoryItem.t) (_ : AppState) : M unit :=
  setResults (HistoryItem.results item) ;;
  setPrompt (HistoryItem.prompt item) ;;
  setFiles [] ;;
  setStatus COMPLETED ;;
  modify (withShowHistory false) ;;
  modify (withInputHistory [Snapshot.mk [] (HistoryItem.prompt item)]) ;;
  setHistoryIndex 0%nat.

Definition deleteHistoryItem (id : jstr) (c : AppState) : M unit :=
  let updatedHistory := filter (λ item, HistoryItem.id item ≠ id) (history c) in
  setHistory updatedHistory ;;
  storeHistory updatedHistory.

Definition reset (_ : AppState) : M unit :=
  setFiles [] ;;
  setPrompt [] ;;
  setResults [] ;;
  setStatus IDLE ;;
  setError None ;;
  modify (withInputHistory [Snapshot.mk [] []]) ;;
  setHistoryIndex 0%nat.

(** The model list after [fetchLocalModels]: local models whose id is not
    yet listed are appended. *)
Definition mergeLocalModels (prev localModels : list AIModel.t) : list AIModel.t :=
  if bool_decide (0 < length localModels)%nat then
    let newModels :=
      filter (λ m, AIModel.id m ∉ (AIModel.id <$> prev)) localModels in
    prev ++ newModels
  else prev.

(** ** geminiService.ts: [getOllamaModels]

    What [fetch] of the tags endpoint gives: a rejection, or a response
    with its [ok] flag and, when the body parses to an object with a
    [models] array, the names in it. *)
Inductive TagsResponse :=
| FetchRejected
| FetchResolved (ok : bool) (modelNames : option (list jstr)).

Definition getOllamaModels (response : TagsResponse) : list AIModel.t :=
  match response with
  | FetchRejected => []
  | FetchResolved false _ => []
  | FetchResolved true None => []
  | FetchResolved true (Some names) => (λ name, AIModel.mk name name ollama) <$> names
  end.

(** ** FileUploader.tsx *)

(** A browser [File]: its name, MIME type and text. *)
Module File.
Record t := mk { name : jstr; type : jstr; text : jstr }.
End File.

Definition endsWith (suffix s : jstr) : bool :=
  match stripSuffix suffix s with Some _ => true | None => false end.

Definition isAcceptedFile (file : File.t) : bool :=
  bool_decide (File.type file = lit "text/html")
  || endsWith (lit ".html") (File.name file)
  || endsWith (lit ".htm") (File.name file)
  || bool_decide (File.type file = lit "text/plain").

(** [l.slice(0, end)], with a negative [end] counted from the end. *)
Definition sliceTo {A} (end_ : Z) (l : list A) : list A :=
  if end_ <? 0 then take (Z.to_nat (Z.of_nat (length l) + end_)) l
  else take (Z.to_nat end_) l.

(** The loop over [filesToProcess]; [uuids k] is the [k]-th id drawn by
    [crypto.randomUUID()], [file.text()] is taken to resolve. *)
Fixpoint readAccepted (uuids : nat → jstr) (k : nat) (filesToProcess : list File.t)
  : list UploadedFile.t :=
  match filesToProcess with
  | [] => []
  | file :: rest =>
      if isAcceptedFile file
      then UploadedFile.mk (uuids k) (File.name file) (File.text file)
           :: readAccepted uuids (S k) rest
      else readAccepted uuids k rest
  end.

(** The uploader's [processFiles], rendered with the [files] and the
    [handleFilesSelected] of [c]. *)
Definition uploaderProcessFiles (maxFiles : nat) (uuids : nat → jstr)
    (fileList : list File.t) (c : AppState) : M unit :=
  let remainingSlots := Z.of_nat maxFiles - Z.of_nat (length (files c)) in
  let filesToProcess := sliceTo remainingSlots fileList in
  let newFiles := readAccepted uuids 0 filesToProcess in
  if bool_decide (0 < length newFiles)%nat then handleFilesSelected newFiles c
  else mret tt.

Definition handleDrop (maxFiles : nat) (uuids : nat → jstr)
    (dropped : list File.t) (c : AppState) : M unit :=
  if bool_decide (maxFiles ≤ length (files c))%nat then mret tt
  else if bool_decide (0 < length dropped)%nat
       then uploaderProcessFiles maxFiles uuids dropped c
       else mret tt.

Definition DEFAULT_MAX_FILES : nat := 4.

(** ** What a run leaves alone *)

(** The input side of the state: everything [processFiles] only reads. *)
Definition sameInputs (a a' : AppState) : Prop :=
  selectedModel a' = selectedModel a ∧ files a' = files a ∧ prompt a' = prompt a
  ∧ templates a' = templates a ∧ inputHistory a' = inputHistory a
  ∧ historyIndex a' = historyIndex a ∧ isUndoing a' = isUndoing a
  ∧ debounceTimer a' = debounceTimer a.

(** [fetchLocalModels]: the model list after the mount effect has asked
    Ollama for its models. *)
Definition fetchLocalModels (prev : list AIModel.t) (response : TagsResponse)
  : list AIModel.t :=
  mergeLocalModels prev (getOllamaModels response).

(** ** Everything the user and the timers can do

    One step per handler the interface can call, each taken as a whole
    (an upload or a run is not interleaved with other handlers). The
    debounce and replay callbacks are steps of their own, so they may
    fire at any later point. *)
Inductive uiStep : AppState → AppState → Prop :=
| ui_upload uuids fileList s :
    uiStep s (invoke (uploaderProcessFiles DEFAULT_MAX_FILES uuids fileList) s)
| ui_drop uuids dropped s :
    uiStep s (invoke (handleDrop DEFAULT_MAX_FILES uuids dropped) s)
| ui_remove id s : uiStep s (invoke (handleRemoveFile id) s)
| ui_prompt newPrompt s : uiStep s (invoke (handlePromptChange newPrompt) s)
| ui_debounce s : uiStep s (invoke debounceTimerFires s)
| ui_undo s : uiStep s (invoke handleUndo s)
| ui_redo s : uiStep s (invoke handleRedo s)
| ui_replay_over s : uiStep s (invoke replayTimerFires s)
| ui_select template s : uiStep s (invoke (handleSelectTemplate template) s)
| ui_like id s : uiStep s (invoke (handleLikeTemplate id) s)
| ui_delete_template id s : uiStep s (invoke (handleDeleteTemplate id) s)
| ui_rename_template id newName s :
    uiStep s (invoke (handleRenameTemplate id newName) s)
| ui_save_template uuid name s :
    uiStep s (invoke (handleSaveCurrentAsTemplate uuid name) s)
| ui_generate transport uuid now s :
    uiStep s (invoke (processFiles transport uuid now) s)
| ui_load item s : item ∈ history s → uiStep s (invoke (loadHistoryItem item) s)
| ui_delete_run id s : uiStep s (invoke (deleteHistoryItem id) s)
| ui_reset s : uiStep s (invoke reset s).

Inductive uiReachable (store : Storage.t) : AppState → Prop :=
| ui_mount : uiReachable store (initialState store)
| ui_step s s' : uiReachable store s → uiStep s s' → uiReachable store s'.

(** No more than [DEFAULT_MAX_FILES] files on screen, in any snapshot,
    or captured by the pending debounce callback. *)
Definition withinFileLimit (s : AppState) : Prop :=
  (length (files s) ≤ DEFAULT_MAX_FILES)%nat
  ∧ Forall (λ snap, (length (Snapshot.files snap) ≤ DEFAULT_MAX_FILES)%nat)
      (inputHistory s)
  ∧ ∀ i fs p, debounceTimer s = Some (i, fs, p) →
      (length fs ≤ DEFAULT_MAX_FILES)%nat.

(** What is shown is what the store holds, the initial value where a
    key holds none. *)
Definition persistedInSync (s : AppState) : Prop :=
  templates s
  = Storage.valueOr DEFAULT_TEMPLATES (Storage.stylemorph_templates (localStorage s))
  ∧ history s = Storage.valueOr [] (Storage.stylemorph_history (localStorage s)).

(** The saved run history parses and the browser accepts every write. *)
Definition storeSound (store : Storage.t) : Prop :=
  Storage.stylemorph_history store ≠ Storage.Unparsable
  ∧ ∀ k, Storage.setItemError store k = None.

(** ** TemplateGallery.tsx: the gallery's state and handlers

    The gallery keeps what is being renamed and the form for a new
    template; the handlers of [App] reach it as props. A gallery handler
    is given by the prop it calls, if any, and the gallery state it sets
    after the call: when the call throws, what follows it in the handler
    does not run. The search text only narrows which cards of the catalog
    are drawn, so a click on a card is a click on some template of the
    catalog. *)

Record Gallery := mkGallery {
  editingId : option jstr;
  editName : jstr;
  isCreating : bool;
  newTemplateName : jstr }.

Definition galleryMounted : Gallery := mkGallery None [] false [].

Inductive PropCall :=
| OnSelectTemplate (template : StyleTemplate.t)
| OnLikeTemplate (id : jstr)
| OnDeleteTemplate (id : jstr)
| OnRenameTemplate (id newName : jstr)
| OnSaveCurrentAsTemplate (name : jstr).

(** The handlers [App] passes for these props; [uuid] is what
    [crypto.randomUUID()] returns when it is called. *)
Definition propHandler (uuid : jstr) (call : PropCall) : AppState → M unit :=
  match call with
  | OnSelectTemplate template => handleSelectTemplate template
  | OnLikeTemplate id => handleLikeTemplate id
  | OnDeleteTemplate id => handleDeleteTemplate id
  | OnRenameTemplate id newName => handleRenameTemplate id newName
  | OnSaveCurrentAsTemplate name => handleSaveCurrentAsTemplate uuid name
  end.

Definition startEditing (template : StyleTemplate.t) (g : Gallery) : Gallery :=
  mkGallery (Some (StyleTemplate.id template)) (StyleTemplate.name template)
    (isCreating g) (newTemplateName g).

Definition setEditName (text : jstr) (g : Gallery) : Gallery :=
  mkGallery (editingId g) text (isCreating g) (newTemplateName g).

Definition cancelEdit (g : Gallery) : Gallery :=
  mkGallery None (editName g) (isCreating g) (newTemplateName g).

(** [if (editingId && editName.trim())]: the empty id is falsy too. *)
Definition saveEdit (g : Gallery) : option PropCall * Gallery :=
  match editingId g with
  | Some id =>
      if bool_decide (id ≠ []) && bool_decide (trim (editName g) ≠ [])
      then (Some (OnRenameTemplate id (editName g)), cancelEdit g)
      else (None, g)
  | None => (None, g)
  end.

Definition setIsCreating (b : bool) (g : Gallery) : Gallery :=
  mkGallery (editingId g) (editName g) b (newTemplateName g).

Definition setNewTemplateName (text : jstr) (g : Gallery) : Gallery :=
  mkGallery (editingId g) (editName g) (isCreating g) text.

Definition handleSaveNew (g : Gallery) : option PropCall * Gallery :=
  if bool_decide (trim (newTemplateName g) ≠ [])
  then (Some (OnSaveCurrentAsTemplate (newTemplateName g)),
        setIsCreating false (setNewTemplateName [] g))
  else (None, g).

(** What a control of the card of [template] does when used; [text] is
    what is typed into the name input. *)
Definition cardHandler (ctl : Control) (template : StyleTemplate.t) (text : jstr)
    (g : Gallery) : option PropCall * Gallery :=
  match ctl with
  | SelectCard => (Some (OnSelectTemplate template), g)
  | LikeButton => (Some (OnLikeTemplate (StyleTemplate.id template)), g)
  | EditButton => (None, startEditing template g)
  | DeleteButton => (Some (OnDeleteTemplate (StyleTemplate.id template)), g)
  | EditNameInput => (None, setEditName text g)
  | SaveEditButton => saveEdit g
  | CancelEditButton => (None, cancelEdit g)
  end.

(** A gallery handler runs: the prop is called on the app, and the new
    gallery state is set if the call returns. *)
Definition perform (uuid : jstr) (handler : option PropCall * Gallery)
    (s : AppState) (g : Gallery) : AppState * Gallery :=
  match handler.1 with
  | None => (s, handler.2)
  | Some call =>
      let r := run (propHandler uuid call) s in
      (app r.2, match r.1 with Normal _ => handler.2 | Throw _ => g end)
  end.

(** One step of the app with its gallery: a control of a drawn card, the
    Save Current button (enabled while the prompt is not blank), the
    form for the new template (its id is a fresh UUID), anything outside
    the gallery, which leaves the catalog alone, or the gallery being
    mounted afresh ([App] draws it only while the status is [IDLE] or
    [ERROR]). *)
Inductive galleryStep : AppState * Gallery → AppState * Gallery → Prop :=
| g_card ctl template text uuid s g :
    template ∈ templates s →
    ctl ∈ cardControls (editingId g) template →
    galleryStep (s, g) (perform uuid (cardHandler ctl template text g) s g)
| g_save_current s g :
    isCreating g = false → trim (prompt s) ≠ [] →
    galleryStep (s, g) (s, setIsCreating true g)
| g_type_new_name text s g :
    isCreating g = true →
    galleryStep (s, g) (s, setNewTemplateName text g)
| g_submit_new uuid s g :
    isCreating g = true →
    (uuid ∉ (StyleTemplate.id <$> templates s)) →
    galleryStep (s, g) (perform uuid (handleSaveNew g) s g)
| g_cancel_new s g :
    isCreating g = true →
    galleryStep (s, g) (s, setIsCreating false g)
| g_elsewhere s s' g :
    templates s' = templates s →
    galleryStep (s, g) (s', g)
| g_remount s g :
    galleryStep (s, g) (s, galleryMounted).

Inductive galleryReachable (store : Storage.t) : AppState * Gallery → Prop :=
| g_mount : galleryReachable store (initialState store, galleryMounted)
| g_step sg sg' :
    galleryReachable store sg → galleryStep sg sg' → galleryReachable store sg'.

(** The id a call renames or deletes by. *)
Definition editedId (call : PropCall) : option jstr :=
  match call with
  | OnDeleteTemplate id => Some id
  | OnRenameTemplate id _ => Some id
  | _ => None
  end.

(** The id of each template with whether it is user-authored. *)
Definition kinds (catalog : list StyleTemplate.t) : list (jstr * bool) :=
  (λ t, (StyleTemplate.id t, truthy (StyleTemplate.isCustom t))) <$> catalog.

(** No id belongs to a built-in and to a user-authored template. *)
Definition idsKeepKinds (catalog : list StyleTemplate.t) : Prop :=
  ∀ id, (id, false) ∈ kinds catalog → (id, true) ∉ kinds catalog.

(** The built-in templates of a catalog, in order, without their like
    state. *)
Definition builtinCards (catalog : list StyleTemplate.t) : list (jstr * jstr * jstr) :=
  (λ t, (StyleTemplate.id t, StyleTemplate.name t, StyleTemplate.prompt t))
    <$> filter (λ t, truthy (StyleTemplate.isCustom t) = false) catalog.

(** What the gallery keeps true: no id is shared between the two kinds
    of template, and the id being edited is not the id of a built-in
    template. *)
Definition galleryInvariant (sg : AppState * Gallery) : Prop :=
  idsKeepKinds (templates sg.1)
  ∧ ∀ id, editingId sg.2 = Some id → (id, false) ∉ kinds (templates sg.1).

(** A session with the gallery: a template is picked, its prompt is
    saved as the template "Mine", and that one is renamed to "Ours". *)
Definition neon : StyleTemplate.t :=
  StyleTemplate.mk (lit "t3") (lit "Neon Cyberpunk")
    (lit "Futuristic cyberpunk aesthetic with neon pink and cyan text, black background, and glitch effects on hover.")
    256 false None.
Definition mine : StyleTemplate.t :=
  StyleTemplate.mk (lit "u-1") (lit "Mine") (StyleTemplate.prompt neon)
    0 false (Some true).
Definition sessionPicked : AppState * Gallery :=
  perform [] (cardHandler SelectCard neon [] galleryMounted)
    (initialState store0) galleryMounted.
Definition sessionNaming : AppState * Gallery :=
  (sessionPicked.1, setNewTemplateName (lit "Mine") (setIsCreating true sessionPicked.2)).
Definition sessionSaved : AppState * Gallery :=
  perform (lit "u-1") (handleSaveNew sessionNaming.2) sessionNaming.1 sessionNaming.2.
Definition sessionEditing : AppState * Gallery :=
  (sessionSaved.1, setEditName (lit "Ours") (startEditing mine sessionSaved.2)).
Definition sessionRenamed : AppState * Gallery :=
  perform [] (cardHandler SaveEditButton mine [] sessionEditing.2)
    sessionEditing.1 sessionEditing.2.

(** A stored catalog in which the user-authored "Mine" has the id of the
    built-in [t1]. *)
Definition storeSharedId : Storage.t :=
  Storage.holding Storage.Absent
    (Storage.Holds
       (DEFAULT_TEMPLATES
        ++ [StyleTemplate.mk (lit "t1") (lit "Mine") [] 0 false (Some true)])).

(** ** ResultViewer.tsx: the preview document *)

#[local] Instance FileType_eq_dec : EqDecision FileType.
Proof. solve_decision. Defined.

(** [s.indexOf(needle)], counting from [pos]. *)
Fixpoint indexOfFrom (needle s : jstr) (pos : nat) : option nat :=
  match stripPrefix needle s with
  | Some _ => Some pos
  | None =>
      match s with
      | [] => None
      | _ :: s' => indexOfFrom needle s' (S pos)
      end
  end.

Definition indexOf (needle s : jstr) : option nat := indexOfFrom needle s 0.

(** The replacement text of [replace] with a string pattern: [$$], [$&],
    [$`] and [$'] are expanded; there are no groups, so every other [$]
    stays as it is. *)
Fixpoint getSubstitution (matched before after replacement : jstr) : jstr :=
  match replacement with
  | 36%N :: rest =>
      match rest with
      | 36%N :: rest' => 36%N :: getSubstitution matched before after rest'
      | 38%N :: rest' => matched ++ getSubstitution matched before after rest'
      | 96%N :: rest' => before ++ getSubstitution matched before after rest'
      | 39%N :: rest' => after ++ getSubstitution matched before after rest'
      | _ => 36%N :: getSubstitution matched before after rest
      end
  | c :: rest => c :: getSubstitution matched before after rest
  | [] => []
  end.

(** [s.replace(pattern, replacement)] with a string pattern: the first
    occurrence only. *)
Definition replaceFirst (pattern replacement s : jstr) : jstr :=
  match indexOf pattern s with
  | None => s
  | Some n =>
      let before := take n s in
      let after := drop (n + length pattern) s in
      before ++ getSubstitution pattern before after replacement ++ after
  end.

Definition styleBlockOf (cssFile : ProcessedFile.t) : jstr :=
  lit "<style>
" ++ ProcessedFile.content cssFile ++ lit "
</style>".

(** The [useMemo] body, with [activeFile = results[activeTab]] and
    [cssFile = results.find(f => f.type === 'css')]; reading [.type] of a
    missing active file throws. *)
Definition previewContent (results : list ProcessedFile.t) (activeTab : nat)
  : Completion jstr :=
  match results !! activeTab with
  | None => Throw TypeError
  | Some activeFile =>
      match head (filter (λ f, ProcessedFile.type f = css) results) with
      | None => Normal []
      | Some cssFile =>
          if bool_decide (ProcessedFile.type activeFile ≠ html) then Normal []
          else
            let styleBlock := styleBlockOf cssFile in
            match indexOf (lit "</head>") (ProcessedFile.content activeFile) with
            | Some _ =>
                Normal (replaceFirst (lit "</head>") (styleBlock ++ lit "</head>")
                          (ProcessedFile.content activeFile))
            | None => Normal (ProcessedFile.content activeFile ++ styleBlock)
            end
      end
  end.

(** * Properties *)

(** ** The validator *)

Lemma validateStep_depth_nonneg st c : 0 ≤ st.1 → 0 ≤ (validateStep st c).1.
Proof.
  intros Hst. unfold validateStep.
  destruct (c =? 123)%N, (c =? 125)%N; simpl;
    match goal with |- context [?d <? 0] => destruct (Z.ltb_spec d 0) end;
    simpl; lia.
Qed.

(** The counter never stays negative: every dip is reported and reset. *)
Lemma validateScan_depth_nonneg css : 0 ≤ (validateScan css).1.
Proof.
  unfold validateScan.
  cut (∀ st, 0 ≤ st.1 → 0 ≤ (foldl validateStep st css).1).
  { intros H. apply H. simpl. lia. }
  induction css as [|c css IH]; intros st Hst; simpl; [done|].
  apply IH, validateStep_depth_nonneg, Hst.
Qed.

(** The three moves of the counter: an opening brace raises it, a closing
    brace lowers it when something is open, and a closing brace with
    nothing open is reported and leaves it at 0. *)
Lemma validateStep_open (depth : nat) errors :
  validateStep (Z.of_nat depth, errors) 123 = (Z.of_nat depth + 1, errors).
Proof.
  unfold validateStep. simpl.
  destruct (Z.ltb_spec (Z.of_nat depth + 1) 0); [lia|done].
Qed.

Lemma validateStep_close_matched (depth : nat) errors :
  validateStep (Z.of_nat (S depth), errors) 125 = (Z.of_nat depth, errors).
Proof.
  unfold validateStep. cbn [fst snd N.eqb Pos.eqb].
  destruct (Z.ltb_spec (Z.of_nat (S depth) - 1) 0); [lia|].
  f_equal. lia.
Qed.

Lemma validateStep_close_unmatched errors :
  validateStep (0, errors) 125 = (0, errors ++ [extraBraceMsg]).
Proof. reflexivity. Qed.

(** The findings, in order: the unmatched closing braces met by the scan,
    then the missing closing braces, then the empty-output finding. *)
Lemma validateCss_findings css :
  validateCss css
  = (validateScan css).2
    ++ (if 0 <? (validateScan css).1
        then [missingBraceMsg (validateScan css).1] else [])
    ++ (if bool_decide (css = []) || (length (trim css) =? 0)%nat
        then [emptyCssMsg] else []).
Proof.
  unfold validateCss. destruct (validateScan css) as [openBraces errors].
  cbn [fst snd].
  destruct (0 <? openBraces);
    destruct (bool_decide (css = []) || (length (trim css) =? 0)%nat);
    by rewrite ?app_nil_r, <- ?app_assoc.
Qed.


(** ** Running a computation *)

Lemma setStatus_run v w :
  setStatus v w
  = (Normal tt, mkWorld (withStatus v (app w)) (trace w ++ [EStatus v]) (calls w)).
Proof. reflexivity. Qed.

Lemma modify_run f w :
  modify f w = (Normal tt, mkWorld (f (app w)) (trace w) (calls w)).
Proof. reflexivity. Qed.

Lemma ret_run {A} (a : A) (w : World) : (mret a : M A) w = (Normal a, w).
Proof. reflexivity. Qed.

Lemma console_error_run w :
  console_error w
  = (Normal tt, mkWorld (app w) (trace w ++ [EConsoleError]) (calls w)).
Proof. reflexivity. Qed.

Lemma bind_run {A B} (m : M A) (f : A → M B) (w : World) :
  (m ≫= f) w
  = match m w with
    | (Normal a, w') => f a w'
    | (Throw e, w') => (Throw e, w')
    end.
Proof. reflexivity. Qed.

(** One step of a computation: split the first bind and run a setter. *)
Ltac step :=
  rewrite bind_run;
  unfold setError, setStatusMessage, setResults, setHistory;
  rewrite ?setStatus_run, ?modify_run, ?console_error_run, ?ret_run;
  cbv beta iota; cbn [app trace calls].

(** ** The run history *)

Lemma take_app_take {A} (n : nat) (l k : list A) :
  take n (l ++ take n k) = take n (l ++ k).
Proof.
  rewrite !take_app, take_take. f_equal. f_equal. lia.
Qed.

(** [saveToHistory] sets the log before it calls [setItem], so the log
    on screen changes whether or not the write is accepted. *)
Lemma saveToHistory_run uuid now newResults userPrompt c w :
  saveToHistory uuid now newResults userPrompt c w
  = let updatedHistory :=
      take HISTORY_LIMIT (HistoryItem.mk uuid now userPrompt newResults :: history c) in
    match Storage.nextError (localStorage (app w)) with
    | Some message =>
        (Throw message,
         mkWorld (withLocalStorage (Storage.refused (localStorage (app w)))
                    (withHistory updatedHistory (app w)))
           (trace w) (calls w))
    | None =>
        (Normal tt,
         mkWorld (withLocalStorage
                    (Storage.putHistory updatedHistory (localStorage (app w)))
                    (withHistory updatedHistory (app w)))
           (trace w ++ [EStorage (Storage.putHistory updatedHistory
                                    (localStorage (app w)))])
           (calls w))
    end.
Proof.
  unfold saveToHistory, storeHistory, setItem, setHistory, modify, gets, emit, throw.
  cbv beta iota delta [mbind M_bind mret M_ret].
  cbn [app trace calls fst snd localStorage withHistory].
  destruct (Storage.nextError (localStorage (app w))); reflexivity.
Qed.

Lemma invoke_saveToHistory s uuid now newResults userPrompt :
  let updatedHistory :=
    take HISTORY_LIMIT (HistoryItem.mk uuid now userPrompt newResults :: history s) in
  invoke (saveToHistory uuid now newResults userPrompt) s
  = withLocalStorage
      (match Storage.nextError (localStorage s) with
       | Some _ => Storage.refused (localStorage s)
       | None => Storage.putHistory updatedHistory (localStorage s)
       end)
      (withHistory updatedHistory s).
Proof.
  unfold invoke, run, exec. rewrite saveToHistory_run. cbn [app].
  destruct (Storage.nextError (localStorage s)); reflexivity.
Qed.

Lemma appendRun_history s r :
  history (appendRun s r) = take HISTORY_LIMIT (recordOf r :: history s).
Proof.
  destruct r as [[[uuid now] newResults] userPrompt].
  unfold appendRun. rewrite invoke_saveToHistory. reflexivity.
Qed.

Lemma appendRun_calls s r :
  Storage.setItemCalls (localStorage (appendRun s r))
  = S (Storage.setItemCalls (localStorage s))
  ∧ Storage.setItemError (localStorage (appendRun s r))
    = Storage.setItemError (localStorage s).
Proof.
  destruct r as [[[uuid now] newResults] userPrompt].
  unfold appendRun. rewrite invoke_saveToHistory.
  destruct (Storage.nextError (localStorage s)); done.
Qed.

Lemma appendRun_stored s r :
  Storage.nextError (localStorage s) = None →
  Storage.stylemorph_history (localStorage (appendRun s r))
  = Storage.Holds (history (appendRun s r)).
Proof.
  intros Hok. destruct r as [[[uuid now] newResults] userPrompt].
  unfold appendRun. rewrite invoke_saveToHistory, Hok. reflexivity.
Qed.

Lemma appendRuns_history rs : ∀ r s,
  history (foldl appendRun s (r :: rs))
  = take HISTORY_LIMIT (reverse (recordOf <$> r :: rs) ++ history s).
Proof.
  induction rs as [|r' rs IH]; intros r s.
  - simpl. apply appendRun_history.
  - change (foldl appendRun s (r :: r' :: rs))
      with (foldl appendRun (appendRun s r) (r' :: rs)).
    rewrite IH, appendRun_history.
    rewrite (fmap_cons recordOf r), (reverse_cons _ (recordOf r)), <- app_assoc.
    apply take_app_take.
Qed.

(** The persisted copy is what the last call stored, when it returned. *)
Lemma appendRuns_stored rs : ∀ r s,
  Storage.setItemError (localStorage s)
    (Storage.setItemCalls (localStorage s) + length rs)%nat = None →
  Storage.stylemorph_history (localStorage (foldl appendRun s (r :: rs)))
  = Storage.Holds (history (foldl appendRun s (r :: rs))).
Proof.
  induction rs as [|r' rs IH]; intros r s Hlast.
  - simpl. apply appendRun_stored. unfold Storage.nextError.
    by rewrite Nat.add_0_r in Hlast.
  - change (foldl appendRun s (r :: r' :: rs))
      with (foldl appendRun (appendRun s r) (r' :: rs)).
    apply IH. destruct (appendRun_calls s r) as [-> ->].
    cbn [length] in Hlast.
    by replace (S (Storage.setItemCalls (localStorage s)) + length rs)%nat
      with (Storage.setItemCalls (localStorage s) + S (length rs))%nat by lia.
Qed.

(** C6. Whatever the store held, after 25 appends it holds exactly 20
    records: the last 20 appended, newest first. The persisted copy is
    the same list when the last of the 25 [setItem] calls returned. *)
Theorem saveToHistory_25_appends (s : AppState) (rs : list RunArgs) :
  length rs = 25%nat →
  let s' := foldl appendRun s rs in
  history s' = reverse (recordOf <$> drop 5 rs)
  ∧ length (history s') = 20%nat
  ∧ (Storage.setItemError (localStorage s)
       (Storage.setItemCalls (localStorage s) + 24)%nat = None →
     Storage.stylemorph_history (localStorage s') = Storage.Holds (history s')).
Proof.
  intros Hlen s'. subst s'.
  destruct rs as [|r rs]; [discriminate|].
  rewrite appendRuns_history.
  assert (Heq : take HISTORY_LIMIT (reverse (recordOf <$> r :: rs) ++ history s)
                = reverse (recordOf <$> drop 5 (r :: rs))).
  { rewrite <- (take_drop 5 (r :: rs)) at 1.
    rewrite fmap_app, reverse_app, <- app_assoc.
    apply take_app_length'.
    rewrite length_reverse, length_fmap, length_drop, Hlen. reflexivity. }
  rewrite Heq. split; [done|]. split.
  - rewrite length_reverse, length_fmap, length_drop, Hlen. reflexivity.
  - intros Hlast. rewrite appendRuns_stored, appendRuns_history, Heq; [done|].
    injection Hlen as ->. exact Hlast.
Qed.

Lemma saveToHistory_25_appends_witness :
  let s' := foldl appendRun (initialState store0) runs25 in
  history s' = reverse (recordOf <$> drop 5 runs25)
  ∧ length (history s') = 20%nat
  ∧ (Storage.setItemError store0 (Storage.setItemCalls store0 + 24)%nat = None →
     Storage.stylemorph_history (localStorage s') = Storage.Holds (history s')).
Proof. apply (saveToHistory_25_appends (initialState store0) runs25). reflexivity. Defined.

(** ** The input undo/redo history *)

Lemma invoke_commitSnapshot s newFiles newPrompt :
  invoke (commitSnapshot newFiles newPrompt) s
  = withHistoryIndex (historyIndex s + 1)%nat
      (withInputHistory
         (take (historyIndex s + 1) (inputHistory s)
          ++ [Snapshot.mk newFiles newPrompt]) s).
Proof. reflexivity. Qed.

(** X27. A commit issued from the current render, with the cursor
    before the last index, keeps the snapshots up to the cursor, drops
    every later one, appends the new snapshot and leaves the cursor on it,
    at the last index; redo then has nothing to go to. *)
Theorem commit_discards_redo_tail (s : AppState)
    (newFiles : list UploadedFile.t) (newPrompt : jstr) :
  (historyIndex s < length (inputHistory s) - 1)%nat →
  let s' := invoke (commitSnapshot newFiles newPrompt) s in
  inputHistory s'
  = take (historyIndex s + 1) (inputHistory s) ++ [Snapshot.mk newFiles newPrompt]
  ∧ length (inputHistory s') = (historyIndex s + 2)%nat
  ∧ historyIndex s' = (length (inputHistory s') - 1)%nat
  ∧ inputHistory s' !! historyIndex s' = Some (Snapshot.mk newFiles newPrompt)
  ∧ invoke handleRedo s' = s'.
Proof.
  intros Hlt s'. subst s'. rewrite invoke_commitSnapshot.
  destruct s as [m fs p ts ih i u st sm rs e h sh dt ls]. simpl in *.
  assert (Hlen : length (take (i + 1) ih ++ [Snapshot.mk newFiles newPrompt])
                 = (i + 2)%nat).
  { rewrite length_app, length_take. simpl. lia. }
  split; [done|]. split; [done|]. split; [lia|].
  split.
  - rewrite lookup_app_r; rewrite length_take; [|lia].
    replace (i + 1 - (i + 1) `min` length ih)%nat with 0%nat by lia. done.
  - unfold invoke, run, exec, handleRedo, withHistoryIndex, withInputHistory.
    simpl. rewrite Hlen. rewrite bool_decide_eq_false_2 by lia. done.
Qed.

Lemma commit_discards_redo_tail_witness :
  let s := invoke handleUndo (invoke (handleFilesSelected [file0]) (initialState store0)) in
  let s' := invoke (commitSnapshot [] (lit "neon")) s in
  inputHistory s'
  = take (historyIndex s + 1) (inputHistory s) ++ [Snapshot.mk [] (lit "neon")]
  ∧ length (inputHistory s') = (historyIndex s + 2)%nat
  ∧ historyIndex s' = (length (inputHistory s') - 1)%nat
  ∧ inputHistory s' !! historyIndex s' = Some (Snapshot.mk [] (lit "neon"))
  ∧ invoke handleRedo s' = s'.
Proof.
  apply (commit_discards_redo_tail
           (invoke handleUndo (invoke (handleFilesSelected [file0]) (initialState store0)))).
  vm_compute. lia.
Defined.

(** C7. The debounced commit of a prompt edit runs [addToHistoryStack]
    with the [historyIndex] of the render that scheduled it. After an
    upload, a prompt edit and an undo inside the quiet period, the cursor
    is at 0 of 2 snapshots; the callback then cuts the live history at the
    index it captured, 1, so nothing is discarded, and moves the live
    cursor to 1: the cursor is not on the new last snapshot and redo still
    has a target. *)
Theorem stale_commit_keeps_redo_tail :
  let s0 := invoke (handleFilesSelected [file0]) (initialState store0) in
  let s1 := invoke (handlePromptChange (lit "a")) s0 in
  let s2 := invoke replayTimerFires (invoke handleUndo s1) in
  let s3 := invoke debounceTimerFires s2 in
  uiReachable store0 s2
  ∧ inputHistory s2 = [Snapshot.mk [] []; Snapshot.mk [file0] []]
  ∧ historyIndex s2 = 0%nat
  ∧ (historyIndex s2 < length (inputHistory s2) - 1)%nat
  ∧ inputHistory s3
    = [Snapshot.mk [] []; Snapshot.mk [file0] []; Snapshot.mk [file0] (lit "a")]
  ∧ historyIndex s3 = 1%nat
  ∧ historyIndex s3 ≠ (length (inputHistory s3) - 1)%nat
  ∧ historyIndex (invoke handleRedo s3) = 2%nat.
Proof.
  split.
  - eapply ui_step; [|apply ui_replay_over].
    eapply ui_step; [|apply ui_undo].
    eapply ui_step; [|apply ui_prompt].
    eapply ui_step; [apply ui_mount|].
    apply (ui_drop (λ _, lit "f-1")
             [File.mk (lit "index.html") (lit "text/html") (lit "<p>hi</p>")]).
  - vm_compute. repeat split; (reflexivity || lia || discriminate).
Qed.

Lemma initialState_inputs store :
  files (initialState store) = [] ∧ prompt (initialState store) = []
  ∧ inputHistory (initialState store) = [Snapshot.mk [] []]
  ∧ historyIndex (initialState store) = 0%nat
  ∧ isUndoing (initialState store) = false
  ∧ debounceTimer (initialState store) = None
  ∧ localStorage (initialState store) = store.
Proof.
  destruct store as [[| |h] [| |ts] q n]; by repeat split.
Qed.

Lemma editStep_cursorValid s s' : editStep s s' → cursorValid s → cursorValid s'.
Proof.
  intros Hstep [Hlt Hdt].
  destruct s as [m fs p ts ih i u st sm rs e h sh dt ls]. simpl in *. subst dt.
  assert (Hcommit : ∀ x, (i + 1 < length (take (i + 1) ih ++ [x]))%nat).
  { intros x. rewrite length_app, length_take. simpl. lia. }
  inversion Hstep; subst; unfold cursorValid, invoke, run, exec; simpl.
  - split; [apply Hcommit|done].
  - unfold handleFilesSelected; simpl. destruct u; simpl; [done|].
    split; [apply Hcommit|done].
  - unfold handleRemoveFile; simpl. destruct u; simpl; [done|].
    split; [apply Hcommit|done].
  - unfold handleSelectTemplate; simpl. destruct u; simpl; [done|].
    split; [apply Hcommit|done].
  - unfold handlePromptChange; simpl. destruct u; simpl; [done|].
    split; [apply Hcommit|done].
  - unfold handleUndo; simpl. case_bool_decide; simpl; [|done].
    destruct (ih !! (i - 1)%nat) eqn:Hl; simpl; [|done]. split; [lia|done].
  - unfold handleRedo; simpl. case_bool_decide; simpl; [|done].
    destruct (ih !! (i + 1)%nat) eqn:Hl; simpl; [|done]. split; [lia|done].
  - done.
Qed.

Lemma Reachable_cursorValid s : Reachable s → cursorValid s.
Proof.
  induction 1 as [store|s s' _ IH Hstep].
  - destruct (initialState_inputs store) as (_ & _ & Hih & Hi & _ & Hdt & _).
    unfold cursorValid. rewrite Hih, Hi, Hdt. split; [simpl; lia|done].
  - eapply editStep_cursorValid; eauto.
Qed.

(** X28. With the cursor on a snapshot other than the first, undo moves
    it one step back and an immediate redo brings back the same snapshot
    sequence, the same cursor, and the files and prompt of the snapshot
    the cursor was on. *)
Theorem undo_then_redo_at_valid_cursor (s : AppState) :
  (historyIndex s < length (inputHistory s))%nat →
  (0 < historyIndex s)%nat →
  let s' := invoke handleRedo (invoke handleUndo s) in
  historyIndex (invoke handleUndo s) = (historyIndex s - 1)%nat
  ∧ inputHistory s' = inputHistory s
  ∧ historyIndex s' = historyIndex s
  ∧ inputHistory s !! historyIndex s = Some (Snapshot.mk (files s') (prompt s')).
Proof.
  intros Hlt Hpos.
  destruct s as [m fs p ts ih i u st sm rs e h sh dt ls]. simpl in *.
  destruct (lookup_lt_is_Some_2 ih (i - 1)%nat) as [prev Hprev]; [lia|].
  destruct (lookup_lt_is_Some_2 ih i) as [[cf cp] Hcur]; [lia|].
  unfold invoke, run, exec, handleUndo. simpl.
  rewrite bool_decide_eq_true_2 by lia. simpl. rewrite Hprev. simpl.
  unfold handleRedo. simpl.
  rewrite bool_decide_eq_true_2 by lia. simpl.
  replace (i - 1 + 1)%nat with i by lia. rewrite Hcur. simpl.
  repeat split; try done; lia.
Qed.

Lemma undo_then_redo_at_valid_cursor_witness :
  let s := invoke (handleFilesSelected [file0]) (initialState store0) in
  let s' := invoke handleRedo (invoke handleUndo s) in
  historyIndex (invoke handleUndo s) = (historyIndex s - 1)%nat
  ∧ inputHistory s' = inputHistory s
  ∧ historyIndex s' = historyIndex s
  ∧ inputHistory s !! historyIndex s = Some (Snapshot.mk (files s') (prompt s')).
Proof.
  apply (undo_then_redo_at_valid_cursor
           (invoke (handleFilesSelected [file0]) (initialState store0)));
    vm_compute; lia.
Defined.

(** C8. A debounced prompt commit that fires after another commit runs
    with the cursor it captured: it overwrites the snapshot committed in
    between and leaves the cursor one past the last snapshot. Undo is
    enabled in that state; it moves the cursor onto the last snapshot,
    and the redo that follows finds nothing after it: the cursor ends at
    1, not at 2 where it was. *)
Theorem stale_commit_breaks_undo_redo :
  let s1 := invoke (handlePromptChange (lit "a")) (initialState store0) in
  let s2 := invoke (handleSelectTemplate template0) s1 in
  let s := invoke debounceTimerFires s2 in
  let s' := invoke handleRedo (invoke handleUndo s) in
  uiReachable store0 s
  ∧ inputHistory s2
    = [Snapshot.mk [] []; Snapshot.mk [] (StyleTemplate.prompt template0)]
  ∧ historyIndex s2 = 1%nat
  ∧ inputHistory s = [Snapshot.mk [] []; Snapshot.mk [] (lit "a")]
  ∧ historyIndex s = 2%nat
  ∧ (0 < historyIndex s)%nat
  ∧ s' = invoke handleUndo s
  ∧ historyIndex s' = 1%nat
  ∧ historyIndex s' ≠ historyIndex s.
Proof.
  split.
  - eapply ui_step; [|apply ui_debounce].
    eapply ui_step; [|apply ui_select].
    eapply ui_step; [apply ui_mount|apply ui_prompt].
  - vm_compute. repeat split; (reflexivity || lia || discriminate).
Qed.

Lemma filter_absent_id (id : jstr) (fs : list UploadedFile.t) :
  id ∉ (UploadedFile.id <$> fs) →
  filter (λ f, UploadedFile.id f ≠ id) fs = fs.
Proof.
  induction fs as [|f fs IH]; intros Hnotin; [done|].
  rewrite fmap_cons, not_elem_of_cons in Hnotin. destruct Hnotin as [Hne Hrest].
  rewrite filter_cons_True by done. by rewrite IH.
Qed.

(** C10 as stated fails inside a replay window: right after an undo the
    [isUndoing] flag is set and removing an absent id commits nothing. *)
Lemma handleRemoveFile_in_replay_window :
  let s := invoke handleUndo
             (invoke (handleFilesSelected [file0]) (initialState store0)) in
  let s' := invoke (handleRemoveFile (lit "absent")) s in
  (lit "absent" ∉ (UploadedFile.id <$> files s))
  ∧ files s' = files s
  ∧ inputHistory s' = inputHistory s
  ∧ historyIndex s' = historyIndex s
  ∧ historyIndex s' ≠ (historyIndex s + 1)%nat.
Proof.
  vm_compute. split; [|repeat split; congruence].
  intros H. apply elem_of_nil in H. exact H.
Qed.

(** C10, amended. Removing an id that no file has leaves the file set as
    it is; while no replay is in progress it still commits: the history
    is cut after the cursor and gains a snapshot equal to the current
    files and prompt, and the cursor advances by one. *)
Theorem handleRemoveFile_absent_id_commits (s : AppState) (id : jstr) :
  id ∉ (UploadedFile.id <$> files s) →
  isUndoing s = false →
  let s' := invoke (handleRemoveFile id) s in
  files s' = files s
  ∧ prompt s' = prompt s
  ∧ inputHistory s'
    = take (historyIndex s + 1) (inputHistory s)
      ++ [Snapshot.mk (files s) (prompt s)]
  ∧ historyIndex s' = (historyIndex s + 1)%nat
  ∧ s' ≠ s.
Proof.
  intros Hnotin Hu s'. subst s'.
  destruct s as [m fs p ts ih i u st sm rs e h sh dt ls]. simpl in *. subst u.
  unfold invoke, run, exec, handleRemoveFile. simpl.
  rewrite (filter_absent_id id fs Hnotin).
  repeat split; try done.
  intros Heq. apply (f_equal historyIndex) in Heq. simpl in Heq. lia.
Qed.

Lemma handleRemoveFile_absent_id_commits_witness :
  let s := invoke (handleFilesSelected [file0]) (initialState store0) in
  let s' := invoke (handleRemoveFile (lit "absent")) s in
  files s' = files s
  ∧ prompt s' = prompt s
  ∧ inputHistory s'
    = take (historyIndex s + 1) (inputHistory s)
      ++ [Snapshot.mk (files s) (prompt s)]
  ∧ historyIndex s' = (historyIndex s + 1)%nat
  ∧ s' ≠ s.
Proof.
  apply (handleRemoveFile_absent_id_commits
           (invoke (handleFilesSelected [file0]) (initialState store0))
           (lit "absent")).
  - vm_compute. intros H. apply list_elem_of_In in H. simpl in H.
    destruct H as [H|[]]. discriminate H.
  - reflexivity.
Defined.

(** ** The template catalog *)

(** [updateTemplates] sets the catalog before it calls [setItem], so
    the catalog on screen changes whether or not the write is accepted. *)
Lemma updateTemplates_run newTemplates w :
  updateTemplates newTemplates w
  = match Storage.nextError (localStorage (app w)) with
    | Some message =>
        (Throw message,
         mkWorld (withLocalStorage (Storage.refused (localStorage (app w)))
                    (withTemplates newTemplates (app w)))
           (trace w) (calls w))
    | None =>
        (Normal tt,
         mkWorld (withLocalStorage
                    (Storage.putTemplates newTemplates (localStorage (app w)))
                    (withTemplates newTemplates (app w)))
           (trace w ++ [EStorage (Storage.putTemplates newTemplates
                                    (localStorage (app w)))])
           (calls w))
    end.
Proof.
  unfold updateTemplates, storeTemplates, setItem, setTemplates, modify, gets,
    emit, throw.
  cbv beta iota delta [mbind M_bind mret M_ret].
  cbn [app trace calls fst snd localStorage withTemplates].
  destruct (Storage.nextError (localStorage (app w))); reflexivity.
Qed.

Lemma updateTemplates_templates newTemplates w :
  templates (app (updateTemplates newTemplates w).2) = newTemplates.
Proof.
  rewrite updateTemplates_run.
  destruct (Storage.nextError (localStorage (app w))); reflexivity.
Qed.

Lemma invoke_handleDeleteTemplate s id :
  templates (invoke (handleDeleteTemplate id) s)
  = filter (λ t, StyleTemplate.id t ≠ id) (templates s).
Proof. apply updateTemplates_templates. Qed.

Lemma invoke_handleRenameTemplate s id newName :
  templates (invoke (handleRenameTemplate id newName) s)
  = renamed id newName <$> templates s.
Proof. apply updateTemplates_templates. Qed.

Lemma invoke_handleLikeTemplate s id :
  templates (invoke (handleLikeTemplate id) s) = likeToggled id <$> templates s.
Proof. apply updateTemplates_templates. Qed.

(** The state a handler that ends in [updateTemplates] leaves. *)
Lemma invoke_updateTemplates (handler : AppState → M unit) newTemplates s :
  (∀ w, handler s w = updateTemplates newTemplates w) →
  invoke handler s
  = withLocalStorage
      (match Storage.nextError (localStorage s) with
       | Some _ => Storage.refused (localStorage s)
       | None => Storage.putTemplates newTemplates (localStorage s)
       end)
      (withTemplates newTemplates s).
Proof.
  intros Hhandler. unfold invoke, run, exec.
  rewrite Hhandler, updateTemplates_run.
  cbn [app]. destruct (Storage.nextError (localStorage s)); reflexivity.
Qed.

Lemma invoke_handleLikeTemplate_state s id :
  invoke (handleLikeTemplate id) s
  = withLocalStorage
      (match Storage.nextError (localStorage s) with
       | Some _ => Storage.refused (localStorage s)
       | None => Storage.putTemplates (likeToggled id <$> templates s) (localStorage s)
       end)
      (withTemplates (likeToggled id <$> templates s) s).
Proof. by apply invoke_updateTemplates. Qed.

Lemma invoke_handleSaveCurrentAsTemplate s uuid name :
  templates (invoke (handleSaveCurrentAsTemplate uuid name) s)
  = templates s ++ [StyleTemplate.mk uuid name (prompt s) 0 false (Some true)].
Proof. apply updateTemplates_templates. Qed.

Lemma invoke_handleSelectTemplate_templates s template :
  templates (invoke (handleSelectTemplate template) s) = templates s.
Proof.
  destruct s as [m fs p ts ih i u st sm rs e h sh dt ls].
  unfold invoke, run, exec, handleSelectTemplate. by destruct u.
Qed.

(** C9 as stated fails on the handlers: the built-in template [t1] (no
    [isCustom] flag) is removed by [handleDeleteTemplate] and renamed by
    [handleRenameTemplate]. *)
Lemma builtin_template_deleted_and_renamed :
  let s := initialState store0 in
  Forall (λ t, truthy (StyleTemplate.isCustom t) = false) (templates s)
  ∧ (StyleTemplate.id <$> templates s) = [lit "t1"; lit "t2"; lit "t3"; lit "t4"]
  ∧ (StyleTemplate.id <$> templates (invoke (handleDeleteTemplate (lit "t1")) s))
    = [lit "t2"; lit "t3"; lit "t4"]
  ∧ templates (invoke (handleDeleteTemplate (lit "t1")) s) ≠ templates s
  ∧ (StyleTemplate.name <$> head (templates (invoke (handleRenameTemplate (lit "t1") (lit "Mine")) s)))
    = Some (lit "Mine")
  ∧ templates (invoke (handleRenameTemplate (lit "t1") (lit "Mine")) s) ≠ templates s.
Proof.
  split; [repeat constructor|].
  split; [vm_compute; reflexivity|].
  split; [vm_compute; reflexivity|].
  split; [intros H; apply (f_equal length) in H; vm_compute in H; discriminate H|].
  split; [vm_compute; reflexivity|].
  intros H. apply (f_equal (λ l, StyleTemplate.name <$> head l)) in H.
  vm_compute in H. discriminate H.
Qed.

(** *** What the gallery can do to the catalog *)

Lemma kinds_elem t catalog :
  t ∈ catalog →
  (StyleTemplate.id t, truthy (StyleTemplate.isCustom t)) ∈ kinds catalog.
Proof.
  intros Hin. unfold kinds.
  by apply (list_elem_of_fmap_2
              (λ t, (StyleTemplate.id t, truthy (StyleTemplate.isCustom t)))).
Qed.

Lemma kinds_fmap (f : StyleTemplate.t → StyleTemplate.t) catalog :
  (∀ t, StyleTemplate.id (f t) = StyleTemplate.id t
        ∧ StyleTemplate.isCustom (f t) = StyleTemplate.isCustom t) →
  kinds (f <$> catalog) = kinds catalog.
Proof.
  intros Hf. unfold kinds. rewrite <- list_fmap_compose.
  apply list_fmap_ext. intros _ t _. simpl. by destruct (Hf t) as [-> ->].
Qed.

Lemma likeToggled_keeps id t :
  StyleTemplate.id (likeToggled id t) = StyleTemplate.id t
  ∧ StyleTemplate.name (likeToggled id t) = StyleTemplate.name t
  ∧ StyleTemplate.prompt (likeToggled id t) = StyleTemplate.prompt t
  ∧ StyleTemplate.isCustom (likeToggled id t) = StyleTemplate.isCustom t.
Proof. unfold likeToggled. by case_bool_decide. Qed.

Lemma renamed_keeps id newName t :
  StyleTemplate.id (renamed id newName t) = StyleTemplate.id t
  ∧ StyleTemplate.prompt (renamed id newName t) = StyleTemplate.prompt t
  ∧ StyleTemplate.isCustom (renamed id newName t) = StyleTemplate.isCustom t
  ∧ (StyleTemplate.id t ≠ id → renamed id newName t = t).
Proof. unfold renamed. by case_bool_decide. Qed.

Lemma kinds_filter (P : StyleTemplate.t → Prop) `{∀ t, Decision (P t)} catalog k :
  k ∈ kinds (filter P catalog) → k ∈ kinds catalog.
Proof.
  unfold kinds. intros Hk. apply list_elem_of_fmap in Hk as (t & -> & Ht).
  apply list_elem_of_filter in Ht as [_ Ht].
  by apply (list_elem_of_fmap_2
              (λ t, (StyleTemplate.id t, truthy (StyleTemplate.isCustom t)))).
Qed.

Lemma builtinCards_cons t catalog :
  builtinCards (t :: catalog)
  = (if truthy (StyleTemplate.isCustom t) then []
     else [(StyleTemplate.id t, StyleTemplate.name t, StyleTemplate.prompt t)])
    ++ builtinCards catalog.
Proof.
  unfold builtinCards. destruct (truthy (StyleTemplate.isCustom t)) eqn:Hk.
  - by rewrite filter_cons_False by (rewrite Hk; done).
  - by rewrite filter_cons_True by done.
Qed.

Lemma builtinCards_likeToggled id catalog :
  builtinCards (likeToggled id <$> catalog) = builtinCards catalog.
Proof.
  induction catalog as [|t catalog IH]; [done|].
  rewrite fmap_cons, !builtinCards_cons, IH.
  by destruct (likeToggled_keeps id t) as (-> & -> & -> & ->).
Qed.

Lemma kinds_cons t catalog :
  kinds (t :: catalog)
  = (StyleTemplate.id t, truthy (StyleTemplate.isCustom t)) :: kinds catalog.
Proof. reflexivity. Qed.

(** Renaming or deleting by an id that no built-in template has leaves
    the built-in templates as they are. *)
Lemma builtinCards_renamed id newName catalog :
  (id, false) ∉ kinds catalog →
  builtinCards (renamed id newName <$> catalog) = builtinCards catalog.
Proof.
  induction catalog as [|t catalog IH]; intros Hno; [done|].
  rewrite kinds_cons, not_elem_of_cons in Hno. destruct Hno as [Ht Hrest].
  rewrite fmap_cons, !builtinCards_cons, IH by done.
  destruct (renamed_keeps id newName t) as (Hid & Hp & Hc & Hsame).
  rewrite Hc. destruct (truthy (StyleTemplate.isCustom t)) eqn:Hk; [done|].
  rewrite Hsame; [done|]. intros Heq. apply Ht. by rewrite Heq.
Qed.

Lemma builtinCards_deleted id catalog :
  (id, false) ∉ kinds catalog →
  builtinCards (filter (λ t, StyleTemplate.id t ≠ id) catalog) = builtinCards catalog.
Proof.
  induction catalog as [|t catalog IH]; intros Hno; [done|].
  rewrite kinds_cons, not_elem_of_cons in Hno. destruct Hno as [Ht Hrest].
  destruct (decide (StyleTemplate.id t = id)) as [Heq|Hne].
  - rewrite filter_cons_False by tauto. rewrite builtinCards_cons, IH by done.
    destruct (truthy (StyleTemplate.isCustom t)) eqn:Hk; [done|].
    exfalso. apply Ht. by rewrite Heq.
  - rewrite filter_cons_True by done. by rewrite !builtinCards_cons, IH.
Qed.

Lemma builtinCards_saved catalog uuid name prompt :
  builtinCards (catalog ++ [StyleTemplate.mk uuid name prompt 0 false (Some true)])
  = builtinCards catalog.
Proof.
  induction catalog as [|t catalog IH]; [done|].
  by rewrite <- app_comm_cons, !builtinCards_cons, IH.
Qed.

Lemma galleryInvariant_same s g s' g' :
  templates s' = templates s → editingId g' = editingId g →
  galleryInvariant (s, g) →
  galleryInvariant (s', g')
  ∧ builtinCards (templates s') = builtinCards (templates s).
Proof.
  intros Ht Hg [H1 H2]. unfold galleryInvariant. cbn [fst snd].
  rewrite Ht, Hg. done.
Qed.

Lemma galleryInvariant_kinds s g s' g' :
  kinds (templates s') = kinds (templates s) →
  (editingId g' = editingId g ∨ editingId g' = None) →
  galleryInvariant (s, g) → galleryInvariant (s', g').
Proof.
  intros Hk Hg [H1 H2]. unfold galleryInvariant, idsKeepKinds in *.
  cbn [fst snd] in *. rewrite Hk. split; [done|].
  intros id Hid. destruct Hg as [Hg|Hg]; rewrite Hg in Hid; [by apply H2|done].
Qed.

(** What a prop call does to the catalog, whether or not the write to
    storage is accepted. *)
Lemma propHandler_templates uuid call s :
  templates (app (run (propHandler uuid call) s).2)
  = match call with
    | OnSelectTemplate _ => templates s
    | OnLikeTemplate id => likeToggled id <$> templates s
    | OnDeleteTemplate id => filter (λ t, StyleTemplate.id t ≠ id) (templates s)
    | OnRenameTemplate id newName => renamed id newName <$> templates s
    | OnSaveCurrentAsTemplate name =>
        templates s ++ [StyleTemplate.mk uuid name (prompt s) 0 false (Some true)]
    end.
Proof.
  destruct call; cbn [propHandler].
  - apply invoke_handleSelectTemplate_templates.
  - apply invoke_handleLikeTemplate.
  - apply invoke_handleDeleteTemplate.
  - apply invoke_handleRenameTemplate.
  - apply invoke_handleSaveCurrentAsTemplate.
Qed.

(** A call that neither renames nor deletes by the id of a built-in
    template, and saves under a fresh id, keeps the ids telling the kinds
    apart, makes no id the id of a built-in template, and leaves the
    built-in templates as they are. *)
Lemma propHandler_keeps uuid call s :
  idsKeepKinds (templates s) →
  (∀ id, editedId call = Some id → (id, false) ∉ kinds (templates s)) →
  (∀ name, call = OnSaveCurrentAsTemplate name →
     uuid ∉ (StyleTemplate.id <$> templates s)) →
  let s' := app (run (propHandler uuid call) s).2 in
  idsKeepKinds (templates s')
  ∧ (∀ id, (id, false) ∈ kinds (templates s') → (id, false) ∈ kinds (templates s))
  ∧ builtinCards (templates s') = builtinCards (templates s).
Proof.
  intros H1 Hedited Hfresh s'. subst s'. rewrite propHandler_templates.
  destruct call as [t|id|id|id newName|name].
  - done.
  - assert (Hk : kinds (likeToggled id <$> templates s) = kinds (templates s)).
    { apply kinds_fmap. intros t'.
      by destruct (likeToggled_keeps id t') as (-> & _ & _ & ->). }
    unfold idsKeepKinds. rewrite Hk. split; [done|]. split; [done|].
    apply builtinCards_likeToggled.
  - split; [|split].
    + intros i Hb Hc. apply kinds_filter in Hb, Hc. by apply (H1 i).
    + intros i Hb. by apply kinds_filter in Hb.
    + apply builtinCards_deleted. by apply Hedited.
  - assert (Hk : kinds (renamed id newName <$> templates s) = kinds (templates s)).
    { apply kinds_fmap. intros t'.
      by destruct (renamed_keeps id newName t') as (-> & _ & -> & _). }
    unfold idsKeepKinds. rewrite Hk. split; [done|]. split; [done|].
    apply builtinCards_renamed. by apply Hedited.
  - assert (Hk : ∀ k, k ∈ kinds (templates s
                   ++ [StyleTemplate.mk uuid name (prompt s) 0 false (Some true)])
                 ↔ k ∈ kinds (templates s) ∨ k = (uuid, true)).
    { intros k. unfold kinds. rewrite fmap_app, elem_of_app.
      cbn [fmap list_fmap]. rewrite list_elem_of_singleton. done. }
    split; [|split].
    + intros i Hb Hc. apply Hk in Hb as [Hb|[=]]. apply Hk in Hc as [Hc|[= ->]].
      * by apply (H1 i).
      * apply (Hfresh name eq_refl). unfold kinds in Hb.
        apply list_elem_of_fmap in Hb as (t & [= -> _] & Ht).
        by apply list_elem_of_fmap_2.
    + intros i Hb. by apply Hk in Hb as [Hb|[=]].
    + apply builtinCards_saved.
Qed.

Lemma perform_call_invariant uuid call g' s g :
  galleryInvariant (s, g) →
  (editingId g' = editingId g ∨ editingId g' = None) →
  (∀ id, editedId call = Some id → (id, false) ∉ kinds (templates s)) →
  (∀ name, call = OnSaveCurrentAsTemplate name →
     uuid ∉ (StyleTemplate.id <$> templates s)) →
  galleryInvariant (perform uuid (Some call, g') s g)
  ∧ builtinCards (templates (perform uuid (Some call, g') s g).1)
    = builtinCards (templates s).
Proof.
  intros [H1 H2] Hg Hedited Hfresh. cbn [fst snd] in H1, H2.
  destruct (propHandler_keeps uuid call s H1 Hedited Hfresh) as (H1' & Hsub & Hcards).
  unfold perform, galleryInvariant. cbn [fst snd].
  split; [|done]. split; [done|].
  intros id Hid Hb. apply (H2 id); [|by apply Hsub].
  destruct (run (propHandler uuid call) s).1; [|done].
  destruct Hg as [Hg|Hg]; rewrite Hg in Hid; done.
Qed.

(** The controls that rename or delete are on user-authored cards. *)
Lemma cardControls_custom editing t ctl :
  ctl ∈ cardControls editing t →
  ctl = EditButton ∨ ctl = DeleteButton →
  truthy (StyleTemplate.isCustom t) = true.
Proof.
  unfold cardControls. intros Hctl Hwhich.
  destruct (truthy (StyleTemplate.isCustom t)); [done|].
  destruct (isEditing editing t); simpl in Hctl;
    rewrite ?elem_of_cons, elem_of_nil in Hctl;
    destruct Hwhich as [-> | ->]; intuition discriminate.
Qed.

(** In a state that satisfies the invariant, a drawn control renames or
    deletes only by an id that no built-in template has. *)
Lemma cardHandler_edits_custom ctl t text s g call id :
  galleryInvariant (s, g) →
  t ∈ templates s →
  ctl ∈ cardControls (editingId g) t →
  (cardHandler ctl t text g).1 = Some call →
  editedId call = Some id →
  (id, false) ∉ kinds (templates s).
Proof.
  intros [H1 H2] Hin Hctl Hcall Hid. cbn [fst snd] in H1, H2.
  destruct ctl; cbn [cardHandler fst] in Hcall; try discriminate Hcall.
  - injection Hcall as <-. discriminate Hid.
  - injection Hcall as <-. discriminate Hid.
  - injection Hcall as <-. injection Hid as <-.
    intros Hb. apply (H1 _ Hb).
    rewrite <- (cardControls_custom _ _ _ Hctl) by tauto. by apply kinds_elem.
  - unfold saveEdit in Hcall. destruct (editingId g) as [eid|] eqn:He;
      [|discriminate Hcall].
    destruct (bool_decide (eid ≠ []) && bool_decide (trim (editName g) ≠ []));
      [|discriminate Hcall].
    injection Hcall as <-. injection Hid as <-. by apply H2.
Qed.

Lemma galleryStep_invariant sg sg' :
  galleryStep sg sg' →
  galleryInvariant sg →
  galleryInvariant sg'
  ∧ builtinCards (templates sg'.1) = builtinCards (templates sg.1).
Proof.
  intros Hstep Hinv.
  destruct Hstep as [ctl t text uuid s g Hin Hctl|s g _ _|text s g _|uuid s g _ Hfresh
                    |s g _|s s' g Hsame|s g]; cbn [fst snd];
    try (by apply (galleryInvariant_same s g));
    [| |split; [|done]; apply (galleryInvariant_kinds s g); [done|by right|done]].
  - destruct (cardHandler ctl t text g) as [[call|] g'] eqn:Hhandler.
    + apply perform_call_invariant; [done| | |].
      * destruct ctl; cbn [cardHandler] in Hhandler;
          try (injection Hhandler as _ <-; by left); try discriminate Hhandler.
        unfold saveEdit in Hhandler. destruct (editingId g); [|discriminate].
        destruct (bool_decide _ && bool_decide _); [|discriminate].
        injection Hhandler as _ <-. by right.
      * intros id Hid.
        apply (cardHandler_edits_custom ctl t text s g call id); try done.
        by rewrite Hhandler.
      * intros name ->.
        destruct ctl; cbn [cardHandler] in Hhandler; try discriminate Hhandler.
        unfold saveEdit in Hhandler. destruct (editingId g); [|discriminate].
        destruct (bool_decide _ && bool_decide _); discriminate.
    + unfold perform. cbn [fst snd]. split; [|done].
      pose proof Hinv as [H1 H2]. cbn [fst snd] in H1, H2.
      destruct ctl; cbn [cardHandler] in Hhandler; try discriminate Hhandler.
      * injection Hhandler as <-. split; [done|].
        cbn [fst snd startEditing editingId].
        intros id [= <-] Hb. apply (H1 _ Hb).
        rewrite <- (cardControls_custom _ _ _ Hctl) by tauto. by apply kinds_elem.
      * injection Hhandler as <-.
        apply (galleryInvariant_kinds s g); [done|by left|done].
      * unfold saveEdit in Hhandler. destruct (editingId g) eqn:He.
        -- destruct (bool_decide _ && bool_decide _); [discriminate|].
           by injection Hhandler as <-.
        -- by injection Hhandler as <-.
      * injection Hhandler as <-.
        apply (galleryInvariant_kinds s g); [done|by right|done].
  - unfold handleSaveNew.
    destruct (bool_decide (trim (newTemplateName g) ≠ []));
      [|by apply (galleryInvariant_same s g)].
    apply perform_call_invariant; [done|by left|discriminate|].
    intros name _. exact Hfresh.
Qed.

(** C9, amended. Through the gallery no built-in template is renamed or
    removed. Starting from a catalog in which no id is shared between a
    built-in and a user-authored template, whatever is clicked and typed,
    and whether or not the writes to storage are accepted: the built-in
    templates of the catalog stay those of the mount, in the same order
    with the same ids, names and prompts; no control drawn on any card
    calls rename or delete with the id of a built-in template; and the
    card of a built-in template shows no edit, delete or save button. The
    handlers themselves do not look at the flag: called with the id of a
    built-in template, delete removes it and rename gives it the new
    name. *)
Theorem builtin_template_guarded_by_gallery_only
    (store : Storage.t) (s : AppState) (g : Gallery) :
  idsKeepKinds (templates (initialState store)) →
  galleryReachable store (s, g) →
  builtinCards (templates s) = builtinCards (templates (initialState store))
  ∧ (∀ ctl template text call id builtin,
       template ∈ templates s →
       ctl ∈ cardControls (editingId g) template →
       (cardHandler ctl template text g).1 = Some call →
       editedId call = Some id →
       builtin ∈ templates s →
       truthy (StyleTemplate.isCustom builtin) = false →
       StyleTemplate.id builtin ≠ id)
  ∧ ∀ t newName,
      t ∈ templates s →
      truthy (StyleTemplate.isCustom t) = false →
      (EditButton ∉ cardControls (editingId g) t)
      ∧ (DeleteButton ∉ cardControls (editingId g) t)
      ∧ (SaveEditButton ∉ cardControls (editingId g) t)
      ∧ (t ∉ templates (invoke (handleDeleteTemplate (StyleTemplate.id t)) s))
      ∧ renamed (StyleTemplate.id t) newName t
          ∈ templates (invoke (handleRenameTemplate (StyleTemplate.id t) newName) s)
      ∧ StyleTemplate.name (renamed (StyleTemplate.id t) newName t) = newName.
Proof.
  intros Hids Hreach.
  assert (Hboth : galleryInvariant (s, g)
                  ∧ builtinCards (templates s)
                    = builtinCards (templates (initialState store))).
  { remember (s, g) as sg eqn:Hsg. revert s g Hsg.
    induction Hreach as [|[s0 g0] sg' _ IH Hstep]; intros s g Hsg.
    - injection Hsg as <- <-. split; [|done]. split; [done|]. intros id [=].
    - destruct (IH s0 g0 eq_refl) as [Hinv Hcards].
      destruct (galleryStep_invariant _ _ Hstep Hinv) as [Hinv' Hcards'].
      subst sg'. cbn [fst snd] in *. split; [done|]. by rewrite Hcards'. }
  destruct Hboth as [Hinv Hcards]. pose proof Hinv as [H1 H2].
  cbn [fst snd] in H1, H2.
  split; [done|]. split.
  { intros ctl template text call id builtin Hin Hctl Hcall Hid Hb Hflag Heq.
    apply (cardHandler_edits_custom ctl template text s g call id); try done.
    rewrite <- Heq, <- Hflag. by apply kinds_elem. }
  intros t newName Hin Hflag.
  assert (Hnot : isEditing (editingId g) t = false).
  { unfold isEditing. apply bool_decide_eq_false_2. intros Hid.
    apply (H2 _ Hid). rewrite <- Hflag. by apply kinds_elem. }
  assert (Hctl : ∀ ctl, ctl ∈ cardControls (editingId g) t →
            ctl = SelectCard ∨ ctl = LikeButton).
  { intros ctl. unfold cardControls. rewrite Hflag, Hnot. simpl.
    rewrite ?elem_of_cons, elem_of_nil. tauto. }
  split; [intros H; apply Hctl in H; destruct H; discriminate|].
  split; [intros H; apply Hctl in H; destruct H; discriminate|].
  split; [intros H; apply Hctl in H; destruct H; discriminate|].
  split.
  - rewrite invoke_handleDeleteTemplate, list_elem_of_filter. tauto.
  - split.
    + rewrite invoke_handleRenameTemplate. apply list_elem_of_fmap. eauto.
    + unfold renamed. rewrite bool_decide_eq_true_2 by done. done.
Qed.

Lemma builtin_template_guarded_by_gallery_only_witness :
  let s := sessionRenamed.1 in
  let g := sessionRenamed.2 in
  builtinCards (templates s) = builtinCards (templates (initialState store0))
  ∧ (∀ ctl template text call id builtin,
       template ∈ templates s →
       ctl ∈ cardControls (editingId g) template →
       (cardHandler ctl template text g).1 = Some call →
       editedId call = Some id →
       builtin ∈ templates s →
       truthy (StyleTemplate.isCustom builtin) = false →
       StyleTemplate.id builtin ≠ id)
  ∧ ∀ t newName,
      t ∈ templates s →
      truthy (StyleTemplate.isCustom t) = false →
      (EditButton ∉ cardControls (editingId g) t)
      ∧ (DeleteButton ∉ cardControls (editingId g) t)
      ∧ (SaveEditButton ∉ cardControls (editingId g) t)
      ∧ (t ∉ templates (invoke (handleDeleteTemplate (StyleTemplate.id t)) s))
      ∧ renamed (StyleTemplate.id t) newName t
          ∈ templates (invoke (handleRenameTemplate (StyleTemplate.id t) newName) s)
      ∧ StyleTemplate.name (renamed (StyleTemplate.id t) newName t) = newName.
Proof.
  apply (builtin_template_guarded_by_gallery_only store0
           sessionRenamed.1 sessionRenamed.2).
  - intros id _ H. apply list_elem_of_In in H. vm_compute in H.
    repeat (destruct H as [H|H]; [discriminate H|]). exact H.
  - assert (H0 : galleryReachable store0 (initialState store0, galleryMounted))
      by apply g_mount.
    assert (H1 : galleryReachable store0 sessionPicked).
    { eapply g_step; [exact H0|].
      apply (g_card SelectCard neon [] []).
      + apply list_elem_of_In. vm_compute. tauto.
      + apply list_elem_of_In. vm_compute. tauto. }
    assert (H2 : galleryReachable store0
                   (sessionPicked.1, setIsCreating true sessionPicked.2)).
    { eapply g_step; [exact H1|].
      apply (g_save_current sessionPicked.1 sessionPicked.2); [reflexivity|].
      vm_compute. discriminate. }
    assert (H3 : galleryReachable store0 sessionNaming).
    { eapply g_step; [exact H2|].
      apply (g_type_new_name (lit "Mine") sessionPicked.1
               (setIsCreating true sessionPicked.2)). reflexivity. }
    assert (H4 : galleryReachable store0 sessionSaved).
    { eapply g_step; [exact H3|].
      apply (g_submit_new (lit "u-1") sessionNaming.1 sessionNaming.2);
        [reflexivity|].
      intros H. apply list_elem_of_In in H. vm_compute in H.
      repeat (destruct H as [H|H]; [discriminate H|]). exact H. }
    assert (H5 : galleryReachable store0 (sessionSaved.1, startEditing mine sessionSaved.2)).
    { eapply g_step; [exact H4|].
      apply (g_card EditButton mine [] [] sessionSaved.1 sessionSaved.2).
      + apply list_elem_of_In. vm_compute. tauto.
      + apply list_elem_of_In. vm_compute. tauto. }
    assert (H6 : galleryReachable store0 sessionEditing).
    { eapply g_step; [exact H5|].
      apply (g_card EditNameInput mine (lit "Ours") [] sessionSaved.1
               (startEditing mine sessionSaved.2)).
      + apply list_elem_of_In. vm_compute. tauto.
      + apply list_elem_of_In. vm_compute. tauto. }
    eapply g_step; [exact H6|].
    apply (g_card SaveEditButton mine [] [] sessionEditing.1 sessionEditing.2).
    + apply list_elem_of_In. vm_compute. tauto.
    + apply list_elem_of_In. vm_compute. tauto.
Defined.

(** The session, evaluated: the saved template was renamed, the four
    built-in ones are as they were. *)
Example sessionRenamed_catalog :
  (StyleTemplate.name <$> templates sessionRenamed.1)
  = [lit "Dark Mode Minimal"; lit "Corporate Clean"; lit "Neon Cyberpunk";
     lit "Playful & Brutalist"; lit "Ours"]
  ∧ editingId sessionRenamed.2 = None.
Proof. vm_compute. done. Qed.

(** Why the ids must tell the kinds apart: when a stored catalog gives a
    user-authored template the id of a built-in one, editing the former
    puts the name input on the card of the latter too, and saving renames
    both. *)
Example gallery_renames_builtin_sharing_id :
  let s := initialState storeSharedId in
  let custom := StyleTemplate.mk (lit "t1") (lit "Mine") [] 0 false (Some true) in
  let g := setEditName (lit "Ours") (startEditing custom galleryMounted) in
  EditButton ∈ cardControls None custom
  ∧ (StyleTemplate.name <$> templates (perform [] (saveEdit g) s g).1)
    = [lit "Ours"; lit "Corporate Clean"; lit "Neon Cyberpunk";
       lit "Playful & Brutalist"; lit "Ours"].
Proof.
  split; [apply list_elem_of_In; vm_compute; tauto|]. vm_compute. done.
Qed.

(** ** The pipeline *)

Lemma sameButMessage_refl a : sameButMessage a a.
Proof. exists (statusMessage a). by destruct a. Qed.

Lemma sameButMessage_set a a' msg :
  sameButMessage a a' → sameButMessage a (withStatusMessage msg a').
Proof. intros [m ->]. by exists msg. Qed.

Section PipelineProofs.

Variable transport : nat → AIModel.t → Request → Completion jstr.

Lemma rewriteHtmlFile_ok w file cssContent p model raw :
  transport (calls w) model (HtmlRequest file cssContent p) = Normal raw →
  rewriteHtmlFile transport file cssContent p model w
  = (Normal (cleanCodeResponse raw),
     mkWorld (app w)
       (trace w ++ [EGateway (calls w) model (HtmlRequest file cssContent p)])
       (S (calls w))).
Proof.
  intros H. unfold rewriteHtmlFile, tryCatch. rewrite bind_run.
  unfold callModel. rewrite H. reflexivity.
Qed.

Lemma rewriteHtmlFile_fail w file cssContent p model e :
  transport (calls w) model (HtmlRequest file cssContent p) = Throw e →
  rewriteHtmlFile transport file cssContent p model w
  = (Throw (htmlFailureMsg file),
     mkWorld (app w)
       ((trace w ++ [EGateway (calls w) model (HtmlRequest file cssContent p)])
        ++ [EConsoleError])
       (S (calls w))).
Proof.
  intros H. unfold rewriteHtmlFile, tryCatch. rewrite bind_run.
  unfold callModel. rewrite H. reflexivity.
Qed.

Lemma generateGlobalCss_ok w fs p model raw :
  transport (calls w) model (CssRequest fs p) = Normal raw →
  generateGlobalCss transport fs p model w
  = (Normal (cleanCodeResponse raw),
     mkWorld (app w) (trace w ++ [EGateway (calls w) model (CssRequest fs p)])
       (S (calls w))).
Proof.
  intros H. unfold generateGlobalCss, tryCatch. rewrite bind_run.
  unfold callModel. rewrite H. reflexivity.
Qed.

Lemma generateGlobalCss_fail w fs p model e :
  transport (calls w) model (CssRequest fs p) = Throw e →
  generateGlobalCss transport fs p model w
  = (Throw (cssFailureMsg model),
     mkWorld (app w)
       ((trace w ++ [EGateway (calls w) model (CssRequest fs p)]) ++ [EConsoleError])
       (S (calls w))).
Proof.
  intros H. unfold generateGlobalCss, tryCatch. rewrite bind_run.
  unfold callModel. rewrite H. reflexivity.
Qed.

(** The loop when every rewrite is answered: one artifact per remaining
    file, in order, after those already collected. *)
Lemma rewriteLoop_ok total cssContent p model (rawHtml : nat → jstr) remaining :
  ∀ i acc w,
  (∀ k file, remaining !! k = Some file →
     transport (calls w + k)%nat model (HtmlRequest file cssContent p)
     = Normal (rawHtml (i + k)%nat)) →
  ∃ w',
    rewriteLoop transport total cssContent p model i remaining acc w
    = (Normal (acc ++ imap (λ k, rewrittenArtifact rawHtml (i + k)) remaining), w')
    ∧ sameButMessage (app w) (app w')
    ∧ (∃ tr, trace w' = trace w ++ tr ∧ Forall (λ e, isStorageWrite e = false) tr).
Proof.
  induction remaining as [|file remaining IH]; intros i acc w Hok.
  - exists w. simpl. rewrite app_nil_r.
    split; [done|]. split; [apply sameButMessage_refl|].
    exists []. by rewrite app_nil_r.
  - cbn [rewriteLoop]. rewrite bind_run. cbn [setStatusMessage modify].
    rewrite bind_run.
    rewrite (rewriteHtmlFile_ok _ _ _ _ _ (rawHtml i)); cbn [calls app trace].
    2:{ specialize (Hok 0%nat file eq_refl).
        rewrite !Nat.add_0_r in Hok. exact Hok. }
    edestruct (IH (S i) (acc ++ [ProcessedFile.mk (UploadedFile.name file)
                                   (cleanCodeResponse (rawHtml i)) html]))
      as (w' & Hrun & Hsame & tr & Htr & Hall); [|rewrite Hrun].
    { intros k f Hk. cbn [calls].
      specialize (Hok (S k) f Hk).
      replace (S (calls w) + k)%nat with (calls w + S k)%nat by lia.
      replace (S i + k)%nat with (i + S k)%nat by lia. exact Hok. }
    exists w'. split.
    + f_equal. rewrite <- app_assoc. f_equal. f_equal. cbn [imap app].
      unfold rewrittenArtifact at 1. rewrite Nat.add_0_r. f_equal.
      apply imap_ext. intros k f _. simpl.
      by replace (i + S k)%nat with (S (i + k)) by lia.
    + split.
      * cbn [app] in Hsame. destruct Hsame as [m ->]. by exists m.
      * cbn [trace] in Htr. exists (EGateway (calls w) model (HtmlRequest file cssContent p) :: tr).
        split; [by rewrite Htr, <- app_assoc|]. by constructor.
Qed.

(** The loop when the rewrite of [remaining[k]] is the first to fail: the
    error of [rewriteHtmlFile] for that file leaves the loop, and what
    was collected is dropped with it. *)
Lemma rewriteLoop_fail total cssContent p model remaining :
  ∀ i acc w k file e,
  remaining !! k = Some file →
  (∀ j g, (j < k)%nat → remaining !! j = Some g →
     ∃ r, transport (calls w + j)%nat model (HtmlRequest g cssContent p) = Normal r) →
  transport (calls w + k)%nat model (HtmlRequest file cssContent p) = Throw e →
  ∃ w',
    rewriteLoop transport total cssContent p model i remaining acc w
    = (Throw (htmlFailureMsg file), w')
    ∧ sameButMessage (app w) (app w')
    ∧ (∃ tr, trace w' = trace w ++ tr ∧ Forall (λ e, isStorageWrite e = false) tr).
Proof.
  induction remaining as [|g remaining IH]; intros i acc w k file e Hk Hbefore Hfail.
  - discriminate Hk.
  - cbn [rewriteLoop]. rewrite bind_run. cbn [setStatusMessage modify].
    rewrite bind_run.
    destruct k as [|k].
    + injection Hk as ->. rewrite Nat.add_0_r in Hfail.
      rewrite (rewriteHtmlFile_fail _ _ _ _ _ e) by exact Hfail.
      eexists. split; [reflexivity|]. cbn [app trace].
      split; [apply sameButMessage_set, sameButMessage_refl|].
      eexists. split; [by rewrite <- app_assoc|]. by repeat constructor.
    + destruct (Hbefore 0%nat g) as [r Hr]; [lia|done|].
      rewrite Nat.add_0_r in Hr.
      rewrite (rewriteHtmlFile_ok _ _ _ _ _ r) by exact Hr.
      cbn [calls app trace].
      edestruct (IH (S i) (acc ++ [ProcessedFile.mk (UploadedFile.name g)
                                     (cleanCodeResponse r) html]))
        as (w' & Hrun & Hsame & tr & Htr & Hall);
        [exact Hk| | |rewrite Hrun].
      * intros j h Hj Hh. cbn [calls].
        replace (S (calls w) + j)%nat with (calls w + S j)%nat by lia.
        apply (Hbefore (S j) h); [lia|exact Hh].
      * cbn [calls].
        replace (S (calls w) + k)%nat with (calls w + S k)%nat by lia. exact Hfail.
      * exists w'. split; [done|]. split.
        -- cbn [app] in Hsame. destruct Hsame as [m ->]. by exists m.
        -- cbn [trace] in Htr.
           exists (EGateway (calls w) model (HtmlRequest g cssContent p) :: tr).
           split; [by rewrite Htr, <- app_assoc|]. by constructor.
Qed.

(** Every part of a joined text occurs in it. *)
Lemma join_infix (sep : jstr) (parts : list jstr) (part : jstr) :
  part ∈ parts → ∃ before after, join sep parts = before ++ part ++ after.
Proof.
  induction parts as [|p parts IH]; intros Hin; [by apply elem_of_nil in Hin|].
  apply elem_of_cons in Hin as [->|Hin].
  - destruct parts as [|q parts].
    + exists [], []. by rewrite app_nil_r.
    + exists [], (sep ++ join sep (q :: parts)). done.
  - destruct (IH Hin) as (before & after & Heq).
    destruct parts as [|q parts]; [by apply elem_of_nil in Hin|].
    exists (p ++ sep ++ before), after.
    change (join sep (p :: q :: parts)) with (p ++ sep ++ join sep (q :: parts)).
    by rewrite Heq, <- !app_assoc.
Qed.

(** C1. A run whose requests are all answered but whose stylesheet has
    validator findings still ends in [COMPLETED] with the artifacts in
    [results]; the findings are shown to the user: [error] holds a message
    that starts with the fixed notice and contains the text of every
    finding; and the run history, in memory and in [localStorage], is
    what it was: [setItem] is not called during the run. *)
Theorem processFiles_warnings_complete_without_record
    (s : AppState) (uuid : jstr) (now : Z) (raw : jstr) (rawHtml : nat → jstr) :
  files s ≠ [] →
  trim (prompt s) ≠ [] →
  allGatewayCallsSucceed transport s raw rawHtml →
  validateCss (cleanCodeResponse raw) ≠ [] →
  let r := run (processFiles transport uuid now) s in
  r.1 = Normal tt
  ∧ status (app r.2) = COMPLETED
  ∧ results (app r.2) = runArtifacts s raw rawHtml
  ∧ error (app r.2)
    = Some (validationIssuesMsg (validateCss (cleanCodeResponse raw)))
  ∧ (∃ message rest,
       error (app r.2) = Some message
       ∧ message
         = lit "Processing complete, but CSS validation found issues: " ++ rest
       ∧ ∀ finding, finding ∈ validateCss (cleanCodeResponse raw) →
           ∃ before after, rest = before ++ finding ++ after)
  ∧ history (app r.2) = history s
  ∧ localStorage (app r.2) = localStorage s
  ∧ Forall (λ e, isStorageWrite e = false) (trace r.2).
Proof.
  intros Hfiles Hprompt [Hcss Hhtml] Hval r. subst r.
  unfold run, exec, processFiles.
  rewrite bool_decide_eq_false_2 by (destruct (files s); [done|simpl; lia]).
  rewrite bool_decide_eq_false_2 by done.
  unfold tryCatch.
  do 5 step.
  rewrite (generateGlobalCss_ok _ _ _ _ raw) by exact Hcss.
  cbv beta iota; cbn [app trace calls].
  rewrite !bool_decide_eq_true_2
    by (destruct (validateCss (cleanCodeResponse raw)); [done|simpl; lia]).
  do 3 step.
  match goal with |- context [rewriteLoop _ _ _ _ _ _ _ _ ?w] =>
    destruct (rewriteLoop_ok (length (files s)) (cleanCodeResponse raw) (prompt s)
                (selectedModel s) rawHtml (files s) 0%nat [] w)
      as (w' & Hrun & [m Happ] & tr & Htr & Hall)
  end.
  { intros k f Hk. apply (Hhtml k f Hk). }
  rewrite Hrun. cbv beta iota.
  do 2 step. cbn [fst snd app trace].
  rewrite Happ, Htr.
  split; [done|]. split; [done|].
  split; [unfold runArtifacts, stylesheetArtifact; cbn; done|].
  split; [done|].
  split.
  { eexists _, _. split; [done|]. split; [reflexivity|]. apply join_infix. }
  split; [done|]. split; [done|].
  rewrite !Forall_app. repeat split; try done; by repeat constructor.
Qed.


(** C4, amended. A run whose requests are all answered and whose
    stylesheet has no finding leaves in [results] the stylesheet artifact
    followed by one rewritten document per input file, in input order;
    one record with the run's prompt and artifacts is put at the front of
    the run history, which is then cut to 20 records: it grows by one
    record when it held fewer than 20, and keeps 20 records when it was
    full. When the write of the log to [localStorage] returns, the run
    ends in [COMPLETED] without message and the persisted log is that
    list; when the write throws, the run ends in [ERROR] with the message
    of the exception, and the persisted log is what it was. *)
Theorem processFiles_clean_run_recorded
    (s : AppState) (uuid : jstr) (now : Z) (raw : jstr) (rawHtml : nat → jstr) :
  files s ≠ [] →
  trim (prompt s) ≠ [] →
  allGatewayCallsSucceed transport s raw rawHtml →
  validateCss (cleanCodeResponse raw) = [] →
  let r := run (processFiles transport uuid now) s in
  let newItem := HistoryItem.mk uuid now (prompt s) (runArtifacts s raw rawHtml) in
  r.1 = Normal tt
  ∧ results (app r.2) = runArtifacts s raw rawHtml
  ∧ length (results (app r.2)) = S (length (files s))
  ∧ history (app r.2) = take HISTORY_LIMIT (newItem :: history s)
  ∧ ((length (history s) < 20)%nat → history (app r.2) = newItem :: history s)
  ∧ ((20 ≤ length (history s))%nat → length (history (app r.2)) = 20%nat)
  ∧ match Storage.nextError (localStorage s) with
    | None =>
        status (app r.2) = COMPLETED
        ∧ error (app r.2) = None
        ∧ Storage.stylemorph_history (localStorage (app r.2))
          = Storage.Holds (history (app r.2))
    | Some message =>
        status (app r.2) = ERROR
        ∧ error (app r.2)
          = Some (if bool_decide (message = []) then processingFailedMsg
                  else message)
        ∧ Storage.stylemorph_history (localStorage (app r.2))
          = Storage.stylemorph_history (localStorage s)
    end.
Proof.
  intros Hfiles Hprompt [Hcss Hhtml] Hval r newItem. subst r newItem.
  unfold run, exec, processFiles.
  rewrite bool_decide_eq_false_2 by (destruct (files s); [done|simpl; lia]).
  rewrite bool_decide_eq_false_2 by done.
  unfold tryCatch.
  do 5 step.
  rewrite (generateGlobalCss_ok _ _ _ _ raw) by exact Hcss.
  cbv beta iota; cbn [app trace calls].
  rewrite Hval. rewrite !bool_decide_eq_false_2 by (simpl; lia).
  do 3 step.
  match goal with |- context [rewriteLoop _ _ _ _ _ _ _ _ ?w] =>
    destruct (rewriteLoop_ok (length (files s)) (cleanCodeResponse raw) (prompt s)
                (selectedModel s) rawHtml (files s) 0%nat [] w)
      as (w' & Hrun & [m Happ] & tr & Htr & Hall)
  end.
  { intros k f Hk. apply (Hhtml k f Hk). }
  rewrite Hrun. cbv beta iota.
  do 2 step.
  rewrite saveToHistory_run. cbv zeta. cbn [app]. rewrite Happ.
  change ([] ++ imap (λ k, rewrittenArtifact rawHtml (0 + k)) (files s))
    with (imap (rewrittenArtifact rawHtml) (files s)).
  fold (stylesheetArtifact raw). fold (runArtifacts s raw rawHtml).
  cbn [app localStorage withStatus withResults withStatusMessage withError].
  assert (Hlt : (length (history s) < 20)%nat →
            take HISTORY_LIMIT
              (HistoryItem.mk uuid now (prompt s) (runArtifacts s raw rawHtml)
               :: history s)
            = HistoryItem.mk uuid now (prompt s) (runArtifacts s raw rawHtml)
              :: history s).
  { intros Hlt. apply take_ge. unfold HISTORY_LIMIT. cbn [length]. lia. }
  assert (Hge : (20 ≤ length (history s))%nat →
            length (take HISTORY_LIMIT
                      (HistoryItem.mk uuid now (prompt s) (runArtifacts s raw rawHtml)
                       :: history s)) = 20%nat).
  { intros Hge. rewrite length_take. unfold HISTORY_LIMIT. cbn [length]. lia. }
  assert (Hlen : length (runArtifacts s raw rawHtml) = S (length (files s))).
  { unfold runArtifacts. cbn [length]. by rewrite length_imap. }
  destruct (Storage.nextError (localStorage s)) as [message|]; cbv beta iota.
  - do 2 step. rewrite setStatus_run.
    cbn [fst snd app status results error history localStorage withLocalStorage
         withHistory withStatus withResults withStatusMessage withError
         Storage.stylemorph_history Storage.refused].
    repeat split; done.
  - cbn [fst snd app status results error history localStorage withLocalStorage
         withHistory withStatus withResults withStatusMessage withError
         Storage.stylemorph_history Storage.putHistory].
    repeat split; done.
Qed.

(** Among the rewrites of a run, a failing one has a first failing one. *)
Lemma first_index (P : nat → Prop) (Pdec : ∀ n, P n ∨ ¬ P n) (n : nat) :
  (∀ i, (i < n)%nat → ¬ P i)
  ∨ (∃ j, (j < n)%nat ∧ P j ∧ ∀ i, (i < j)%nat → ¬ P i).
Proof.
  induction n as [|n [Hnone|(j & Hj & HP & Hmin)]].
  - left. intros i Hi. lia.
  - destruct (Pdec n) as [HP|HnP].
    + right. exists n. split; [lia|]. split; [done|]. exact Hnone.
    + left. intros i Hi. destruct (decide (i = n)) as [->|Hne]; [done|].
      apply Hnone. lia.
  - right. exists j. split; [lia|]. done.
Qed.

Lemma someGatewayCallFails_first (s : AppState) :
  someGatewayCallFails transport s → ∃ msg, firstGatewayFailure transport s msg.
Proof.
  intros [[e He]|(raw & k & file & e & Hcss & Hk & Hfail)].
  - eexists. eapply css_call_fails, He.
  - set (P := λ j, ∃ g e', files s !! j = Some g
                ∧ rewriteCall transport s (cleanCodeResponse raw) j g = Throw e').
    assert (Pdec : ∀ n, P n ∨ ¬ P n).
    { intros n. unfold P. destruct (files s !! n) as [g|] eqn:Hg.
      - destruct (rewriteCall transport s (cleanCodeResponse raw) n g) as [r|e'] eqn:Hr.
        + right. intros (g' & e' & Hg' & He'). congruence.
        + left. eauto.
      - right. intros (g' & e' & Hg' & He'). congruence. }
    destruct (first_index P Pdec (S k)) as [Hnone|(j & Hj & (g & e' & Hg & Hge) & Hmin)].
    + exfalso. apply (Hnone k); [lia|]. unfold P. eauto.
    + exists (htmlFailureMsg g). eapply rewrite_call_fails; eauto.
      intros i h Hi Hh.
      destruct (rewriteCall transport s (cleanCodeResponse raw) i h) as [r|e''] eqn:Hr;
        [eauto|].
      exfalso. apply (Hmin i Hi). unfold P. eauto.
Qed.

Lemma cssFailureMsg_nonempty model : cssFailureMsg model ≠ [].
Proof. unfold cssFailureMsg. vm_compute. discriminate. Qed.

Lemma htmlFailureMsg_nonempty file : htmlFailureMsg file ≠ [].
Proof. unfold htmlFailureMsg. vm_compute. discriminate. Qed.

Lemma processFiles_first_failure
    (s : AppState) (uuid : jstr) (now : Z) (msg : jstr) :
  files s ≠ [] →
  trim (prompt s) ≠ [] →
  firstGatewayFailure transport s msg →
  let r := run (processFiles transport uuid now) s in
  r.1 = Normal tt
  ∧ status (app r.2) = ERROR
  ∧ error (app r.2) = Some msg
  ∧ results (app r.2) = results s
  ∧ history (app r.2) = history s
  ∧ localStorage (app r.2) = localStorage s
  ∧ Forall (λ e, isStorageWrite e = false) (trace r.2).
Proof.
  intros Hfiles Hprompt Hfirst r. subst r.
  unfold run, exec, processFiles.
  rewrite bool_decide_eq_false_2 by (destruct (files s); [done|simpl; lia]).
  rewrite bool_decide_eq_false_2 by done.
  unfold tryCatch.
  do 5 step.
  destruct Hfirst as [e Hcss|raw k file e Hcss Hk Hbefore Hfail].
  - rewrite (generateGlobalCss_fail _ _ _ _ e) by exact Hcss.
    cbv beta iota; cbn [app trace calls].
    do 2 step. rewrite setStatus_run.
    rewrite bool_decide_eq_false_2 by apply cssFailureMsg_nonempty.
    cbn. repeat split; try done. by repeat constructor.
  - rewrite (generateGlobalCss_ok _ _ _ _ raw) by exact Hcss.
    cbv beta iota; cbn [app trace calls].
    destruct (bool_decide (0 < length (validateCss (cleanCodeResponse raw)))%nat);
      do 3 step;
      (match goal with |- context [rewriteLoop _ _ _ _ _ _ _ _ ?w] =>
         destruct (rewriteLoop_fail (length (files s)) (cleanCodeResponse raw)
                     (prompt s) (selectedModel s) (files s) 0%nat [] w k file e)
           as (w' & Hrun & [m Happ] & tr & Htr & Hall)
       end; [exact Hk|exact Hbefore|exact Hfail|]);
      rewrite Hrun; cbv beta iota;
      do 2 step; rewrite setStatus_run;
      rewrite bool_decide_eq_false_2 by apply htmlFailureMsg_nonempty;
      cbn [fst snd app trace]; rewrite Happ, Htr;
      cbn [status results error history localStorage withLocalStorage withHistory
           withStatus withResults withStatusMessage withError];
      (repeat split; try done);
      rewrite !Forall_app; repeat split; try done; by repeat constructor.
Qed.

(** C2. A run started with a file and a non-blank prompt in which some
    gateway request fails (the stylesheet, or any rewrite) ends in [ERROR];
    [error] holds the message thrown for the first failing request;
    [results], the run history and [localStorage] are what they were, and
    nothing is written to storage: rewrites already obtained are kept
    nowhere. *)
Theorem processFiles_gateway_failure_aborts
    (s : AppState) (uuid : jstr) (now : Z) :
  files s ≠ [] →
  trim (prompt s) ≠ [] →
  someGatewayCallFails transport s →
  let r := run (processFiles transport uuid now) s in
  ∃ msg,
    firstGatewayFailure transport s msg
    ∧ r.1 = Normal tt
    ∧ status (app r.2) = ERROR
    ∧ error (app r.2) = Some msg
    ∧ results (app r.2) = results s
    ∧ history (app r.2) = history s
    ∧ localStorage (app r.2) = localStorage s
    ∧ Forall (λ e, isStorageWrite e = false) (trace r.2).
Proof.
  intros Hfiles Hprompt Hfails r.
  destruct (someGatewayCallFails_first s Hfails) as [msg Hfirst].
  exists msg. split; [exact Hfirst|].
  by apply processFiles_first_failure.
Qed.

(** C3, amended. With no input file [processFiles] returns at once and
    changes nothing: no message is set. With a file but a prompt that is
    empty after trimming it sets the validation message and changes
    nothing else. Either way it returns before any status change and
    before any gateway request. *)
Theorem processFiles_invalid_input (s : AppState) (uuid : jstr) (now : Z) :
  files s = [] ∨ trim (prompt s) = [] →
  let r := run (processFiles transport uuid now) s in
  r.1 = Normal tt
  ∧ trace r.2 = []
  ∧ calls r.2 = 0%nat
  ∧ status (app r.2) = status s
  ∧ (files s = [] → app r.2 = s)
  ∧ (files s ≠ [] → app r.2 = withError (Some promptRequiredMsg) s).
Proof.
  intros Hinvalid r. subst r. unfold run, exec, processFiles.
  destruct (files s) as [|f fs] eqn:Hfs.
  - rewrite bool_decide_eq_true_2 by done. cbn. repeat split; done.
  - rewrite bool_decide_eq_false_2 by (simpl; lia).
    destruct Hinvalid as [?|Hblank]; [done|].
    rewrite bool_decide_eq_true_2 by done. cbn. repeat split; done.
Qed.

End PipelineProofs.

Lemma processFiles_warnings_complete_without_record_witness :
  let r := run (processFiles transportWarn (lit "id-1") 1700000000000) twoFiles in
  r.1 = Normal tt
  ∧ status (app r.2) = COMPLETED
  ∧ results (app r.2) = runArtifacts twoFiles (lit "a{b{c}") rawHtmlSample
  ∧ error (app r.2)
    = Some (validationIssuesMsg (validateCss (cleanCodeResponse (lit "a{b{c}"))))
  ∧ (∃ message rest,
       error (app r.2) = Some message
       ∧ message
         = lit "Processing complete, but CSS validation found issues: " ++ rest
       ∧ ∀ finding, finding ∈ validateCss (cleanCodeResponse (lit "a{b{c}")) →
           ∃ before after, rest = before ++ finding ++ after)
  ∧ history (app r.2) = history twoFiles
  ∧ localStorage (app r.2) = localStorage twoFiles
  ∧ Forall (λ e, isStorageWrite e = false) (trace r.2).
Proof.
  apply (processFiles_warnings_complete_without_record transportWarn twoFiles
           (lit "id-1") 1700000000000 (lit "a{b{c}") rawHtmlSample).
  - vm_compute. discriminate.
  - vm_compute. discriminate.
  - split; [reflexivity|]. intros k file Hk. reflexivity.
  - vm_compute. discriminate.
Defined.

Lemma processFiles_clean_run_recorded_witness :
  let r := run (processFiles transportOk (lit "id-1") 1700000000000) twoFiles in
  let newItem :=
    HistoryItem.mk (lit "id-1") 1700000000000 (prompt twoFiles)
      (runArtifacts twoFiles (lit "a{b}") rawHtmlSample) in
  r.1 = Normal tt
  ∧ results (app r.2) = runArtifacts twoFiles (lit "a{b}") rawHtmlSample
  ∧ length (results (app r.2)) = S (length (files twoFiles))
  ∧ history (app r.2) = take HISTORY_LIMIT (newItem :: history twoFiles)
  ∧ ((length (history twoFiles) < 20)%nat
     → history (app r.2) = newItem :: history twoFiles)
  ∧ ((20 ≤ length (history twoFiles))%nat → length (history (app r.2)) = 20%nat)
  ∧ status (app r.2) = COMPLETED
  ∧ error (app r.2) = None
  ∧ Storage.stylemorph_history (localStorage (app r.2))
    = Storage.Holds (history (app r.2)).
Proof.
  apply (processFiles_clean_run_recorded transportOk twoFiles
           (lit "id-1") 1700000000000 (lit "a{b}") rawHtmlSample).
  - vm_compute. discriminate.
  - vm_compute. discriminate.
  - split; [reflexivity|]. intros k file Hk. reflexivity.
  - vm_compute. reflexivity.
Defined.

(** The same run when the browser refuses the write: the artifacts are
    shown and the record is in the log on screen, but the run ends in
    [ERROR] with the browser's message and nothing is persisted. *)
Example processFiles_clean_run_write_refused :
  let r := run (processFiles transportOk (lit "id-1") 1700000000000) twoFilesNoQuota in
  r.1 = Normal tt
  ∧ status (app r.2) = ERROR
  ∧ error (app r.2) = Some (lit "QuotaExceededError")
  ∧ results (app r.2) = runArtifacts twoFiles (lit "a{b}") rawHtmlSample
  ∧ length (history (app r.2)) = 1%nat
  ∧ Storage.stylemorph_history (localStorage (app r.2)) = Storage.Absent.
Proof. vm_compute. repeat split; reflexivity. Qed.

(** The statuses a clean run goes through, and its requests, in order. *)
Example processFiles_clean_run_trace :
  trace (run (processFiles transportOk (lit "id-1") 1700000000000) twoFiles).2
  = [ EStatus ANALYZING; EStatus GENERATING_CSS;
      EGateway 0 (selectedModel twoFiles)
        (CssRequest [file0; file1] (prompt twoFiles));
      EStatus REWRITING_HTML;
      EGateway 1 (selectedModel twoFiles)
        (HtmlRequest file0 (lit "a{b}") (prompt twoFiles));
      EGateway 2 (selectedModel twoFiles)
        (HtmlRequest file1 (lit "a{b}") (prompt twoFiles));
      EStatus COMPLETED;
      EStorage (localStorage
        (invoke (processFiles transportOk (lit "id-1") 1700000000000) twoFiles)) ].
Proof. vm_compute. reflexivity. Qed.

(** C4 as stated fails when the store is full: a clean run on a store
    of 20 records leaves 20 records, not 21. *)
Lemma processFiles_full_store_keeps_20 :
  let r := run (processFiles transportOk (lit "id-21") 1700000000000) fullStore in
  allGatewayCallsSucceed transportOk fullStore (lit "a{b}") rawHtmlSample
  ∧ validateCss (cleanCodeResponse (lit "a{b}")) = []
  ∧ status (app r.2) = COMPLETED
  ∧ length (history fullStore) = 20%nat
  ∧ length (history (app r.2)) = 20%nat
  ∧ length (history (app r.2)) ≠ S (length (history fullStore)).
Proof.
  split; [split; [reflexivity|intros k file Hk; reflexivity]|].
  vm_compute. repeat split; congruence.
Qed.

Lemma processFiles_gateway_failure_aborts_witness :
  let r := run (processFiles transportFailThird (lit "id-1") 1700000000000) twoFiles in
  ∃ msg,
    firstGatewayFailure transportFailThird twoFiles msg
    ∧ r.1 = Normal tt
    ∧ status (app r.2) = ERROR
    ∧ error (app r.2) = Some msg
    ∧ results (app r.2) = results twoFiles
    ∧ history (app r.2) = history twoFiles
    ∧ localStorage (app r.2) = localStorage twoFiles
    ∧ Forall (λ e, isStorageWrite e = false) (trace r.2).
Proof.
  apply (processFiles_gateway_failure_aborts transportFailThird twoFiles
           (lit "id-1") 1700000000000).
  - vm_compute. discriminate.
  - vm_compute. discriminate.
  - right. exists (lit "a{b}"), 1%nat, file1, (lit "503").
    split; [reflexivity|]. split; reflexivity.
Defined.

(** The same run, evaluated: the first rewrite was obtained, the second
    failed; its message is shown and nothing is kept. *)
Example processFiles_second_rewrite_fails :
  let r := run (processFiles transportFailThird (lit "id-1") 1700000000000) twoFiles in
  status (app r.2) = ERROR
  ∧ error (app r.2) = Some (lit "Failed to rewrite HTML for about.html")
  ∧ results (app r.2) = []
  ∧ history (app r.2) = []
  ∧ localStorage (app r.2) = store0
  ∧ calls r.2 = 3%nat.
Proof. vm_compute. repeat split; reflexivity. Qed.

Lemma processFiles_invalid_input_witness :
  let r := run (processFiles transportOk (lit "id-1") 1700000000000) blankPrompt in
  r.1 = Normal tt
  ∧ trace r.2 = []
  ∧ calls r.2 = 0%nat
  ∧ status (app r.2) = status blankPrompt
  ∧ (files blankPrompt = [] → app r.2 = blankPrompt)
  ∧ (files blankPrompt ≠ []
     → app r.2 = withError (Some promptRequiredMsg) blankPrompt).
Proof.
  apply (processFiles_invalid_input transportOk blankPrompt
           (lit "id-1") 1700000000000).
  right. vm_compute. reflexivity.
Defined.

(** C3 as stated fails with zero files: [processFiles] returns without
    setting any message. *)
Lemma processFiles_no_files_sets_no_message :
  let r := run (processFiles transportOk (lit "id-1") 1700000000000) noFiles in
  files noFiles = []
  ∧ r.1 = Normal tt
  ∧ error (app r.2) = None
  ∧ app r.2 = noFiles.
Proof. vm_compute. repeat split; reflexivity. Qed.

(** ** Code fences *)

Example cleanCodeResponse_fenced :
  cleanCodeResponse (lit " ```CSS
a{b}
``` ") = lit "a{b}".
Proof. vm_compute. reflexivity. Qed.

Example cleanCodeResponse_plain : cleanCodeResponse (lit "a{b} ") = lit "a{b}".
Proof. vm_compute. reflexivity. Qed.

Example cleanCodeResponse_five_backticks :
  cleanCodeResponse (lit "`````") = lit "`````".
Proof. vm_compute. reflexivity. Qed.

Example cleanCodeResponse_empty_block : cleanCodeResponse (lit "```html```") = lit "".
Proof. vm_compute. reflexivity. Qed.

(** * Further properties *)

(** ** The validator, in general *)

Lemma occurrences_cons c x s :
  occurrences c (x :: s)
  = ((if (x =? c)%N then 1 else 0) + occurrences c s)%nat.
Proof.
  unfold occurrences. destruct (N.eqb_spec x c) as [->|Hne].
  - by rewrite filter_cons_True.
  - by rewrite filter_cons_False.
Qed.

Lemma braceBalance_cons x s :
  braceBalance (x :: s)
  = (if (x =? 123)%N then 1 else 0) - (if (x =? 125)%N then 1 else 0)
    + braceBalance s.
Proof.
  unfold braceBalance. rewrite !occurrences_cons.
  destruct (x =? 123)%N, (x =? 125)%N; lia.
Qed.

(** The scan from any state with a non-negative counter: counter minus
    findings moves with the brace balance. *)
Lemma validate_fold_balance css : ∀ st,
  0 ≤ st.1 →
  (foldl validateStep st css).1 - Z.of_nat (length (foldl validateStep st css).2)
  = st.1 + braceBalance css - Z.of_nat (length st.2).
Proof.
  induction css as [|c css IH]; intros [d errs] Hd; cbn [foldl fst snd] in *.
  - unfold braceBalance, occurrences. simpl. lia.
  - rewrite IH by (apply validateStep_depth_nonneg; simpl; lia).
    rewrite braceBalance_cons. unfold validateStep. cbn [fst snd].
    destruct (c =? 123)%N eqn:Ho, (c =? 125)%N eqn:Hc;
      try (apply N.eqb_eq in Ho; apply N.eqb_eq in Hc; congruence);
      match goal with |- context [?x <? 0] => destruct (Z.ltb_spec x 0) end;
      cbn [fst snd]; rewrite ?length_app; simpl; lia.
Qed.

Lemma validate_fold_findings_grow css : ∀ st,
  (length st.2 ≤ length (foldl validateStep st css).2)%nat.
Proof.
  induction css as [|c css IH]; intros [d errs]; cbn [foldl fst snd]; [lia|].
  etrans; [|apply IH]. unfold validateStep. cbn [fst snd].
  match goal with |- context [?x <? 0] => destruct (x <? 0) end;
    cbn [snd]; rewrite ?length_app; simpl; lia.
Qed.


Lemma validate_fold_depth_nonneg css : ∀ st,
  0 ≤ st.1 → 0 ≤ (foldl validateStep st css).1.
Proof.
  induction css as [|c css IH]; intros st Hst; simpl; [done|].
  apply IH, validateStep_depth_nonneg, Hst.
Qed.

Lemma validate_fold_clean css : ∀ d errs,
  0 ≤ d →
  (∀ n, 0 ≤ d + braceBalance (take n css)) →
  foldl validateStep (d, errs) css = (d + braceBalance css, errs).
Proof.
  induction css as [|c css IH]; intros d errs Hd Hpre; cbn [foldl].
  - unfold braceBalance, occurrences. simpl. f_equal. lia.
  - pose proof (Hpre 1%nat) as H1. cbn [take] in H1.
    rewrite braceBalance_cons in H1. rewrite braceBalance_cons.
    assert (Hnil : braceBalance [] = 0) by reflexivity.
    rewrite take_0, Hnil in H1.
    assert (Hstep : validateStep (d, errs) c
              = (d + ((if (c =? 123)%N then 1 else 0)
                      - (if (c =? 125)%N then 1 else 0)), errs)).
    { unfold validateStep. cbn [fst snd].
      destruct (c =? 123)%N eqn:Ho, (c =? 125)%N eqn:Hc;
        try (apply N.eqb_eq in Ho; apply N.eqb_eq in Hc; congruence);
        match goal with |- context [?x <? 0] => destruct (Z.ltb_spec x 0) end;
        try lia; f_equal; lia. }
    rewrite Hstep, IH.
    + f_equal. lia.
    + lia.
    + intros n. specialize (Hpre (S n)). cbn [take] in Hpre.
      rewrite braceBalance_cons in Hpre. lia.
Qed.

Lemma validate_fold_prefixes css d errs :
  0 ≤ d →
  (foldl validateStep (d, errs) css).2 = errs →
  ∀ n, 0 ≤ d + braceBalance (take n css).
Proof.
  intros Hd Hsame n.
  rewrite <- (take_drop n css), foldl_app in Hsame.
  pose proof (validate_fold_findings_grow (take n css) (d, errs)) as Hlo.
  pose proof (validate_fold_findings_grow (drop n css)
                (foldl validateStep (d, errs) (take n css))) as Hhi.
  rewrite Hsame in Hhi. cbn [snd] in Hlo.
  pose proof (validate_fold_balance (take n css) (d, errs) Hd) as Hbal.
  pose proof (validate_fold_depth_nonneg (take n css) (d, errs) Hd) as Hnn.
  cbn [fst snd] in Hbal. lia.
Qed.

Lemma trimStart_all_space s :
  Forall (λ c, isWhiteSpace c = true) s → trimStart s = [].
Proof. induction 1 as [|c s Hc _ IH]; simpl; [done|]. by rewrite Hc. Qed.

Lemma trimStart_nil s :
  trimStart s = [] → Forall (λ c, isWhiteSpace c = true) s.
Proof.
  induction s as [|c s IH]; simpl; [constructor|].
  destruct (isWhiteSpace c) eqn:Hc; [|discriminate]. intros H. by constructor; auto.
Qed.

(** [trimStart] drops a run of white space and stops at the first other
    code unit. *)
Lemma trimStart_split s :
  ∃ p, s = p ++ trimStart s ∧ Forall (λ c, isWhiteSpace c = true) p
       ∧ (trimStart s = [] ∨ ∃ c r, trimStart s = c :: r ∧ isWhiteSpace c = false).
Proof.
  induction s as [|c s (p & Hs & Hp & Hhead)]; simpl.
  - exists []. split; [done|]. split; [constructor|by left].
  - destruct (isWhiteSpace c) eqn:Hc.
    + exists (c :: p). split; [by rewrite Hs at 1|]. split; [by constructor|done].
    + exists []. split; [done|]. split; [constructor|]. right. eauto.
Qed.

Lemma trimStart_head c r : isWhiteSpace c = false → trimStart (c :: r) = c :: r.
Proof. intros H. simpl. by rewrite H. Qed.

Lemma trimStart_app_space p s :
  Forall (λ c, isWhiteSpace c = true) p → trimStart (p ++ s) = trimStart s.
Proof. induction 1 as [|c p Hc _ IH]; simpl; [done|]. by rewrite Hc. Qed.

Lemma trimStart_idemp s : trimStart (trimStart s) = trimStart s.
Proof.
  destruct (trimStart_split s) as (p & _ & _ & [->|(c & r & -> & Hc)]); [done|].
  by apply trimStart_head.
Qed.

Lemma trimStart_app_nonempty c r q :
  isWhiteSpace c = false → trimStart ((c :: r) ++ q) = (c :: r) ++ q.
Proof. intros H. simpl. by rewrite H. Qed.

Lemma trimEnd_app_space s q :
  Forall (λ c, isWhiteSpace c = true) q → trimEnd (s ++ q) = trimEnd s.
Proof.
  intros Hq. unfold trimEnd. rewrite reverse_app, trimStart_app_space; [done|].
  by apply Forall_reverse.
Qed.

Lemma trimEnd_idemp s : trimEnd (trimEnd s) = trimEnd s.
Proof. unfold trimEnd. by rewrite reverse_involutive, trimStart_idemp. Qed.

Lemma trim_nil_iff s : trim s = [] ↔ Forall (λ c, isWhiteSpace c = true) s.
Proof.
  unfold trim, trimEnd. split.
  - intros H. apply (f_equal reverse) in H.
    rewrite reverse_involutive, reverse_nil in H.
    apply trimStart_nil, Forall_reverse in H. rewrite reverse_involutive in H.
    apply trimStart_nil.
    destruct (trimStart_split s) as (p & _ & _ & [Hnil|(c & r & Hcr & Hc)]); [done|].
    rewrite Hcr in H. apply Forall_cons_1 in H as [Hc' _]. congruence.
  - intros H. by rewrite (trimStart_all_space s H).
Qed.

Lemma validate_fold_space css : ∀ st,
  Forall (λ c, isWhiteSpace c = true) css →
  0 ≤ st.1 → foldl validateStep st css = st.
Proof.
  induction css as [|c css IH]; intros [d errs] Hws Hd; cbn [foldl]; [done|].
  apply Forall_cons_1 in Hws as [Hc Hws].
  assert (Hstep : validateStep (d, errs) c = (d, errs)).
  { unfold validateStep. cbn [fst snd] in *.
    destruct (N.eqb_spec c 123) as [->|_]; [discriminate Hc|].
    destruct (N.eqb_spec c 125) as [->|_]; [discriminate Hc|].
    destruct (Z.ltb_spec d 0); [lia|done]. }
  rewrite Hstep. by apply IH.
Qed.

Lemma blank_test css :
  bool_decide (css = []) || (length (trim css) =? 0)%nat
  = bool_decide (trim css = []).
Proof.
  destruct css as [|c css]; [done|]. cbn [orb bool_decide decide_rel].
  rewrite bool_decide_eq_false_2 by done. cbn [orb].
  destruct (trim (c :: css)) as [|x t]; [done|].
  by rewrite bool_decide_eq_false_2.
Qed.

(** X1. What the scan is left with: the residual counter minus the number
    of extra-closing-brace findings is the number of opening braces minus
    the number of closing braces. *)
Theorem validateScan_counter_minus_findings (css : jstr) :
  (validateScan css).1 - Z.of_nat (length (validateScan css).2)
  = Z.of_nat (occurrences 123 css) - Z.of_nat (occurrences 125 css).
Proof.
  unfold validateScan. rewrite validate_fold_balance by (simpl; lia).
  unfold braceBalance. simpl. lia.
Qed.

(** X2. The validator reports nothing exactly for the texts that are not
    blank and whose braces are balanced: no prefix closes more than it
    opened, and the whole text closes as many as it opened. *)
Theorem validateCss_clean_iff_balanced (css : jstr) :
  validateCss css = []
  ↔ trim css ≠ []
    ∧ (∀ n, (occurrences 125 (take n css) ≤ occurrences 123 (take n css))%nat)
    ∧ occurrences 125 css = occurrences 123 css.
Proof.
  rewrite validateCss_findings, blank_test. unfold validateScan. split.
  - intros H. apply app_eq_nil in H as [Hext H]. apply app_eq_nil in H as [Hmiss Hblank].
    pose proof (validate_fold_prefixes css 0 [] ltac:(lia) Hext) as Hpre.
    rewrite (validate_fold_clean css 0 [] ltac:(lia) Hpre) in Hmiss.
    cbn [fst] in Hmiss.
    split; [|split].
    + case_bool_decide; [discriminate|done].
    + intros n. specialize (Hpre n). unfold braceBalance in Hpre. lia.
    + specialize (Hpre (length css)). rewrite take_ge in Hpre by lia.
      destruct (Z.ltb_spec 0 (0 + braceBalance css)); [discriminate|].
      unfold braceBalance in *. lia.
  - intros (Hblank & Hpre & Htot).
    rewrite (validate_fold_clean css 0 []); [| lia |].
    + cbn [fst snd]. rewrite bool_decide_eq_false_2 by done.
      destruct (Z.ltb_spec 0 (0 + braceBalance css)) as [Hlt|_]; [|done].
      unfold braceBalance in Hlt. lia.
    + intros n. specialize (Hpre n). unfold braceBalance. lia.
Qed.

Lemma validateCss_clean_iff_balanced_witness :
  trim (lit "a{b}") ≠ []
  ∧ (∀ n, (occurrences 125 (take n (lit "a{b}"))
           ≤ occurrences 123 (take n (lit "a{b}")))%nat)
  ∧ occurrences 125 (lit "a{b}") = occurrences 123 (lit "a{b}").
Proof.
  apply (proj1 (validateCss_clean_iff_balanced (lit "a{b}"))).
  vm_compute. reflexivity.
Defined.

(** X3. A text of white space only (the empty text included) gets the
    empty-output finding and nothing else. *)
Theorem validateCss_blank (css : jstr) :
  Forall (λ c, isWhiteSpace c = true) css →
  validateCss css = [emptyCssMsg].
Proof.
  intros Hws. rewrite validateCss_findings, blank_test. unfold validateScan.
  rewrite validate_fold_space by (done || simpl; lia). cbn [fst snd].
  rewrite bool_decide_eq_true_2 by by apply trim_nil_iff. done.
Qed.

Lemma validateCss_blank_witness :
  validateCss (lit " 
 ") = [emptyCssMsg].
Proof. apply validateCss_blank. by repeat constructor. Defined.

Lemma validate_fold_closing (n : nat) errors :
  foldl validateStep (Z.of_nat n, errors) (replicate n 125%N) = (0, errors).
Proof.
  induction n as [|n IH]; [done|].
  cbn [replicate foldl]. by rewrite validateStep_close_matched.
Qed.

(** X4. The missing-brace count is exact: a text that is not blank, with
    as many closing braces appended as the scan has left open, is
    reported with the same extra-closing-brace findings and nothing
    else. *)
Theorem validateCss_append_missing_braces (css : jstr) :
  trim css ≠ [] →
  validateCss (css ++ replicate (Z.to_nat (validateScan css).1) 125%N)
  = (validateScan css).2.
Proof.
  intros Hblank. rewrite validateCss_findings, blank_test.
  pose proof (validateScan_depth_nonneg css) as Hnn.
  unfold validateScan in *. rewrite foldl_app.
  destruct (foldl validateStep (0, []) css) as [d errs]. cbn [fst snd] in *.
  destruct (Z_of_nat_complete d Hnn) as [n ->]. rewrite Nat2Z.id.
  rewrite validate_fold_closing. cbn [fst snd].
  rewrite bool_decide_eq_false_2; [by rewrite !app_nil_r|].
  rewrite trim_nil_iff. intros H. apply Forall_app in H as [H _].
  by apply Hblank, trim_nil_iff.
Qed.

Lemma validateCss_append_missing_braces_witness :
  validateCss (lit "a}b{c{" ++ replicate (Z.to_nat (validateScan (lit "a}b{c{")).1) 125%N)
  = (validateScan (lit "a}b{c{")).2.
Proof.
  apply (validateCss_append_missing_braces (lit "a}b{c{")).
  vm_compute. discriminate.
Defined.

(** ** Trimming and code fences, in general *)

Lemma trimEnd_keeps_head c r :
  isWhiteSpace c = false → ∃ r', trimEnd (c :: r) = c :: r'.
Proof.
  intros Hc. unfold trimEnd.
  destruct (trimStart_split (reverse (c :: r))) as (p & Hs & Hp & Hhead).
  apply (f_equal reverse) in Hs.
  rewrite reverse_involutive, reverse_app in Hs.
  destruct (reverse (trimStart (reverse (c :: r)))) as [|x u] eqn:Hu.
  - simpl in Hs. apply Forall_reverse in Hp. rewrite <- Hs in Hp.
    apply Forall_cons_1 in Hp as [Hc' _]. congruence.
  - simpl in Hs. injection Hs as -> _. eauto.
Qed.

Lemma trimStart_trimEnd s :
  trimStart s = s → trimStart (trimEnd s) = trimEnd s.
Proof.
  intros Hs. destruct (trimStart_split s) as (_ & _ & _ & [Hnil|(c & r & Hcr & Hc)]).
  - rewrite Hs in Hnil. by subst.
  - rewrite Hs in Hcr. subst s.
    destruct (trimEnd_keeps_head c r Hc) as [r' ->]. by apply trimStart_head.
Qed.

Lemma trimStart_trim s : trimStart (trim s) = trim s.
Proof. apply trimStart_trimEnd, trimStart_idemp. Qed.

Lemma trimEnd_trim s : trimEnd (trim s) = trim s.
Proof. apply trimEnd_idemp. Qed.

Lemma trim_idemp s : trim (trim s) = trim s.
Proof. unfold trim at 1. by rewrite trimStart_trim, trimEnd_trim. Qed.

(** X5. Whatever the model answers, the cleaned text has no white space
    at either end: trimming it again changes nothing. *)
Theorem cleanCodeResponse_trimmed (text : jstr) :
  trim (cleanCodeResponse text) = cleanCodeResponse text.
Proof.
  unfold cleanCodeResponse.
  destruct (stripPrefix fence (trim text)) as [rest|]; [|apply trim_idemp].
  destruct (stripSuffix fence (stripLanguageTag rest)) as [body|];
    apply trim_idemp.
Qed.

Lemma trim_padded p x q :
  Forall (λ c, isWhiteSpace c = true) p →
  Forall (λ c, isWhiteSpace c = true) q →
  trimStart x = x → trimEnd x = x →
  trim (p ++ x ++ q) = x.
Proof.
  intros Hp Hq Hstart Hend. unfold trim. rewrite trimStart_app_space by done.
  destruct (trimStart_split x) as (_ & _ & _ & [Hnil|(c & r & Hcr & Hc)]);
    rewrite Hstart in *; subst x.
  - simpl. by rewrite (trimStart_all_space q Hq).
  - rewrite trimStart_app_nonempty by done. rewrite trimEnd_app_space by done.
    exact Hend.
Qed.

Lemma stripPrefix_app a s : stripPrefix a (a ++ s) = Some s.
Proof. induction a as [|x a IH]; [by destruct s|]. simpl. by rewrite N.eqb_refl. Qed.

Lemma stripSuffix_app a s : stripSuffix a (s ++ a) = Some s.
Proof.
  unfold stripSuffix. rewrite reverse_app, stripPrefix_app. simpl.
  by rewrite reverse_involutive.
Qed.

Lemma fence_units : fence = [96; 96; 96]%N.
Proof. reflexivity. Qed.

Lemma stripLanguageTag_css s : stripLanguageTag (lit "css" ++ s) = s.
Proof.
  change (lit "css") with [99; 115; 115]%N. unfold stripLanguageTag.
  change (lit "html") with [104; 116; 109; 108]%N.
  by destruct s.
Qed.

Lemma stripLanguageTag_html s : stripLanguageTag (lit "html" ++ s) = s.
Proof.
  change (lit "html") with [104; 116; 109; 108]%N. unfold stripLanguageTag.
  change (lit "html") with [104; 116; 109; 108]%N.
  by destruct s.
Qed.

Lemma asciiLower_space g :
  isWhiteSpace g = true → asciiLower g ≠ 104%N ∧ asciiLower g ≠ 99%N.
Proof.
  intros Hg. unfold asciiLower.
  destruct ((65 <=? g) && (g <=? 90))%N eqn:Hup.
  - split; intros H;
      [assert (g = 72%N) as -> by lia|assert (g = 67%N) as -> by lia];
      discriminate Hg.
  - split; intros ->; discriminate Hg.
Qed.

Lemma stripLanguageTag_space g s :
  isWhiteSpace g = true → stripLanguageTag (g :: s) = g :: s.
Proof.
  intros Hg. destruct (asciiLower_space g Hg) as [Hh Hc].
  unfold stripLanguageTag.
  change (lit "html") with [104; 116; 109; 108]%N.
  change (lit "css") with [99; 115; 115]%N.
  cbn [take fmap list_fmap stripPrefix].
  rewrite (proj2 (N.eqb_neq 104 (asciiLower g))) by done.
  by rewrite (proj2 (N.eqb_neq 99 (asciiLower g))) by done.
Qed.

(** X6. A fenced block comes back as its content: for a text made of a
    fence, the tag [css] or [html] (or no tag, then followed by white
    space), the content with white space around it, and the closing
    fence, possibly with white space around the whole, the cleaned text
    is the trimmed content. *)
Theorem cleanCodeResponse_fenced_block (p q gap1 gap2 tag body : jstr) :
  Forall (λ c, isWhiteSpace c = true) p →
  Forall (λ c, isWhiteSpace c = true) q →
  Forall (λ c, isWhiteSpace c = true) gap1 →
  Forall (λ c, isWhiteSpace c = true) gap2 →
  tag = lit "css" ∨ tag = lit "html" ∨ (tag = [] ∧ gap1 ≠ []) →
  cleanCodeResponse
    (p ++ (fence ++ tag ++ gap1 ++ trim body ++ gap2 ++ fence) ++ q)
  = trim body.
Proof.
  intros Hp Hq Hg1 Hg2 Htag. unfold cleanCodeResponse.
  rewrite (trim_padded p _ q Hp Hq).
  - rewrite stripPrefix_app.
    assert (Hstrip : stripLanguageTag (tag ++ gap1 ++ trim body ++ gap2 ++ fence)
                     = gap1 ++ trim body ++ gap2 ++ fence).
    { destruct Htag as [->|[->|[-> Hne]]].
      - apply stripLanguageTag_css.
      - apply stripLanguageTag_html.
      - destruct gap1 as [|g gap1]; [done|].
        apply Forall_cons_1 in Hg1 as [Hg _]. by apply stripLanguageTag_space. }
    rewrite Hstrip.
    replace (gap1 ++ trim body ++ gap2 ++ fence)
      with ((gap1 ++ trim body ++ gap2) ++ fence) by by rewrite <- !app_assoc.
    rewrite stripSuffix_app.
    apply trim_padded; [done|done|apply trimStart_trim|apply trimEnd_trim].
  - by rewrite fence_units.
  - unfold trimEnd.
    replace (fence ++ tag ++ gap1 ++ trim body ++ gap2 ++ fence)
      with ((fence ++ tag ++ gap1 ++ trim body ++ gap2) ++ fence)
      by by rewrite <- !app_assoc.
    rewrite reverse_app, fence_units.
    change (reverse [96; 96; 96]%N) with [96; 96; 96]%N.
    rewrite trimStart_app_nonempty by done.
    change [96; 96; 96]%N with (reverse [96; 96; 96]%N) at 1.
    by rewrite <- reverse_app, reverse_involutive.
Qed.

Lemma cleanCodeResponse_fenced_block_witness :
  cleanCodeResponse
    (lit " " ++ (fence ++ lit "css" ++ lit "
" ++ trim (lit " a{b} ") ++ lit "
" ++ fence) ++ lit "
")
  = trim (lit " a{b} ").
Proof.
  apply (cleanCodeResponse_fenced_block (lit " ") (lit "
") (lit "
") (lit "
") (lit "css") (lit " a{b} ")); [by repeat constructor ..|by left].
Defined.

Lemma trimStart_elem x s : x ∈ trimStart s → x ∈ s.
Proof.
  destruct (trimStart_split s) as (p & Hs & _). intros H. rewrite Hs.
  apply elem_of_app. by right.
Qed.

Lemma trim_elem x s : x ∈ trim s → x ∈ s.
Proof.
  unfold trim, trimEnd. rewrite elem_of_reverse. intros H.
  apply trimStart_elem in H. rewrite elem_of_reverse in H.
  by apply trimStart_elem.
Qed.

(** X7. An answer without any backtick is only trimmed. *)
Theorem cleanCodeResponse_plain_text (text : jstr) :
  96%N ∉ text → cleanCodeResponse text = trim text.
Proof.
  intros Hno. unfold cleanCodeResponse.
  destruct (trim text) as [|c r] eqn:Ht; [done|].
  rewrite fence_units. cbn [stripPrefix].
  destruct (N.eqb_spec 96 c) as [<-|_]; [|done].
  exfalso. apply Hno, trim_elem. rewrite Ht. apply list_elem_of_here.
Qed.

Lemma cleanCodeResponse_plain_text_witness :
  cleanCodeResponse (lit " body{margin:0} ") = trim (lit " body{margin:0} ").
Proof.
  apply cleanCodeResponse_plain_text. vm_compute.
  intros H. apply list_elem_of_In in H. simpl in H.
  repeat (destruct H as [H|H]; [discriminate H|]). exact H.
Defined.

(** ** The pipeline against any gateway *)

Section PipelineInGeneral.

Variable transport : nat → AIModel.t → Request → Completion jstr.

(** The loop, whatever the gateway answers: it only moves the status
    message, writes nothing to storage, makes at most one request per
    remaining file, and ends with all the artifacts or with a message. *)
Lemma rewriteLoop_any total cssContent p model remaining :
  ∀ i acc w,
  ∃ c w',
    rewriteLoop transport total cssContent p model i remaining acc w = (c, w')
    ∧ sameButMessage (app w) (app w')
    ∧ (∃ tr, trace w' = trace w ++ tr ∧ Forall (λ e, isStorageWrite e = false) tr)
    ∧ (calls w' ≤ calls w + length remaining)%nat
    ∧ match c with
      | Normal l =>
          length l = (length acc + length remaining)%nat
          ∧ calls w' = (calls w + length remaining)%nat
          ∧ (ProcessedFile.fileName <$> l)
            = (ProcessedFile.fileName <$> acc) ++ (UploadedFile.name <$> remaining)
      | Throw m => m ≠ []
      end.
Proof.
  induction remaining as [|file remaining IH]; intros i acc w.
  - exists (Normal acc), w. cbn [rewriteLoop]. split; [done|].
    split; [apply sameButMessage_refl|].
    split; [exists []; by rewrite app_nil_r|].
    split; [simpl; lia|]. simpl. rewrite Nat.add_0_r, app_nil_r. done.
  - cbn [rewriteLoop]. rewrite bind_run. cbn [setStatusMessage modify].
    rewrite bind_run.
    destruct (transport (calls w) model (HtmlRequest file cssContent p))
      as [raw|e] eqn:Hcall.
    + rewrite (rewriteHtmlFile_ok transport _ _ _ _ _ raw) by exact Hcall.
      cbn [calls app trace].
      edestruct (IH (S i) (acc ++ [ProcessedFile.mk (UploadedFile.name file)
                                     (cleanCodeResponse raw) html]))
        as (c & w' & Hrun & Hsame & (tr & Htr & Hall) & Hcalls & Hc).
      rewrite Hrun. exists c, w'. split; [done|]. cbn [app trace calls] in *.
      split; [destruct Hsame as [m ->]; by exists m|].
      split.
      { exists (EGateway (calls w) model (HtmlRequest file cssContent p) :: tr).
        split; [by rewrite Htr, <- app_assoc|]. by constructor. }
      split; [simpl; lia|].
      destruct c as [l|m]; [|done].
      destruct Hc as (Hlen & Hcnt & Hnames).
      rewrite length_app in Hlen. simpl in *.
      split; [lia|]. split; [lia|].
      by rewrite Hnames, fmap_app, <- app_assoc.
    + rewrite (rewriteHtmlFile_fail transport _ _ _ _ _ e) by exact Hcall.
      eexists _, _. split; [reflexivity|]. cbn [app trace calls].
      split; [apply sameButMessage_set, sameButMessage_refl|].
      split; [eexists; split; [by rewrite <- app_assoc|by repeat constructor]|].
      split; [simpl; lia|]. unfold htmlFailureMsg. vm_compute. discriminate.
Qed.

Lemma failureShown_nonempty (message : jstr) :
  (if bool_decide (message = []) then processingFailedMsg else message) ≠ [].
Proof. case_bool_decide; [vm_compute; discriminate|done]. Qed.

(** Every way a run on valid input can end: a request failed; or every
    request was answered and the run completed, with warnings or with the
    record persisted; or every request was answered, the stylesheet was
    clean, and the write of the log was refused. *)
Lemma processFiles_cases (s : AppState) (uuid : jstr) (now : Z) :
  files s ≠ [] →
  trim (prompt s) ≠ [] →
  let r := run (processFiles transport uuid now) s in
  r.1 = Normal tt
  ∧ sameInputs s (app r.2)
  ∧ (calls r.2 ≤ 1 + length (files s))%nat
  ∧ ((status (app r.2) = ERROR
      ∧ (∃ msg, error (app r.2) = Some msg ∧ msg ≠ [])
      ∧ results (app r.2) = results s
      ∧ history (app r.2) = history s
      ∧ localStorage (app r.2) = localStorage s)
     ∨ (calls r.2 = (1 + length (files s))%nat
        ∧ ∃ cssContent,
            cssCall transport s = Normal cssContent
            ∧ (ProcessedFile.fileName <$> results (app r.2))
              = lit "style.css" :: (UploadedFile.name <$> files s)
            ∧ head (results (app r.2))
              = Some (ProcessedFile.mk (lit "style.css")
                        (cleanCodeResponse cssContent) css)
            ∧ ((status (app r.2) = COMPLETED
                ∧ validateCss (cleanCodeResponse cssContent) ≠ []
                ∧ error (app r.2)
                  = Some (validationIssuesMsg
                            (validateCss (cleanCodeResponse cssContent)))
                ∧ history (app r.2) = history s
                ∧ localStorage (app r.2) = localStorage s)
               ∨ (validateCss (cleanCodeResponse cssContent) = []
                  ∧ history (app r.2)
                    = take HISTORY_LIMIT
                        (HistoryItem.mk uuid now (prompt s) (results (app r.2))
                         :: history s)
                  ∧ ((status (app r.2) = COMPLETED
                      ∧ error (app r.2) = None
                      ∧ Storage.nextError (localStorage s) = None
                      ∧ localStorage (app r.2)
                        = Storage.putHistory (history (app r.2)) (localStorage s))
                     ∨ (status (app r.2) = ERROR
                        ∧ (∃ msg, error (app r.2) = Some msg ∧ msg ≠ [])
                        ∧ Storage.nextError (localStorage s) ≠ None
                        ∧ localStorage (app r.2)
                          = Storage.refused (localStorage s))))))).
Proof.
  intros Hfiles Hprompt r. subst r.
  unfold run, exec, processFiles.
  rewrite bool_decide_eq_false_2 by (destruct (files s); [done|simpl; lia]).
  rewrite bool_decide_eq_false_2 by done.
  unfold tryCatch.
  do 5 step.
  destruct (transport 0%nat (selectedModel s) (CssRequest (files s) (prompt s)))
    as [raw|e] eqn:Hcss.
  - rewrite (generateGlobalCss_ok transport _ _ _ _ raw) by exact Hcss.
    cbv beta iota; cbn [app trace calls].
    destruct (validateCss (cleanCodeResponse raw)) as [|v vs] eqn:Hval.
    + rewrite !bool_decide_eq_false_2 by (simpl; lia).
      do 3 step.
      match goal with |- context [rewriteLoop _ _ _ _ _ _ ?rem ?acc ?w] =>
        destruct (rewriteLoop_any (length (files s)) (cleanCodeResponse raw)
                    (prompt s) (selectedModel s) rem 0%nat acc w)
          as (c & w' & Hrun & [m Happ] & (tr & Htr & Hall) & Hcalls & Hc)
      end.
      rewrite Hrun. cbn [calls] in *. destruct c as [l|msg].
      * destruct Hc as (Hlen & Hcnt & Hnames). cbv beta iota.
        do 2 step. rewrite saveToHistory_run. cbv zeta. cbn [app]. rewrite Happ.
        cbn [app localStorage withStatus withResults withStatusMessage withError].
        destruct (Storage.nextError (localStorage s)) as [message|] eqn:Hq;
          cbv beta iota.
        -- do 2 step. rewrite setStatus_run.
           cbn [fst snd app trace calls status results error history localStorage
                withLocalStorage withHistory withStatus withResults
                withStatusMessage withError selectedModel files prompt templates
                inputHistory historyIndex isUndoing debounceTimer].
           split; [done|]. split; [by repeat split|]. split; [lia|].
           right. split; [lia|].
           exists raw. split; [done|]. split; [by rewrite fmap_cons, Hnames|].
           split; [done|]. right. rewrite Hval. split; [done|]. split; [done|].
           right. split; [done|]. split; [|done].
           eexists. split; [done|]. apply failureShown_nonempty.
        -- cbn [fst snd app trace calls status results error history localStorage
                withLocalStorage withHistory withStatus withResults
                withStatusMessage withError selectedModel files prompt templates
                inputHistory historyIndex isUndoing debounceTimer].
           split; [done|]. split; [by repeat split|]. split; [lia|].
           right. split; [lia|].
           exists raw. split; [done|]. split; [by rewrite fmap_cons, Hnames|].
           split; [done|]. right. rewrite Hval. split; [done|]. split; [done|].
           by left.
      * cbv beta iota. do 2 step. rewrite setStatus_run.
        rewrite bool_decide_eq_false_2 by done.
        cbn [fst snd app trace calls]. rewrite Happ.
        cbn [status results error history localStorage withLocalStorage
             withHistory withStatus withResults withStatusMessage withError
             selectedModel files prompt templates inputHistory historyIndex
             isUndoing debounceTimer].
        split; [done|]. split; [by repeat split|]. split; [lia|].
        left. repeat split; try done. eauto.
    + rewrite !bool_decide_eq_true_2 by (simpl; lia).
      do 3 step.
      match goal with |- context [rewriteLoop _ _ _ _ _ _ ?rem ?acc ?w] =>
        destruct (rewriteLoop_any (length (files s)) (cleanCodeResponse raw)
                    (prompt s) (selectedModel s) rem 0%nat acc w)
          as (c & w' & Hrun & [m Happ] & (tr & Htr & Hall) & Hcalls & Hc)
      end.
      rewrite Hrun. cbn [calls] in *. destruct c as [l|msg].
      * destruct Hc as (Hlen & Hcnt & Hnames). cbv beta iota.
        do 2 step. cbn [fst snd app trace calls]. rewrite Happ.
        cbn [status results error history localStorage withLocalStorage
             withHistory withStatus withResults withStatusMessage withError
             selectedModel files prompt templates inputHistory historyIndex
             isUndoing debounceTimer].
        split; [done|]. split; [by repeat split|]. split; [lia|].
        right. split; [lia|].
        exists raw. split; [done|]. split; [by rewrite fmap_cons, Hnames|].
        split; [done|]. left. by rewrite Hval.
      * cbv beta iota. do 2 step. rewrite setStatus_run.
        rewrite bool_decide_eq_false_2 by done.
        cbn [fst snd app trace calls]. rewrite Happ.
        cbn [status results error history localStorage withLocalStorage
             withHistory withStatus withResults withStatusMessage withError
             selectedModel files prompt templates inputHistory historyIndex
             isUndoing debounceTimer].
        split; [done|]. split; [by repeat split|]. split; [lia|].
        left. repeat split; try done. eauto.
  - rewrite (generateGlobalCss_fail transport _ _ _ _ e) by exact Hcss.
    cbv beta iota; cbn [app trace calls].
    do 2 step. rewrite setStatus_run.
    rewrite bool_decide_eq_false_2 by apply cssFailureMsg_nonempty.
    cbn [fst snd app trace calls].
    cbn [status results error history localStorage withLocalStorage
         withHistory withStatus withResults withStatusMessage withError
         selectedModel files prompt templates inputHistory historyIndex
         isUndoing debounceTimer].
    split; [done|]. split; [by repeat split|]. split; [lia|].
    left. repeat split; try done. eexists. split; [done|].
    apply cssFailureMsg_nonempty.
Qed.

Lemma sameInputs_refl a : sameInputs a a.
Proof. by repeat split. Qed.

(** A run on any input, valid or not, against any gateway: the log is
    left alone, or it gets one record in front and is cut to its limit,
    and then either the write returned and the run completed without
    message, or the write was refused and the run ended in [ERROR]. *)
Lemma processFiles_any_input (s : AppState) (uuid : jstr) (now : Z) :
  let r := run (processFiles transport uuid now) s in
  r.1 = Normal tt
  ∧ sameInputs s (app r.2)
  ∧ (history (app r.2) = history s ∧ localStorage (app r.2) = localStorage s
     ∨ (∃ item, history (app r.2) = take HISTORY_LIMIT (item :: history s))
       ∧ (status (app r.2) = COMPLETED ∧ error (app r.2) = None
          ∧ Storage.nextError (localStorage s) = None
          ∧ localStorage (app r.2)
            = Storage.putHistory (history (app r.2)) (localStorage s)
          ∨ status (app r.2) = ERROR
            ∧ Storage.nextError (localStorage s) ≠ None
            ∧ localStorage (app r.2) = Storage.refused (localStorage s))).
Proof.
  destruct (files s) as [|f fs] eqn:Hfs.
  - unfold run, exec, processFiles. rewrite Hfs.
    rewrite bool_decide_eq_true_2 by done. cbn.
    split; [done|]. split; [apply sameInputs_refl|by left].
  - destruct (trim (prompt s)) as [|c t] eqn:Hp.
    + unfold run, exec, processFiles. rewrite Hfs, Hp.
      rewrite bool_decide_eq_false_2 by (simpl; lia).
      rewrite bool_decide_eq_true_2 by done. cbn.
      split; [done|]. split; [by repeat split|by left].
    + destruct (processFiles_cases s uuid now) as (Hres & Hin & _ & Hcases).
      { by rewrite Hfs. }
      { by rewrite Hp. }
      split; [done|]. split; [done|].
      destruct Hcases as [(_ & _ & _ & Hh & Hl)
                         |(_ & raw & _ & _ & _
                           & [(_ & _ & _ & Hh & Hl)
                             |(_ & Hh & [(Hst & He & Hq & Hl)|(Hst & _ & Hq & Hl)])])].
      * by left.
      * by left.
      * right. split; [eauto|]. by left.
      * right. split; [eauto|]. by right.
Qed.

(** X8. A run on valid input always settles, whatever the gateway does:
    [processFiles] returns normally, the status ends as [COMPLETED] or
    [ERROR], never in between, and at most one request per file plus one
    was made. *)
Theorem processFiles_settles (s : AppState) (uuid : jstr) (now : Z) :
  files s ≠ [] →
  trim (prompt s) ≠ [] →
  let r := run (processFiles transport uuid now) s in
  r.1 = Normal tt
  ∧ (status (app r.2) = COMPLETED ∨ status (app r.2) = ERROR)
  ∧ (calls r.2 ≤ 1 + length (files s))%nat
  ∧ (status (app r.2) = COMPLETED → calls r.2 = (1 + length (files s))%nat).
Proof.
  intros Hfiles Hprompt r.
  destruct (processFiles_cases s uuid now Hfiles Hprompt)
    as (Hres & _ & Hcalls
        & [(Hst & _)|(Hn & _ & _ & _ & _ & [(Hst & _)|(_ & _ & [(Hst & _)|(Hst & _)])])]);
    fold r in Hres, Hcalls, Hst; try fold r in Hn.
  - split; [done|]. split; [by right|]. split; [done|]. rewrite Hst. done.
  - split; [done|]. split; [by left|]. split; [lia|done].
  - split; [done|]. split; [by left|]. split; [lia|done].
  - split; [done|]. split; [by right|]. split; [lia|done].
Qed.

(** X9. A run never touches the input side: the files, the prompt, the
    undo history and its cursor, the templates and the selected model are
    after the run what they were before, for every input and gateway. *)
Theorem processFiles_keeps_inputs (s : AppState) (uuid : jstr) (now : Z) :
  let s' := invoke (processFiles transport uuid now) s in
  files s' = files s ∧ prompt s' = prompt s
  ∧ inputHistory s' = inputHistory s ∧ historyIndex s' = historyIndex s
  ∧ templates s' = templates s ∧ selectedModel s' = selectedModel s.
Proof.
  destruct (processFiles_any_input s uuid now)
    as (_ & (Hm & Hf & Hp & Ht & Hih & Hi & _) & _).
  by repeat split.
Qed.

(** X10. The run log changes only with a clean pass. If a run changes
    what [localStorage] holds, it ended in [COMPLETED] without message.
    If it changes the log on screen, then either it ended in [COMPLETED]
    without message, or it ended in [ERROR] because the write of the log
    was refused, and then [localStorage] holds what it held. *)
Theorem processFiles_record_only_when_clean (s : AppState) (uuid : jstr) (now : Z) :
  let s' := invoke (processFiles transport uuid now) s in
  (Storage.stylemorph_history (localStorage s')
     ≠ Storage.stylemorph_history (localStorage s)
   ∨ Storage.stylemorph_templates (localStorage s')
     ≠ Storage.stylemorph_templates (localStorage s) →
   status s' = COMPLETED ∧ error s' = None)
  ∧ (history s' ≠ history s →
     status s' = COMPLETED ∧ error s' = None
     ∨ status s' = ERROR
       ∧ Storage.nextError (localStorage s) ≠ None
       ∧ Storage.stylemorph_history (localStorage s')
         = Storage.stylemorph_history (localStorage s)).
Proof.
  intros s'. subst s'. unfold invoke.
  destruct (processFiles_any_input s uuid now)
    as (_ & _ & [[Hh Hl]|(_ & [(Hst & He & _ & Hl)|(Hst & Hq & Hl)])]);
    cbv zeta in *.
  - split; [rewrite Hl; intros [H|H]; by destruct H|]. intros H. by destruct H.
  - split; [done|]. intros _. by left.
  - split.
    + rewrite Hl. intros [H|H]; by destruct H.
    + intros _. right. split; [done|]. split; [done|]. by rewrite Hl.
Qed.

End PipelineInGeneral.

Lemma processFiles_settles_witness :
  let r := run (processFiles transportFailThird (lit "id-1") 1700000000000) twoFiles in
  r.1 = Normal tt
  ∧ (status (app r.2) = COMPLETED ∨ status (app r.2) = ERROR)
  ∧ (calls r.2 ≤ 1 + length (files twoFiles))%nat
  ∧ (status (app r.2) = COMPLETED → calls r.2 = (1 + length (files twoFiles))%nat).
Proof.
  apply (processFiles_settles transportFailThird twoFiles (lit "id-1") 1700000000000).
  - vm_compute. discriminate.
  - vm_compute. discriminate.
Defined.

(** At a run whose write is refused, where the log on screen has
    changed. *)
Lemma processFiles_record_only_when_clean_witness :
  let s' := invoke (processFiles transportOk (lit "id-1") 1700000000000)
              twoFilesNoQuota in
  (Storage.stylemorph_history (localStorage s')
     ≠ Storage.stylemorph_history (localStorage twoFilesNoQuota)
   ∨ Storage.stylemorph_templates (localStorage s')
     ≠ Storage.stylemorph_templates (localStorage twoFilesNoQuota) →
   status s' = COMPLETED ∧ error s' = None)
  ∧ (history s' ≠ history twoFilesNoQuota →
     status s' = COMPLETED ∧ error s' = None
     ∨ status s' = ERROR
       ∧ Storage.nextError (localStorage twoFilesNoQuota) ≠ None
       ∧ Storage.stylemorph_history (localStorage s')
         = Storage.stylemorph_history (localStorage twoFilesNoQuota)).
Proof.
  apply (processFiles_record_only_when_clean transportOk twoFilesNoQuota
           (lit "id-1") 1700000000000).
Defined.

(** ** Undo and redo, in general *)

(** X11. Redo then undo is a round trip too: with the cursor valid and
    before the last index, redo moves it one step forward and an
    immediate undo brings back the same snapshot sequence and cursor, and
    the files and prompt of the snapshot the cursor was on. *)
Theorem redo_then_undo_restores (s : AppState) :
  (historyIndex s < length (inputHistory s) - 1)%nat →
  let s' := invoke handleUndo (invoke handleRedo s) in
  historyIndex (invoke handleRedo s) = (historyIndex s + 1)%nat
  ∧ inputHistory s' = inputHistory s
  ∧ historyIndex s' = historyIndex s
  ∧ inputHistory s !! historyIndex s = Some (Snapshot.mk (files s') (prompt s')).
Proof.
  intros Hlt.
  destruct s as [m fs p ts ih i u st sm rs e h sh dt ls]. simpl in *.
  destruct (lookup_lt_is_Some_2 ih (i + 1)%nat) as [next Hnext]; [lia|].
  destruct (lookup_lt_is_Some_2 ih i) as [[cf cp] Hcur]; [lia|].
  unfold invoke, run, exec, handleRedo. simpl.
  rewrite bool_decide_eq_true_2 by lia. simpl. rewrite Hnext. simpl.
  unfold handleUndo. simpl.
  rewrite bool_decide_eq_true_2 by lia. simpl.
  replace (i + 1 - 1)%nat with i by lia. rewrite Hcur. simpl.
  repeat split; try done; lia.
Qed.

Lemma redo_then_undo_restores_witness :
  let s := invoke handleUndo
             (invoke (handleFilesSelected [file0]) (initialState store0)) in
  let s' := invoke handleUndo (invoke handleRedo s) in
  historyIndex (invoke handleRedo s) = (historyIndex s + 1)%nat
  ∧ inputHistory s' = inputHistory s
  ∧ historyIndex s' = historyIndex s
  ∧ inputHistory s !! historyIndex s = Some (Snapshot.mk (files s') (prompt s')).
Proof.
  apply (redo_then_undo_restores
           (invoke handleUndo
              (invoke (handleFilesSelected [file0]) (initialState store0)))).
  vm_compute. lia.
Defined.

(** The first snapshot of a reachable state is the empty one the app
    mounted with. *)
Lemma Reachable_first_snapshot s :
  Reachable s → inputHistory s !! 0%nat = Some (Snapshot.mk [] []).
Proof.
  induction 1 as [store|s s' Hreach IH Hstep].
  { destruct (initialState_inputs store) as (_ & _ & -> & _). done. }
  pose proof (Reachable_cursorValid s Hreach) as [Hlt Hdt].
  destruct s as [m fs p ts ih i u st sm rs e h sh dt ls]. simpl in *. subst dt.
  assert (Hcommit : ∀ x, (take (i + 1) ih ++ [x]) !! 0%nat = Some (Snapshot.mk [] [])).
  { intros x. rewrite lookup_app_l by (rewrite length_take; lia).
    rewrite lookup_take_lt by lia. done. }
  inversion Hstep; subst; unfold invoke, run, exec; simpl.
  - apply Hcommit.
  - unfold handleFilesSelected; simpl. destruct u; simpl; [done|apply Hcommit].
  - unfold handleRemoveFile; simpl. destruct u; simpl; [done|apply Hcommit].
  - unfold handleSelectTemplate; simpl. destruct u; simpl; [done|apply Hcommit].
  - unfold handlePromptChange; simpl. destruct u; simpl; [done|apply Hcommit].
  - unfold handleUndo; simpl. case_bool_decide; simpl; [|done].
    by destruct (ih !! (i - 1)%nat).
  - unfold handleRedo; simpl. case_bool_decide; simpl; [|done].
    by destruct (ih !! (i + 1)%nat).
  - done.
Qed.

Lemma undo_iterated (n : nat) : ∀ s,
  historyIndex s = n →
  (n < length (inputHistory s))%nat →
  let s' := Nat.iter n (invoke handleUndo) s in
  historyIndex s' = 0%nat ∧ inputHistory s' = inputHistory s
  ∧ (n ≠ 0%nat →
     inputHistory s !! 0%nat = Some (Snapshot.mk (files s') (prompt s'))).
Proof.
  induction n as [|n IH]; intros s Hi Hlt.
  - simpl. done.
  - rewrite Nat.iter_succ_r.
    destruct s as [m fs p ts ih i u st sm rs e h sh dt ls]. simpl in *. subst i.
    destruct (lookup_lt_is_Some_2 ih n) as [[pf pp] Hprev]; [lia|].
    assert (Hundo : invoke handleUndo
                      (mkApp m fs p ts ih (S n) u st sm rs e h sh dt ls)
                    = mkApp m pf pp ts ih n true st sm rs e h sh dt ls).
    { unfold invoke, run, exec, handleUndo. simpl.
      replace (n - 0)%nat with n by lia. by rewrite Hprev. }
    rewrite Hundo.
    destruct (IH (mkApp m pf pp ts ih n true st sm rs e h sh dt ls))
      as (H0 & Hih & Hfirst); [done|simpl; lia|].
    simpl in *. split; [done|]. split; [done|]. intros _.
    destruct n as [|n]; [|by apply Hfirst].
    simpl. exact Hprev.
Qed.

(** X12. Undoing all the way empties the input: from a reachable state,
    as many undos as the cursor counts leave the cursor at 0 with no file
    and an empty prompt, and the snapshot sequence untouched (everything
    can be redone). *)
Theorem undo_all_the_way (s : AppState) :
  Reachable s →
  (0 < historyIndex s)%nat →
  let s' := Nat.iter (historyIndex s) (invoke handleUndo) s in
  historyIndex s' = 0%nat
  ∧ files s' = [] ∧ prompt s' = []
  ∧ inputHistory s' = inputHistory s.
Proof.
  intros Hreach Hpos s'.
  pose proof (Reachable_cursorValid s Hreach) as [Hlt _].
  pose proof (Reachable_first_snapshot s Hreach) as Hfirst.
  destruct (undo_iterated (historyIndex s) s eq_refl Hlt) as (H0 & Hih & Hsnap).
  fold s' in H0, Hih, Hsnap.
  specialize (Hsnap ltac:(lia)). rewrite Hfirst in Hsnap.
  injection Hsnap as Hf Hp. by repeat split.
Qed.

Lemma undo_all_the_way_witness :
  let s := invoke (handleSelectTemplate template0)
             (invoke (handleFilesSelected [file0]) (initialState store0)) in
  let s' := Nat.iter (historyIndex s) (invoke handleUndo) s in
  historyIndex s' = 0%nat
  ∧ files s' = [] ∧ prompt s' = []
  ∧ inputHistory s' = inputHistory s.
Proof.
  apply (undo_all_the_way
           (invoke (handleSelectTemplate template0)
              (invoke (handleFilesSelected [file0]) (initialState store0)))).
  - eapply reach_step; [eapply reach_step; [apply (reach_mount store0)|apply step_files]
                       |apply step_template].
  - vm_compute. lia.
Defined.

(** X13. Undo takes back an edit: when the snapshot under the cursor is
    the current files and prompt and no replay is in progress, adding
    files, removing a file or picking a template and then undoing gives
    back the files, the prompt and the cursor from before the edit. *)
Theorem edit_then_undo_restores (s : AppState)
    (newFiles : list UploadedFile.t) (id : jstr) (template : StyleTemplate.t) :
  isUndoing s = false →
  inputHistory s !! historyIndex s = Some (Snapshot.mk (files s) (prompt s)) →
  ∀ edited,
    edited = invoke (handleFilesSelected newFiles) s
    ∨ edited = invoke (handleRemoveFile id) s
    ∨ edited = invoke (handleSelectTemplate template) s →
    let s' := invoke handleUndo edited in
    historyIndex edited = (historyIndex s + 1)%nat
    ∧ files s' = files s ∧ prompt s' = prompt s
    ∧ historyIndex s' = historyIndex s.
Proof.
  intros Hu Hcur edited Hedit.
  destruct s as [m fs p ts ih i u st sm rs e h sh dt ls]. simpl in *. subst u.
  assert (Hlt : (i < length ih)%nat) by (apply lookup_lt_is_Some; eauto).
  assert (Hlook : ∀ x, (take (i + 1) ih ++ [x]) !! i = Some (Snapshot.mk fs p)).
  { intros x. rewrite lookup_app_l by (rewrite length_take; lia).
    by rewrite lookup_take_lt by lia. }
  destruct Hedit as [->|[->| ->]];
    unfold invoke, run, exec, handleFilesSelected, handleRemoveFile,
      handleSelectTemplate, handleUndo; simpl;
    rewrite bool_decide_eq_true_2 by lia; simpl;
    replace (i + 1 - 1)%nat with i by lia; rewrite Hlook; simpl;
    repeat split; done.
Qed.

Lemma edit_then_undo_restores_witness :
  let s := invoke (handleFilesSelected [file0]) (initialState store0) in
  let edited := invoke (handleRemoveFile (lit "f-1")) s in
  let s' := invoke handleUndo edited in
  historyIndex edited = (historyIndex s + 1)%nat
  ∧ files s' = files s ∧ prompt s' = prompt s
  ∧ historyIndex s' = historyIndex s.
Proof.
  apply (edit_then_undo_restores
           (invoke (handleFilesSelected [file0]) (initialState store0))
           [] (lit "f-1") template0); [reflexivity|reflexivity|].
  right. left. reflexivity.
Defined.

(** X14. With the cursor more than one past the last snapshot, undo
    throws: [inputHistory[historyIndex - 1]] is [undefined]. The replay
    flag has been set by then; nothing else changes, and redo does
    nothing in such a state. *)
Theorem handleUndo_past_the_end (s : AppState) :
  (length (inputHistory s) < historyIndex s)%nat →
  run handleUndo s = (Throw TypeError, mkWorld (withIsUndoing true s) [] 0%nat)
  ∧ invoke handleRedo s = s.
Proof.
  intros Hlt.
  destruct s as [m fs p ts ih i u st sm rs e h sh dt ls]. simpl in *.
  unfold invoke, run, exec, handleUndo, handleRedo. simpl.
  rewrite bool_decide_eq_true_2 by lia.
  rewrite bool_decide_eq_false_2 by lia. simpl.
  rewrite (lookup_ge_None_2 ih (i - 1)%nat) by lia. done.
Qed.

(** A state the handlers produce: a prompt edit, two uploads within its
    quiet period, then the debounce callback. *)
Lemma handleUndo_past_the_end_witness :
  let s := invoke debounceTimerFires
             (invoke (handleFilesSelected [file1])
                (invoke (handleFilesSelected [file0])
                   (invoke (handlePromptChange (lit "a")) (initialState store0)))) in
  run handleUndo s = (Throw TypeError, mkWorld (withIsUndoing true s) [] 0%nat)
  ∧ invoke handleRedo s = s.
Proof.
  apply (handleUndo_past_the_end
           (invoke debounceTimerFires
             (invoke (handleFilesSelected [file1])
                (invoke (handleFilesSelected [file0])
                   (invoke (handlePromptChange (lit "a")) (initialState store0)))))).
  vm_compute. lia.
Defined.

(** X15. [reset] does not cancel a pending prompt commit: when the
    debounce callback of an edit made before the reset fires after it,
    the fresh history gets a second snapshot holding the files from
    before the reset, while no file and no prompt are shown. *)
Theorem reset_keeps_pending_commit (s : AppState) (newPrompt : jstr) :
  isUndoing s = false →
  let s' := invoke debounceTimerFires
              (invoke reset (invoke (handlePromptChange newPrompt) s)) in
  files s' = [] ∧ prompt s' = []
  ∧ inputHistory s' = [Snapshot.mk [] []; Snapshot.mk (files s) newPrompt]
  ∧ historyIndex s' = 1%nat.
Proof.
  intros Hu.
  destruct s as [m fs p ts ih i u st sm rs e h sh dt ls]. simpl in *. subst u.
  unfold invoke, run, exec, handlePromptChange, reset, debounceTimerFires. simpl.
  rewrite take_ge by (simpl; lia). done.
Qed.

Lemma reset_keeps_pending_commit_witness :
  let s := invoke (handleFilesSelected [file0]) (initialState store0) in
  let s' := invoke debounceTimerFires
              (invoke reset (invoke (handlePromptChange (lit "neon")) s)) in
  files s' = [] ∧ prompt s' = []
  ∧ inputHistory s' = [Snapshot.mk [] []; Snapshot.mk (files s) (lit "neon")]
  ∧ historyIndex s' = 1%nat.
Proof.
  apply (reset_keeps_pending_commit
           (invoke (handleFilesSelected [file0]) (initialState store0)) (lit "neon")).
  reflexivity.
Defined.

(** ** The run log *)

Lemma filter_all {A} (P : A → Prop) `{∀ x, Decision (P x)} (l : list A) :
  Forall P l → filter P l = l.
Proof.
  induction 1 as [|x l Hx _ IH]; [done|].
  by rewrite filter_cons_True, IH.
Qed.

Lemma invoke_deleteHistoryItem s id :
  let updatedHistory := filter (λ item, HistoryItem.id item ≠ id) (history s) in
  invoke (deleteHistoryItem id) s
  = withLocalStorage
      (match Storage.nextError (localStorage s) with
       | Some _ => Storage.refused (localStorage s)
       | None => Storage.putHistory updatedHistory (localStorage s)
       end)
      (withHistory updatedHistory s).
Proof.
  unfold invoke, run, exec, deleteHistoryItem, storeHistory, setItem, setHistory,
    modify, gets, emit, throw.
  cbv beta iota delta [mbind M_bind mret M_ret].
  cbn [app trace calls fst snd localStorage withHistory].
  destruct (Storage.nextError (localStorage s)); reflexivity.
Qed.

(** X16. Saving a run and deleting it again does not always give the old
    log back: with a fresh id, the log is the first 19 records of the old
    one, so a full log of 20 has lost its oldest record. The persisted
    copy is that list when the write of the deletion returned. *)
Theorem saveToHistory_then_delete (s : AppState) (uuid : jstr) (now : Z)
    (newResults : list ProcessedFile.t) (userPrompt : jstr) :
  uuid ∉ (HistoryItem.id <$> history s) →
  let s' := invoke (deleteHistoryItem uuid)
              (invoke (saveToHistory uuid now newResults userPrompt) s) in
  history s' = take 19 (history s)
  ∧ ((length (history s) ≤ 19)%nat → history s' = history s)
  ∧ (Storage.setItemError (localStorage s)
       (S (Storage.setItemCalls (localStorage s))) = None →
     Storage.stylemorph_history (localStorage s') = Storage.Holds (history s')).
Proof.
  intros Hfresh s'. subst s'.
  rewrite invoke_deleteHistoryItem, invoke_saveToHistory. cbv zeta.
  destruct s as [m fs p ts ih i u st sm rs e h sh dt ls].
  cbn [history localStorage withLocalStorage withHistory] in *.
  unfold HISTORY_LIMIT. cbn [take].
  rewrite filter_cons_False by (simpl; tauto).
  assert (Hkeep : filter (λ item, HistoryItem.id item ≠ uuid) (take 19 h) = take 19 h).
  { apply filter_all. apply Forall_take, list.Forall_forall. intros item Hitem Heq.
    apply Hfresh, list_elem_of_fmap. eauto. }
  rewrite Hkeep. split; [done|]. split; [intros Hlen; by apply take_ge|].
  intros Hok.
  assert (Hnext : ∀ store, Storage.setItemError store = Storage.setItemError ls →
            Storage.setItemCalls store = S (Storage.setItemCalls ls) →
            Storage.nextError store = None).
  { intros store He Hc. unfold Storage.nextError. by rewrite He, Hc. }
  destruct (Storage.nextError ls); rewrite Hnext by done; done.
Qed.

Lemma saveToHistory_then_delete_witness :
  let s' := invoke (deleteHistoryItem (lit "id-21"))
              (invoke (saveToHistory (lit "id-21") 1700000000000 [] (lit "dark"))
                 fullStore) in
  history s' = take 19 (history fullStore)
  ∧ ((length (history fullStore) ≤ 19)%nat → history s' = history fullStore)
  ∧ (Storage.setItemError (localStorage fullStore)
       (S (Storage.setItemCalls (localStorage fullStore))) = None →
     Storage.stylemorph_history (localStorage s') = Storage.Holds (history s')).
Proof.
  apply (saveToHistory_then_delete fullStore (lit "id-21") 1700000000000 [] (lit "dark")).
  vm_compute. intros H. apply list_elem_of_In in H. simpl in H.
  repeat (destruct H as [H|H]; [discriminate H|]). exact H.
Defined.

Section RunLogRoundTrip.

Variable transport : nat → AIModel.t → Request → Completion jstr.

(** X17. A recorded run can be shown again: after a run that ended
    [COMPLETED] without message, the first record of the log, loaded
    after a reset, shows the artifacts of that run and its prompt, with
    status [COMPLETED], no input file, and nothing to undo or redo. *)
Theorem recorded_run_loads_back (s : AppState) (uuid : jstr) (now : Z) :
  files s ≠ [] →
  trim (prompt s) ≠ [] →
  let done := invoke (processFiles transport uuid now) s in
  status done = COMPLETED →
  error done = None →
  ∃ item,
    head (history done) = Some item
    ∧ let shown := invoke (loadHistoryItem item) (invoke reset done) in
      results shown = results done
      ∧ prompt shown = prompt s
      ∧ status shown = COMPLETED
      ∧ files shown = []
      ∧ invoke handleUndo shown = shown
      ∧ invoke handleRedo shown = shown.
Proof.
  intros Hfiles Hprompt done Hst Herr.
  destruct (processFiles_cases transport s uuid now Hfiles Hprompt)
    as (_ & _ & _
        & [(Hst' & _)
          |(_ & raw & _ & _ & _
            & [(_ & _ & He & _)|(_ & Hh & [_|(Hst' & _)])])]).
  - change (status done = ERROR) in Hst'. congruence.
  - change (error done = Some (validationIssuesMsg
              (validateCss (cleanCodeResponse raw)))) in He. congruence.
  - change (history done
            = take HISTORY_LIMIT
                (HistoryItem.mk uuid now (prompt s) (results done) :: history s))
      in Hh.
    exists (HistoryItem.mk uuid now (prompt s) (results done)).
    split; [by rewrite Hh|].
    destruct done as [m fs p ts ih i u st sm rs e h sh dt ls].
    unfold invoke, run, exec, loadHistoryItem, reset, handleUndo, handleRedo.
    simpl. done.
  - change (status done = ERROR) in Hst'. congruence.
Qed.

End RunLogRoundTrip.

Lemma recorded_run_loads_back_witness :
  let done := invoke (processFiles transportOk (lit "id-1") 1700000000000) twoFiles in
  ∃ item,
    head (history done) = Some item
    ∧ let shown := invoke (loadHistoryItem item) (invoke reset done) in
      results shown = results done
      ∧ prompt shown = prompt twoFiles
      ∧ status shown = COMPLETED
      ∧ files shown = []
      ∧ invoke handleUndo shown = shown
      ∧ invoke handleRedo shown = shown.
Proof.
  apply (recorded_run_loads_back transportOk twoFiles (lit "id-1") 1700000000000).
  - vm_compute. discriminate.
  - vm_compute. discriminate.
  - vm_compute. reflexivity.
  - vm_compute. reflexivity.
Defined.

(** ** The template catalog, in general *)

(** [Number_add] against the IEEE 754 addition on binary64, around the
    points where doubles stop being consecutive integers. *)
Example Number_add_is_binary64_add :
  Forall (λ a, Forall (λ b, Number_add a b = binary64_add a b ∧
                            Number_sub a b = binary64_add a (- b))
                 [1; 2; 3; 5; 2 ^ 7; 3 * 2 ^ 7])
    [0; 1; -1; 124; 2 ^ 53 - 2; 2 ^ 53 - 1; 2 ^ 53; 2 ^ 53 + 2; 2 ^ 53 + 4;
     2 ^ 53 + 6; 2 ^ 54; 2 ^ 54 + 4; 2 ^ 54 + 8; 2 ^ 54 + 12; 2 ^ 55 + 8;
     2 ^ 55 + 16; 2 ^ 55 + 24; - 2 ^ 53; - (2 ^ 53 + 2); - (2 ^ 54 + 4);
     2 ^ 60; 2 ^ 60 + 2 ^ 8; 2 ^ 60 + 3 * 2 ^ 8; 2 ^ 100].
Proof. repeat constructor; vm_compute; reflexivity. Qed.

Lemma roundToDouble_exact z : - 2 ^ 53 ≤ z ≤ 2 ^ 53 → roundToDouble z = z.
Proof.
  intros Hz. unfold roundToDouble.
  destruct (Z.ltb_spec (Z.abs z) (2 ^ 53)) as [_|Hge]; [done|].
  assert (Hcases : z = 2 ^ 53 ∨ z = - 2 ^ 53) by lia.
  destruct Hcases as [-> | ->]; vm_compute; reflexivity.
Qed.

(** On a safe integer, one up and one down again is exact. *)
Lemma Number_add_sub_safe z :
  isSafeInteger z →
  Number_sub (Number_add z 1) 1 = z ∧ Number_add (Number_sub z 1) 1 = z.
Proof.
  unfold isSafeInteger, Number_add, Number_sub. intros Hz.
  rewrite !(roundToDouble_exact (z + 1)), !(roundToDouble_exact (z - 1)) by lia.
  rewrite !roundToDouble_exact by lia. lia.
Qed.

Lemma likeToggled_twice id t :
  (StyleTemplate.id t = id → isSafeInteger (StyleTemplate.likes t)) →
  likeToggled id (likeToggled id t) = t.
Proof.
  intros Hsafe. destruct (decide (StyleTemplate.id t = id)) as [Heq|Hne].
  - unfold likeToggled at 2. rewrite (bool_decide_eq_true_2 _ Heq).
    unfold likeToggled. cbn [StyleTemplate.id]. rewrite (bool_decide_eq_true_2 _ Heq).
    destruct (Number_add_sub_safe _ (Hsafe Heq)) as [Hup Hdown].
    destruct t as [tid name pr likes liked custom]. cbn in *.
    destruct liked; cbn; f_equal; done.
  - unfold likeToggled at 2. rewrite (bool_decide_eq_false_2 _ Hne).
    unfold likeToggled. by rewrite (bool_decide_eq_false_2 _ Hne).
Qed.

(** At [2^53] the count is too large for that: one up is rounded back
    to [2^53], one down then gives [2^53 - 1]. *)
Example likeToggled_twice_at_2_53 :
  let t := StyleTemplate.mk (lit "t1") (lit "Dark Mode Minimal") [] (2 ^ 53)
             false None in
  StyleTemplate.likes (likeToggled (lit "t1") t) = 2 ^ 53
  ∧ StyleTemplate.likes (likeToggled (lit "t1") (likeToggled (lit "t1") t))
    = 2 ^ 53 - 1.
Proof. vm_compute. done. Qed.

(** X18. Liking is a toggle while the count is a safe integer: a second
    like with the same id gives back the catalog as it was, like counts
    included; the persisted copy is that catalog when the second write
    returned. *)
Theorem handleLikeTemplate_twice (s : AppState) (id : jstr) :
  Forall (λ t, StyleTemplate.id t = id → isSafeInteger (StyleTemplate.likes t))
    (templates s) →
  let s' := invoke (handleLikeTemplate id) (invoke (handleLikeTemplate id) s) in
  templates s' = templates s
  ∧ (Storage.setItemError (localStorage s)
       (S (Storage.setItemCalls (localStorage s))) = None →
     Storage.stylemorph_templates (localStorage s') = Storage.Holds (templates s)).
Proof.
  intros Hsafe s'. subst s'.
  assert (Hid : likeToggled id <$> (likeToggled id <$> templates s) = templates s).
  { induction Hsafe as [|t ts Ht _ IH]; [done|].
    rewrite !fmap_cons, IH. by rewrite likeToggled_twice. }
  split.
  - by rewrite !invoke_handleLikeTemplate.
  - intros Hok. rewrite (invoke_handleLikeTemplate_state (invoke _ s)).
    rewrite invoke_handleLikeTemplate, Hid, invoke_handleLikeTemplate_state.
    assert (Hnext : ∀ store,
              Storage.setItemError store = Storage.setItemError (localStorage s) →
              Storage.setItemCalls store = S (Storage.setItemCalls (localStorage s)) →
              Storage.nextError store = None).
    { intros store He Hc. unfold Storage.nextError. by rewrite He, Hc. }
    cbn [localStorage withLocalStorage].
    destruct (Storage.nextError (localStorage s)); rewrite Hnext by done; done.
Qed.

Lemma handleLikeTemplate_twice_witness :
  let s' := invoke (handleLikeTemplate (lit "t2"))
              (invoke (handleLikeTemplate (lit "t2")) twoFiles) in
  templates s' = templates twoFiles
  ∧ (Storage.setItemError (localStorage twoFiles)
       (S (Storage.setItemCalls (localStorage twoFiles))) = None →
     Storage.stylemorph_templates (localStorage s')
     = Storage.Holds (templates twoFiles)).
Proof.
  apply (handleLikeTemplate_twice twoFiles (lit "t2")).
  repeat constructor; intros _; vm_compute; split; reflexivity.
Defined.

(** X19. A prompt saved as a template can be taken back: the saved
    template holds the current prompt, its card renders the edit and the
    delete button, and deleting it (its id being new) restores the
    catalog. *)
Theorem handleSaveCurrentAsTemplate_then_delete (s : AppState) (uuid name : jstr) :
  uuid ∉ (StyleTemplate.id <$> templates s) →
  let saved := invoke (handleSaveCurrentAsTemplate uuid name) s in
  let newTemplate := StyleTemplate.mk uuid name (prompt s) 0 false (Some true) in
  templates saved = templates s ++ [newTemplate]
  ∧ EditButton ∈ cardControls None newTemplate
  ∧ DeleteButton ∈ cardControls None newTemplate
  ∧ templates (invoke (handleDeleteTemplate uuid) saved) = templates s.
Proof.
  intros Hfresh saved newTemplate. subst saved newTemplate.
  rewrite invoke_handleDeleteTemplate, invoke_handleSaveCurrentAsTemplate.
  split; [done|].
  split; [unfold cardControls; simpl; rewrite !elem_of_cons; tauto|].
  split; [unfold cardControls; simpl; rewrite !elem_of_cons; tauto|].
  rewrite list.filter_app, filter_cons_False, filter_nil, app_nil_r
    by (simpl; tauto).
  apply filter_all, list.Forall_forall. intros t Ht Heq.
  apply Hfresh, list_elem_of_fmap. eauto.
Qed.

Lemma handleSaveCurrentAsTemplate_then_delete_witness :
  let saved := invoke (handleSaveCurrentAsTemplate (lit "u-1") (lit "Mine")) twoFiles in
  let newTemplate :=
    StyleTemplate.mk (lit "u-1") (lit "Mine") (prompt twoFiles) 0 false (Some true) in
  templates saved = templates twoFiles ++ [newTemplate]
  ∧ EditButton ∈ cardControls None newTemplate
  ∧ DeleteButton ∈ cardControls None newTemplate
  ∧ templates (invoke (handleDeleteTemplate (lit "u-1")) saved) = templates twoFiles.
Proof.
  apply (handleSaveCurrentAsTemplate_then_delete twoFiles (lit "u-1") (lit "Mine")).
  vm_compute. intros H. apply list_elem_of_In in H. simpl in H.
  repeat (destruct H as [H|H]; [discriminate H|]). exact H.
Defined.

(** ** The model list *)

Lemma filter_none {A} (P : A → Prop) `{∀ x, Decision (P x)} (l : list A) :
  Forall (λ x, ¬ P x) l → filter P l = [].
Proof.
  induction 1 as [|x l Hx _ IH]; [done|].
  by rewrite filter_cons_False.
Qed.

(** X20. Asking Ollama again adds nothing: merging the same answer a
    second time leaves the model list as the first merge made it. *)
Theorem fetchLocalModels_twice (prev : list AIModel.t) (response : TagsResponse) :
  fetchLocalModels (fetchLocalModels prev response) response
  = fetchLocalModels prev response.
Proof.
  unfold fetchLocalModels. generalize (getOllamaModels response) as localModels.
  intros localModels. unfold mergeLocalModels.
  case_bool_decide; [|done].
  set (new := filter (λ m, AIModel.id m ∉ AIModel.id <$> prev) localModels).
  rewrite filter_none; [by rewrite app_nil_r|].
  apply list.Forall_forall. intros m Hm Hnot. apply Hnot.
  rewrite fmap_app, elem_of_app.
  destruct (decide (AIModel.id m ∈ AIModel.id <$> prev)) as [Hin|Hnin]; [by left|].
  right. apply list_elem_of_fmap. exists m. split; [done|].
  by apply list_elem_of_filter.
Qed.

Lemma NoDup_fmap_filter {A B} (f : A → B) (P : A → Prop) `{∀ x, Decision (P x)}
    (l : list A) :
  NoDup (f <$> l) → NoDup (f <$> filter P l).
Proof.
  induction l as [|x l IH]; [done|].
  intros Hnd. rewrite fmap_cons in Hnd. apply list.NoDup_cons in Hnd as [Hx Hl].
  destruct (decide (P x)).
  - rewrite filter_cons_True by done. rewrite fmap_cons. apply list.NoDup_cons.
    split; [|by apply IH].
    intros Hin. apply Hx. apply list_elem_of_fmap in Hin as (y & -> & Hy).
    apply list_elem_of_filter in Hy as [_ Hy]. by apply list_elem_of_fmap_2.
  - rewrite filter_cons_False by done. by apply IH.
Qed.

(** X21. Merging the local models keeps the list free of duplicate ids
    and keeps the models already listed in front, in their order: if the
    listed ids are distinct and the names Ollama reports are distinct,
    the ids of the merged list are distinct. Every model added is an
    Ollama model whose id is its name. *)
Theorem fetchLocalModels_no_duplicates
    (prev : list AIModel.t) (response : TagsResponse) :
  NoDup (AIModel.id <$> prev) →
  NoDup (AIModel.id <$> getOllamaModels response) →
  let merged := fetchLocalModels prev response in
  NoDup (AIModel.id <$> merged)
  ∧ take (length prev) merged = prev
  ∧ Forall (λ m, AIModel.provider m = ollama ∧ AIModel.id m = AIModel.name m)
      (drop (length prev) merged).
Proof.
  intros Hprev Hlocal merged. subst merged. unfold fetchLocalModels, mergeLocalModels.
  case_bool_decide.
  - rewrite take_app_length, drop_app_length.
    split; [|split; [done|]].
    + rewrite fmap_app. apply list.NoDup_app. split; [done|]. split.
      * intros x Hx Hin. apply list_elem_of_fmap in Hin as (m & -> & Hm).
        apply list_elem_of_filter in Hm as [Hm _]. by apply Hm.
      * by apply NoDup_fmap_filter.
    + apply list.Forall_forall. intros m Hm.
      apply list_elem_of_filter in Hm as [_ Hm]. clear -Hm.
      destruct response as [|[] [names|]]; simpl in Hm;
        try (by apply elem_of_nil in Hm).
      apply list_elem_of_fmap in Hm as (name & -> & _). done.
  - rewrite take_ge, drop_ge by lia. by repeat split.
Qed.

Lemma fetchLocalModels_no_duplicates_witness :
  let prev := [AIModel.mk (lit "gemini-2.5-flash") (lit "Gemini 2.5 Flash") google;
               AIModel.mk (lit "llama3") (lit "llama3") ollama] in
  let response := FetchResolved true (Some [lit "llama3"; lit "mistral"]) in
  let merged := fetchLocalModels prev response in
  NoDup (AIModel.id <$> merged)
  ∧ take (length prev) merged = prev
  ∧ Forall (λ m, AIModel.provider m = ollama ∧ AIModel.id m = AIModel.name m)
      (drop (length prev) merged).
Proof.
  apply (fetchLocalModels_no_duplicates
           [AIModel.mk (lit "gemini-2.5-flash") (lit "Gemini 2.5 Flash") google;
            AIModel.mk (lit "llama3") (lit "llama3") ollama]
           (FetchResolved true (Some [lit "llama3"; lit "mistral"])));
    apply (bool_decide_unpack _); vm_compute; exact I.
Defined.

(** ** The uploader *)

Lemma readAccepted_names uuids fileList : ∀ k,
  UploadedFile.name <$> readAccepted uuids k fileList
  = File.name <$> filter (λ file, isAcceptedFile file = true) fileList.
Proof.
  induction fileList as [|file fileList IH]; intros k; [done|]. simpl.
  destruct (isAcceptedFile file) eqn:Hacc.
  - rewrite filter_cons_True by done. rewrite !fmap_cons. by rewrite IH.
  - rewrite filter_cons_False by (rewrite Hacc; done). apply IH.
Qed.

Lemma readAccepted_length uuids fileList : ∀ k,
  (length (readAccepted uuids k fileList) ≤ length fileList)%nat.
Proof.
  induction fileList as [|file fileList IH]; intros k; simpl; [lia|].
  destruct (isAcceptedFile file); simpl; [specialize (IH (S k))|specialize (IH k)]; lia.
Qed.

Lemma sliceTo_take {A} (n : nat) (l : list A) : sliceTo (Z.of_nat n) l = take n l.
Proof.
  unfold sliceTo. destruct (Z.ltb_spec (Z.of_nat n) 0); [lia|].
  by rewrite Nat2Z.id.
Qed.

(** X22. What an upload admits: with room left, only the first
    [maxFiles - files.length] files of the selection are looked at, the
    supported ones among them are appended in order under their own
    names, and the count stays within [maxFiles]. A supported file behind
    unsupported ones that used up the room is not admitted. *)
Theorem uploaderProcessFiles_admits (maxFiles : nat) (uuids : nat → jstr)
    (fileList : list File.t) (s : AppState) :
  (length (files s) ≤ maxFiles)%nat →
  let s' := invoke (uploaderProcessFiles maxFiles uuids fileList) s in
  (UploadedFile.name <$> files s')
  = (UploadedFile.name <$> files s)
    ++ (File.name <$> filter (λ file, isAcceptedFile file = true)
          (take (maxFiles - length (files s)) fileList))
  ∧ (length (files s') ≤ maxFiles)%nat.
Proof.
  intros Hroom.
  destruct s as [m fs p ts ih i u st sm rs e h sh dt ls]. simpl in *.
  unfold invoke, run, exec, uploaderProcessFiles. cbn [files].
  replace (Z.of_nat maxFiles - Z.of_nat (length fs))
    with (Z.of_nat (maxFiles - length fs)) by lia.
  rewrite sliceTo_take.
  pose proof (readAccepted_names uuids (take (maxFiles - length fs) fileList) 0) as Hnames.
  pose proof (readAccepted_length uuids (take (maxFiles - length fs) fileList) 0) as Hlen.
  rewrite length_take in Hlen.
  destruct (readAccepted uuids 0 (take (maxFiles - length fs) fileList))
    as [|f0 added] eqn:Hread.
  - simpl. rewrite <- Hnames. simpl. rewrite app_nil_r. split; [done|lia].
  - rewrite bool_decide_eq_true_2 by (simpl; lia).
    unfold handleFilesSelected. destruct u; simpl;
      rewrite fmap_app, Hnames; (split; [done|]);
      rewrite length_app; simpl in *; lia.
Qed.

Lemma uploaderProcessFiles_admits_witness :
  let picked := [File.mk (lit "logo.png") (lit "image/png") (lit "");
                 File.mk (lit "about.html") (lit "text/html") (lit "<p>us</p>")] in
  let s := invoke (handleFilesSelected [file0; file0; file0]) (initialState store0) in
  let s' := invoke (uploaderProcessFiles DEFAULT_MAX_FILES (λ _, lit "id") picked) s in
  (UploadedFile.name <$> files s')
  = (UploadedFile.name <$> files s)
    ++ (File.name <$> filter (λ file, isAcceptedFile file = true)
          (take (DEFAULT_MAX_FILES - length (files s)) picked))
  ∧ (length (files s') ≤ DEFAULT_MAX_FILES)%nat.
Proof.
  apply (uploaderProcessFiles_admits DEFAULT_MAX_FILES (λ _, lit "id")
           [File.mk (lit "logo.png") (lit "image/png") (lit "");
            File.mk (lit "about.html") (lit "text/html") (lit "<p>us</p>")]
           (invoke (handleFilesSelected [file0; file0; file0]) (initialState store0))).
  vm_compute. lia.
Defined.

(** ** Invariants of the running app *)

Lemma commit_within_limit (ih : list Snapshot.t) (i : nat) (x : Snapshot.t) :
  Forall (λ snap, (length (Snapshot.files snap) ≤ DEFAULT_MAX_FILES)%nat) ih →
  (length (Snapshot.files x) ≤ DEFAULT_MAX_FILES)%nat →
  Forall (λ snap, (length (Snapshot.files snap) ≤ DEFAULT_MAX_FILES)%nat)
    (take (i + 1) ih ++ [x]).
Proof.
  intros Hih Hx. apply Forall_app. split; [by apply Forall_take|by constructor].
Qed.

Lemma handleFilesSelected_within_limit newFiles s :
  withinFileLimit s →
  (length (files s ++ newFiles) ≤ DEFAULT_MAX_FILES)%nat →
  withinFileLimit (invoke (handleFilesSelected newFiles) s).
Proof.
  intros (Hf & Hh & Hd) Hnew.
  destruct s as [m fs p ts ih i u st sm rs e h sh dt ls]. simpl in *.
  unfold withinFileLimit, invoke, run, exec, handleFilesSelected. simpl.
  destruct u; simpl; (split; [done|]); (split; [|done]); [done|].
  by apply commit_within_limit.
Qed.

Lemma uploaderProcessFiles_within_limit uuids fileList s :
  withinFileLimit s →
  withinFileLimit (invoke (uploaderProcessFiles DEFAULT_MAX_FILES uuids fileList) s).
Proof.
  intros Hs. pose proof Hs as (Hf & _).
  unfold invoke, run, exec, uploaderProcessFiles.
  replace (Z.of_nat DEFAULT_MAX_FILES - Z.of_nat (length (files s)))
    with (Z.of_nat (DEFAULT_MAX_FILES - length (files s))) by lia.
  rewrite sliceTo_take.
  pose proof (readAccepted_length uuids
                (take (DEFAULT_MAX_FILES - length (files s)) fileList) 0) as Hlen.
  rewrite length_take in Hlen.
  case_bool_decide; [|done].
  apply handleFilesSelected_within_limit; [done|].
  rewrite length_app. lia.
Qed.

Lemma uiStep_withinFileLimit s s' :
  uiStep s s' → withinFileLimit s → withinFileLimit s'.
Proof.
  intros Hstep Hs. destruct Hstep.
  - by apply uploaderProcessFiles_within_limit.
  - unfold invoke, run, exec, handleDrop. case_bool_decide; [done|].
    case_bool_decide; [|done]. by apply uploaderProcessFiles_within_limit.
  - destruct Hs as (Hf & Hh & Hd).
    destruct s as [m fs p ts ih i u st sm rs e h sh dt ls]. simpl in *.
    assert (Hle : (length (filter (λ f, UploadedFile.id f ≠ id) fs)
                   ≤ DEFAULT_MAX_FILES)%nat).
    { etrans; [apply length_filter|done]. }
    unfold withinFileLimit, invoke, run, exec, handleRemoveFile. simpl.
    destruct u; simpl; (split; [done|]); (split; [|done]); [done|].
    by apply commit_within_limit.
  - destruct Hs as (Hf & Hh & Hd).
    destruct s as [m fs p ts ih i u st sm rs e h sh dt ls]. simpl in *.
    unfold withinFileLimit, invoke, run, exec, handlePromptChange. simpl.
    destruct u; simpl; (split; [done|]); (split; [done|]); [done|].
    intros i' fs' p' Heq. by injection Heq as <- <- <-.
  - destruct Hs as (Hf & Hh & Hd).
    destruct s as [m fs p ts ih i u st sm rs e h sh dt ls]. simpl in *.
    unfold withinFileLimit, invoke, run, exec, debounceTimerFires. simpl.
    destruct dt as [[[ci cf] cp]|]; simpl; [|done].
    split; [done|]. split; [|done].
    apply commit_within_limit; [done|]. simpl. by apply (Hd ci cf cp).
  - destruct Hs as (Hf & Hh & Hd).
    destruct s as [m fs p ts ih i u st sm rs e h sh dt ls]. simpl in *.
    unfold withinFileLimit, invoke, run, exec, handleUndo. simpl.
    case_bool_decide; simpl; [|done].
    destruct (ih !! (i - 1)%nat) as [prev|] eqn:Hprev; simpl; [|done].
    split; [|done]. by apply (Forall_lookup_1 _ _ _ _ Hh Hprev).
  - destruct Hs as (Hf & Hh & Hd).
    destruct s as [m fs p ts ih i u st sm rs e h sh dt ls]. simpl in *.
    unfold withinFileLimit, invoke, run, exec, handleRedo. simpl.
    case_bool_decide; simpl; [|done].
    destruct (ih !! (i + 1)%nat) as [next|] eqn:Hnext; simpl; [|done].
    split; [|done]. by apply (Forall_lookup_1 _ _ _ _ Hh Hnext).
  - destruct s. exact Hs.
  - destruct Hs as (Hf & Hh & Hd).
    destruct s as [m fs p ts ih i u st sm rs e h sh dt ls]. simpl in *.
    unfold withinFileLimit, invoke, run, exec, handleSelectTemplate. simpl.
    destruct u; simpl; (split; [done|]); (split; [|done]); [done|].
    by apply commit_within_limit.
  - rewrite (invoke_updateTemplates _ _ s (λ _, eq_refl)). by destruct s.
  - rewrite (invoke_updateTemplates _ _ s (λ _, eq_refl)). by destruct s.
  - rewrite (invoke_updateTemplates _ _ s (λ _, eq_refl)). by destruct s.
  - rewrite (invoke_updateTemplates _ _ s (λ _, eq_refl)). by destruct s.
  - destruct Hs as (Hf & Hh & Hd).
    destruct (processFiles_any_input transport s uuid now)
      as (_ & (_ & Hf' & _ & _ & Hih' & _ & _ & Hdt') & _).
    unfold withinFileLimit, invoke. by rewrite Hf', Hih', Hdt'.
  - destruct Hs as (Hf & Hh & Hd). destruct s.
    unfold withinFileLimit. simpl in *. split; [lia|]. split; [|done].
    repeat constructor; simpl; lia.
  - rewrite invoke_deleteHistoryItem. by destruct s.
  - destruct Hs as (Hf & Hh & Hd). destruct s.
    unfold withinFileLimit. simpl in *. split; [lia|]. split; [|done].
    repeat constructor; simpl; lia.
Qed.

(** X23. The file limit holds throughout: in every state the app can
    get into from its mount, through any order of uploads, drops,
    removals, prompt edits, template picks, undo, redo, resets, runs,
    loads and timer callbacks, there are at most 4 input files, and no
    snapshot holds more. *)
Theorem file_limit_always (store : Storage.t) (s : AppState) :
  uiReachable store s →
  (length (files s) ≤ 4)%nat
  ∧ Forall (λ snap, (length (Snapshot.files snap) ≤ 4)%nat) (inputHistory s).
Proof.
  intros Hreach.
  assert (Hlimit : withinFileLimit s).
  { induction Hreach as [|s s' _ IH Hstep].
    - destruct (initialState_inputs store) as (Hf & _ & Hih & _ & _ & Hdt & _).
      unfold withinFileLimit. rewrite Hf, Hih, Hdt.
      split; [simpl; lia|]. split; [|done]. repeat constructor; simpl; lia.
    - by apply (uiStep_withinFileLimit s s'). }
  destruct Hlimit as (Hf & Hh & _). done.
Qed.

Lemma file_limit_always_witness :
  let s := invoke (uploaderProcessFiles DEFAULT_MAX_FILES (λ _, lit "id")
                     (replicate 6 (File.mk (lit "a.html") (lit "text/html") (lit ""))))
             (initialState store0) in
  (length (files s) ≤ 4)%nat
  ∧ Forall (λ snap, (length (Snapshot.files snap) ≤ 4)%nat) (inputHistory s).
Proof.
  apply (file_limit_always store0).
  eapply ui_step; [apply ui_mount|apply ui_upload].
Defined.

(** Runs a handler on a state given by its fields and splits on what the
    handler branches on. *)
Ltac run_handler :=
  unfold invoke, run, exec, handleDrop, uploaderProcessFiles, handleFilesSelected,
    handleRemoveFile, handlePromptChange, debounceTimerFires, handleUndo,
    handleRedo, replayTimerFires, handleSelectTemplate, handleLikeTemplate,
    handleDeleteTemplate, handleRenameTemplate, handleSaveCurrentAsTemplate,
    loadHistoryItem, deleteHistoryItem, reset;
  cbv beta iota delta [mbind M_bind mret M_ret setFiles setPrompt setTemplates
    setHistoryIndex setStatus setStatusMessage setResults setError setHistory
    modify gets emit addToHistoryStack updateTemplates storeTemplates
    storeHistory setItem throw];
  simpl;
  repeat (case_bool_decide; simpl);
  repeat match goal with
         | |- context [match ?x with _ => _ end] => destruct x eqn:?; simpl
         end.

(** What the mount effect loads when the saved run history parses. *)
Lemma initialState_loaded store :
  Storage.stylemorph_history store ≠ Storage.Unparsable →
  templates (initialState store)
  = Storage.valueOr DEFAULT_TEMPLATES (Storage.stylemorph_templates store)
  ∧ history (initialState store)
    = Storage.valueOr [] (Storage.stylemorph_history store).
Proof. destruct store as [[| |h] [| |ts] q n]; done. Qed.

(** A saved run history that does not parse keeps the saved templates
    from being read. *)
Example initialState_skips_templates :
  let store := Storage.holding Storage.Unparsable
                 (Storage.Holds [template0]) in
  templates (initialState store) = DEFAULT_TEMPLATES
  ∧ history (initialState store) = [].
Proof. done. Qed.

Lemma uiStep_persistedInSync s s' :
  uiStep s s' →
  storeSound (localStorage s) → persistedInSync s →
  storeSound (localStorage s') ∧ persistedInSync s'.
Proof.
  intros Hstep [Hparse Hq] [Ht Hh].
  assert (Hnext : Storage.nextError (localStorage s) = None) by apply Hq.
  destruct Hstep;
    try (destruct s as [m fs p ts ih i u st sm rs e h sh dt ls];
         unfold persistedInSync, storeSound in *; simpl in *; run_handler;
         try congruence; by repeat split).
  destruct (processFiles_any_input transport s uuid now)
    as (_ & (_ & _ & _ & Ht' & _)
        & [[Hh' Hl']|(_ & [(_ & _ & _ & Hl')|(_ & Hrefused & _)])]);
    unfold persistedInSync, storeSound, invoke; [| |done].
  - by rewrite Ht', Hh', Hl'.
  - rewrite Ht', Hl'. by repeat split.
Qed.

(** X24. Nothing shown is lost by a reload, as long as the saved run
    history parses and the browser accepts the writes: in every state the
    app can get into, the template catalog and the run log on screen are
    what [localStorage] holds (the initial ones where it holds none), and
    mounting again from that storage shows the same catalog and log. *)
Theorem persisted_always_in_sync (store : Storage.t) (s : AppState) :
  Storage.stylemorph_history store ≠ Storage.Unparsable →
  (∀ k, Storage.setItemError store k = None) →
  uiReachable store s →
  templates s
  = Storage.valueOr DEFAULT_TEMPLATES (Storage.stylemorph_templates (localStorage s))
  ∧ history s = Storage.valueOr [] (Storage.stylemorph_history (localStorage s))
  ∧ templates (initialState (localStorage s)) = templates s
  ∧ history (initialState (localStorage s)) = history s.
Proof.
  intros Hparse Hq Hreach.
  assert (Hsync : storeSound (localStorage s) ∧ persistedInSync s).
  { induction Hreach as [|s s' _ [IHs IHp] Hstep].
    - destruct (initialState_inputs store) as (_ & _ & _ & _ & _ & _ & Hl).
      destruct (initialState_loaded store Hparse) as [Ht Hh].
      unfold persistedInSync, storeSound. by rewrite Hl, Ht, Hh.
    - by apply (uiStep_persistedInSync s s'). }
  destruct Hsync as [[Hparse' _] [Ht Hh]].
  destruct (initialState_loaded (localStorage s) Hparse') as [-> ->].
  by rewrite <- Ht, <- Hh.
Qed.

Lemma persisted_always_in_sync_witness :
  let s := invoke (deleteHistoryItem (lit "run-3"))
             (invoke (handleLikeTemplate (lit "t2")) fullStore) in
  templates s
  = Storage.valueOr DEFAULT_TEMPLATES (Storage.stylemorph_templates (localStorage s))
  ∧ history s = Storage.valueOr [] (Storage.stylemorph_history (localStorage s))
  ∧ templates (initialState (localStorage s)) = templates s
  ∧ history (initialState (localStorage s)) = history s.
Proof.
  apply (persisted_always_in_sync store20).
  - discriminate.
  - reflexivity.
  - eapply ui_step; [|apply ui_delete_run].
    eapply ui_step; [|apply ui_like].
    eapply ui_step; [|apply ui_select].
    eapply ui_step; [apply ui_mount|].
    apply (ui_drop (λ _, lit "f-1")
             [File.mk (lit "index.html") (lit "text/html") (lit "<p>hi</p>")]).
Defined.

Lemma uiStep_history_cap s s' :
  uiStep s s' →
  (length (history s) ≤ HISTORY_LIMIT)%nat → (length (history s') ≤ HISTORY_LIMIT)%nat.
Proof.
  intros Hstep Hcap. destruct Hstep;
    try (destruct s as [m fs p ts ih i u st sm rs e h sh dt ls];
         simpl in *; run_handler; done).
  - destruct (processFiles_any_input transport s uuid now)
      as (_ & _ & [[Hh' _]|([item Hh'] & _)]); unfold invoke; rewrite Hh'.
    + done.
    + rewrite length_take. lia.
  - rewrite invoke_deleteHistoryItem. destruct s. cbn.
    etrans; [apply length_filter|done].
Qed.

(** X25. The run log stays bounded: if the log loaded at mount holds at
    most 20 records, it holds at most 20 in every state the app can get
    into. *)
Theorem run_log_cap_always (store : Storage.t) (s : AppState) :
  (length (history (initialState store)) ≤ 20)%nat →
  uiReachable store s →
  (length (history s) ≤ 20)%nat.
Proof.
  intros Hstore Hreach. induction Hreach as [|s s' _ IH Hstep]; [done|].
  by apply (uiStep_history_cap s s').
Qed.

Lemma run_log_cap_always_witness :
  (length (history
     (invoke (processFiles transportOk (lit "id-21") 1700000000000) fullStore))
   ≤ 20)%nat.
Proof.
  apply (run_log_cap_always store20).
  - vm_compute. lia.
  - eapply ui_step; [|apply ui_generate].
    eapply ui_step; [|apply ui_select].
    eapply ui_step; [apply ui_mount|].
    exact (ui_drop (λ _, lit "f-1")
             [File.mk (lit "index.html") (lit "text/html") (lit "<p>hi</p>")]
             (initialState store20)).
Defined.

(** ** The preview document *)

Lemma stripPrefix_Some a : ∀ s rest, stripPrefix a s = Some rest → s = a ++ rest.
Proof.
  induction a as [|x a IH]; intros s rest H.
  - destruct s; simpl in H; by injection H as <-.
  - destruct s as [|y s]; simpl in H; [discriminate|].
    destruct (N.eqb_spec x y) as [->|_]; [|discriminate].
    by rewrite (IH s rest H).
Qed.

Lemma indexOfFrom_split needle : ∀ s pos n,
  indexOfFrom needle s pos = Some n →
  ∃ k, n = (pos + k)%nat ∧ s = take k s ++ needle ++ drop (k + length needle) s.
Proof.
  induction s as [|c s IH]; intros pos n H; simpl in H.
  - destruct (stripPrefix needle []) as [rest|] eqn:Hp; [|discriminate].
    injection H as <-. exists 0%nat. split; [lia|].
    apply stripPrefix_Some in Hp. destruct needle; [done|discriminate Hp].
  - destruct (stripPrefix needle (c :: s)) as [rest|] eqn:Hp.
    + injection H as <-. exists 0%nat. split; [lia|].
      apply stripPrefix_Some in Hp. rewrite Hp at 1. simpl. f_equal.
      by rewrite Hp, drop_app_length.
    + destruct (IH (S pos) n H) as (k & -> & Hs).
      exists (S k). split; [lia|]. simpl. by rewrite <- Hs.
Qed.

Lemma getSubstitution_plain matched before after replacement :
  36%N ∉ replacement →
  getSubstitution matched before after replacement = replacement.
Proof.
  induction replacement as [|c r IH]; intros Hno; [done|].
  apply not_elem_of_cons in Hno as [Hc Hr].
  destruct (N.eqb_spec c 36) as [->|Hne]; [done|].
  assert (Hstep : getSubstitution matched before after (c :: r)
                  = c :: getSubstitution matched before after r).
  { simpl. destruct c as [|q]; [done|].
    repeat (destruct q as [q|q|]; try done). }
  by rewrite Hstep, IH.
Qed.

(** X26. The preview of a rewritten document carries the generated
    stylesheet: when the active artifact is a document containing
    [</head>] and the stylesheet text has no [$], the preview is the
    document with the style block put right before its first [</head>],
    and nothing else changed. *)
Theorem previewContent_injects_style (results : list ProcessedFile.t)
    (activeTab : nat) (activeFile cssFile : ProcessedFile.t) (n : nat) :
  results !! activeTab = Some activeFile →
  ProcessedFile.type activeFile = html →
  head (filter (λ f, ProcessedFile.type f = css) results) = Some cssFile →
  36%N ∉ ProcessedFile.content cssFile →
  indexOf (lit "</head>") (ProcessedFile.content activeFile) = Some n →
  let document := ProcessedFile.content activeFile in
  previewContent results activeTab
  = Normal (take n document ++ styleBlockOf cssFile ++ lit "</head>"
            ++ drop (n + 7) document)
  ∧ document = take n document ++ lit "</head>" ++ drop (n + 7) document.
Proof.
  intros Hactive Htype Hcss Hplain Hindex document.
  unfold previewContent. rewrite Hactive, Hcss.
  rewrite bool_decide_eq_false_2 by (rewrite Htype; tauto).
  rewrite Hindex. unfold replaceFirst. rewrite Hindex.
  rewrite getSubstitution_plain.
  - split; [by rewrite <- !app_assoc|].
    destruct (indexOfFrom_split _ _ _ _ Hindex) as (k & -> & Hs). exact Hs.
  - unfold styleBlockOf. rewrite !elem_of_app.
    intros [[H|[H|H]]|H]; try done;
      apply list_elem_of_In in H; vm_compute in H; intuition discriminate.
Qed.

Lemma previewContent_injects_style_witness :
  let page := ProcessedFile.mk (lit "index.html")
                (lit "<html><head></head><body></body></html>") html in
  let sheet := ProcessedFile.mk (lit "style.css") (lit "a{b}") css in
  let document := ProcessedFile.content page in
  previewContent [sheet; page] 1
  = Normal (take 12 document ++ styleBlockOf sheet ++ lit "</head>"
            ++ drop (12 + 7) document)
  ∧ document = take 12 document ++ lit "</head>" ++ drop (12 + 7) document.
Proof.
  apply (previewContent_injects_style
           [ProcessedFile.mk (lit "style.css") (lit "a{b}") css;
            ProcessedFile.mk (lit "index.html")
              (lit "<html><head></head><body></body></html>") html]
           1 (ProcessedFile.mk (lit "index.html")
              (lit "<html><head></head><body></body></html>") html)
           (ProcessedFile.mk (lit "style.css") (lit "a{b}") css) 12).
  - reflexivity.
  - reflexivity.
  - reflexivity.
  - vm_compute. intros H. apply list_elem_of_In in H. simpl in H.
    repeat (destruct H as [H|H]; [discriminate H|]). exact H.
  - vm_compute. reflexivity.
Defined.
